(** * Rapid Image Culler (app.py): configuration, scanner and session

    A shallow embedding of the logic of [app.py]: [ConfigManager]
    (load / validate / migrate / save), [RecursiveScanner] (flat and
    recursive scan) and the part of [RapidCullerApp] that drives a culling
    session (scan-and-sort, move with collision renaming, navigation).

    Conventions.
    - A Python [str] is a [string] (characters are 8-bit codes; comparison
      is lexicographic on codes, as Python compares code points).
    - A value produced by [json.load] is a [json]; a Python [dict] with
      string keys is a [gmap string json] ([d !! k] is [d.get(k)],
      [<[k:=v]> d] is [d[k] = v]).
    - A Python call that may raise returns a [result]; code with effects
      (files, console, dialogs) passes its world explicitly.
    - Paths follow [posixpath]. *)

From Stdlib Require Import Ascii String.
From stdpp Require Import base decidable option list gmap strings pretty sorting.

Local Open Scope string_scope.
Local Open Scope list_scope.

Set Warnings "-clear-no-such-hyp".

(** ** Exceptions and results *)

Inductive exn : Type :=
  | FileNotFoundError (msg : string)
  | PermissionError (msg : string)
  | NotADirectoryError (msg : string)
  | FileExistsError (msg : string)
  | ShutilError (msg : string)        (* [shutil.Error], an [OSError] *)
  | JSONDecodeError (msg : string)
  | ValueError (msg : string)
  | TypeError (msg : string)
  | KeyError (msg : string)
  | AttributeError (msg : string).

(** [str(e)] for an exception. *)
Definition exn_str (e : exn) : string :=
  match e with
  | FileNotFoundError m | PermissionError m | NotADirectoryError m
  | FileExistsError m | ShutilError m | JSONDecodeError m | ValueError m | TypeError m
  | KeyError m | AttributeError m => m
  end.

(** [isinstance(e, OSError)]. *)
Definition is_OSError (e : exn) : bool :=
  match e with
  | FileNotFoundError _ | PermissionError _ | NotADirectoryError _
  | FileExistsError _ | ShutilError _ => true
  | _ => false
  end.

Inductive result (A : Type) : Type :=
  | Ret (a : A)
  | Raise (e : exn).
Arguments Ret {A} a.
Arguments Raise {A} e.

(** Sequencing: an exception raised by the first call skips the rest.
    The instance gives [result] stdpp's notation [x ← r; k]. *)
Global Instance result_bind : MBind result := λ A B k r,
  match r with
  | Ret a => k a
  | Raise e => Raise e
  end.
Global Instance result_ret : MRet result := λ A a, Ret a.

(** Effectful code: a world [W] is passed along; an exception leaves the
    effects made so far in place. *)
Definition io (W A : Type) : Type := W → result A * W.

Global Instance io_bind {W} : MBind (io W) := λ A B k m w,
  match m w with
  | (Ret a, w') => k a w'
  | (Raise e, w') => (Raise e, w')
  end.
Global Instance io_ret {W} : MRet (io W) := λ A a w, (Ret a, w).

Definition raise {W A} (e : exn) : io W A := λ w, (Raise e, w).
Definition lift {W A} (r : result A) : io W A := λ w, (r, w).
Definition modify {W} (f : W → W) : io W unit := λ w, (Ret tt, f w).
Definition gets {W A} (f : W → A) : io W A := λ w, (Ret (f w), w).

(** [try: body  except <catches> as e: handler e]. *)
Definition try_except {W A} (body : io W A) (catches : exn → bool)
    (handler : exn → io W A) : io W A := λ w,
  match body w with
  | (Raise e, w') => if catches e then handler e w' else (Raise e, w')
  | (Ret a, w') => (Ret a, w')
  end.

(** ** JSON values *)

#[warnings="-register-all"]
Inductive json : Type :=
  | JNull
  | JBool (b : bool)
  | JInt (z : Z)
  | JFloat (repr : string)      (* a float, carried by its Python repr *)
  | JStr (s : string)
  | JList (l : list json)
  | JDict (d : gmap string json).

(** [k in d] for a dict. *)
Definition contains (d : gmap string json) (k : string) : bool :=
  match d !! k with
  | Some _ => true
  | None => false
  end.

(** [d[k]]: raises [KeyError] on a missing key. *)
Definition getitem (d : gmap string json) (k : string) : result json :=
  match d !! k with
  | Some v => Ret v
  | None => Raise (KeyError k)
  end.

(** [isinstance(v, dict)] and [isinstance(v, bool)]. *)
Definition is_dict (v : json) : bool :=
  match v with JDict _ => true | _ => false end.
Definition is_bool (v : json) : bool :=
  match v with JBool _ => true | _ => false end.

(** A value that Python can hash: everything [json.load] produces except
    lists and dicts. *)
Definition hashable (v : json) : bool :=
  match v with
  | JList _ | JDict _ => false
  | _ => true
  end.

(** [str(v)], as an f-string interpolates it.  Lists and dicts are never
    interpolated by the code below (the set membership test that precedes
    the interpolation raises on them); their text is abbreviated. *)
Definition py_str (v : json) : string :=
  match v with
  | JNull => "None"
  | JBool true => "True"
  | JBool false => "False"
  | JInt z => pretty z
  | JFloat r => r
  | JStr s => s
  | JList _ => "[...]"
  | JDict _ => "{...}"
  end.

Module Config.

(** *** ConfigManager *)

Definition DEFAULT_CONFIG : gmap string json :=
  <["src" := JStr ""]>
  (<["keep" := JStr ""]>
  (<["button_mappings" :=
       JDict (<["left_click" := JStr "keep"]>
              (<["right_click" := JStr "reject"]> ∅))]>
  (<["wheel_mappings" :=
       JDict (<["wheel_up" := JStr "previous"]>
              (<["wheel_down" := JStr "next"]> ∅))]>
  (<["options" :=
       JDict (<["recursive_loading" := JBool false]> ∅)]> ∅)))).

Definition VALID_ACTIONS : list string :=
  ["keep"; "reject"; "next"; "previous"; "skip"; "disabled"].

(** [action in self.VALID_ACTIONS]: membership in a set of strings hashes
    the candidate first, so a list or a dict raises [TypeError]. *)
Definition in_VALID_ACTIONS (action : json) : result bool :=
  match action with
  | JStr s => Ret (bool_decide (s ∈ VALID_ACTIONS))
  | JList _ => Raise (TypeError "unhashable type: 'list'")
  | JDict _ => Raise (TypeError "unhashable type: 'dict'")
  | _ => Ret false
  end.

(** The loop [for key in required_keys: if key not in config: return ...];
    [Some key] is the key that triggers the early return. *)
Fixpoint first_missing (keys : list string) (config : gmap string json)
  : option string :=
  match keys with
  | [] => None
  | key :: rest =>
      if contains config key then first_missing rest config else Some key
  end.

(** The loops over [button_keys] and [wheel_keys]: [what] is "button" or
    "wheel"; [Ret (Some reason)] is the early [return False, reason]. *)
Fixpoint check_mappings (what : string) (keys : list string)
    (mappings : gmap string json) : result (option string) :=
  match keys with
  | [] => Ret None
  | key :: rest =>
      if negb (contains mappings key)
      then Ret (Some ("Missing " +:+ what +:+ " mapping: " +:+ key))
      else
        action ← getitem mappings key;
        ok ← in_VALID_ACTIONS action;
        if negb ok
        then Ret (Some ("Invalid action '" +:+ py_str action +:+ "' for " +:+ key))
        else check_mappings what rest mappings
  end.

Definition required_keys : list string :=
  ["src"; "keep"; "button_mappings"; "wheel_mappings"; "options"].
Definition button_keys : list string := ["left_click"; "right_click"].
Definition wheel_keys : list string := ["wheel_up"; "wheel_down"].

(** [ConfigManager.validate]. *)
Definition validate (config : json) : result (bool * string) :=
  match config with
  | JDict c =>
      if contains c "src" && contains c "keep"
         && negb (contains c "button_mappings")
      then Ret (true, "")
      else
        match first_missing required_keys c with
        | Some key => Ret (false, "Missing required key: " +:+ key)
        | None =>
            bm ← getitem c "button_mappings";
            match bm with
            | JDict bm =>
                r ← check_mappings "button" button_keys bm;
                match r with
                | Some reason => Ret (false, reason)
                | None =>
                    wm ← getitem c "wheel_mappings";
                    match wm with
                    | JDict wm =>
                        r ← check_mappings "wheel" wheel_keys wm;
                        match r with
                        | Some reason => Ret (false, reason)
                        | None =>
                            opts ← getitem c "options";
                            match opts with
                            | JDict opts =>
                                if negb (contains opts "recursive_loading")
                                then Ret (false, "Missing option: recursive_loading")
                                else
                                  rl ← getitem opts "recursive_loading";
                                  if negb (is_bool rl)
                                  then Ret (false, "recursive_loading must be a boolean")
                                  else Ret (true, "")
                            | _ => Ret (false, "options must be a dictionary")
                            end
                        end
                    | _ => Ret (false, "wheel_mappings must be a dictionary")
                    end
                end
            | _ => Ret (false, "button_mappings must be a dictionary")
            end
        end
  | _ => Ret (false, "Config must be a dictionary")
  end.

(** *** The settings file and the manager's state *)

(** What reading the settings file gives. *)
Inductive stored : Type :=
  | Unreadable (e : exn)      (* [open(.., 'r')] raises [e] *)
  | Garbled (msg : string)    (* [json.load] raises [JSONDecodeError(msg)] *)
  | Document (data : json).   (* [json.load] returns [data] *)

Record world : Type := World {
  disk : option stored;            (* the settings file; [None]: absent *)
  write_error : option exn;        (* [Some e]: [open(.., 'w')] raises [e] *)
  stdout : list string;            (* lines printed, oldest first *)
  dialogs : list (string * string);(* message boxes shown: title, text *)
  self_config : option json        (* [ConfigManager.config] *)
}.

Definition print (line : string) : io world unit :=
  modify (λ w, World (disk w) (write_error w) (stdout w ++ [line])
                     (dialogs w) (self_config w)).

Definition showwarning (title text : string) : io world unit :=
  modify (λ w, World (disk w) (write_error w) (stdout w)
                     (dialogs w ++ [(title, text)]) (self_config w)).

(** [with open(self.config_file, 'w') as f: json.dump(config, f, indent=2)]. *)
Definition dump_to_file (config : json) : io world unit := λ w,
  match write_error w with
  | Some e => (Raise e, w)
  | None => (Ret tt, World (Some (Document config)) None (stdout w)
                           (dialogs w) (self_config w))
  end.

Definition set_self_config (config : json) : io world unit :=
  modify (λ w, World (disk w) (write_error w) (stdout w) (dialogs w)
                     (Some config)).

(** [ConfigManager.save]. *)
Definition save (config : json) : io world bool :=
  '(is_valid, error_msg) ← lift (validate config);
  if negb is_valid then
    print ("Cannot save invalid config: " +:+ error_msg);; mret false
  else
    try_except
      (dump_to_file config;; set_self_config config;; mret true)
      (λ _, true)
      (λ e, print ("Failed to save settings: " +:+ exn_str e);; mret false).

(** [sub in s] for two strings. *)
Fixpoint is_substring (sub s : string) : bool :=
  String.prefix sub s
  || match s with
     | EmptyString => false
     | String _ s' => is_substring sub s'
     end.

(** [ConfigManager.migrate].  [load] only passes a validated dict; the
    other cases follow what [in] and [.get] do on the other types. *)
Definition migrate (old_config : json) : io world json :=
  match old_config with
  | JDict old =>
      if contains old "button_mappings" then mret old_config
      else
        print "Migrating config from v1 to v2 format...";;
        let new_config :=
          JDict (<["keep" := default (JStr "") (old !! "keep")]>
                 (<["src" := default (JStr "") (old !! "src")]>
                  DEFAULT_CONFIG)) in
        save new_config;;
        mret new_config
  | JStr s =>
      if is_substring "button_mappings" s then mret old_config
      else
        print "Migrating config from v1 to v2 format...";;
        raise (AttributeError "'str' object has no attribute 'get'")
  | JList l =>
      if existsb (λ v, match v with
                       | JStr s => String.eqb s "button_mappings"
                       | _ => false
                       end) l
      then mret old_config
      else
        print "Migrating config from v1 to v2 format...";;
        raise (AttributeError "'list' object has no attribute 'get'")
  | _ => raise (TypeError "argument is not iterable")
  end.

(** The exceptions [load] handles:
    [except (FileNotFoundError, json.JSONDecodeError, ValueError)]. *)
Definition load_catches (e : exn) : bool :=
  match e with
  | FileNotFoundError _ | JSONDecodeError _ | ValueError _ => true
  | _ => false
  end.

(** [with open(self.config_file, 'r') as f: data = json.load(f)]. *)
Definition read_file (f : stored) : io world json :=
  match f with
  | Unreadable e => raise e
  | Garbled msg => raise (JSONDecodeError msg)
  | Document data => mret data
  end.

(** [ConfigManager.load]. *)
Definition load : io world json := λ w,
  match disk w with
  | Some f =>
      try_except
        (data ← read_file f;
         '(is_valid, error_msg) ← lift (W:=world) (validate data);
         if (is_valid : bool) then migrate data
         else raise (ValueError ("Invalid config schema: " +:+ error_msg)))
        load_catches
        (λ e,
           print ("Config error: " +:+ exn_str e +:+ ". Using defaults.");;
           showwarning "Settings Error"
                       "Could not load settings. Using defaults.";;
           mret (JDict DEFAULT_CONFIG))
        w
  | None => (Ret (JDict DEFAULT_CONFIG), w)
  end.

(** *** The dotted-path accessors *)

(** [key_path.split('.')]: never empty, so it is given as its first
    element and the rest. *)
Fixpoint split_dot (s : string) : string * list string :=
  match s with
  | EmptyString => ("", [])
  | String c s' =>
      let '(h, t) := split_dot s' in
      if Ascii.eqb c "." then ("", h :: t) else (String c h, t)
  end.

(** The name of the type of a value, as it shows in error messages. *)
Definition type_name (v : json) : string :=
  match v with
  | JNull => "NoneType"
  | JBool _ => "bool"
  | JInt _ => "int"
  | JFloat _ => "float"
  | JStr _ => "str"
  | JList _ => "list"
  | JDict _ => "dict"
  end.

(** [value[key]] for a string [key]. *)
Definition subscript (value : json) (key : string) : result json :=
  match value with
  | JDict d => getitem d key
  | JStr _ => Raise (TypeError "string indices must be integers, not 'str'")
  | JList _ =>
      Raise (TypeError "list indices must be integers or slices, not str")
  | _ => Raise (TypeError ("'" +:+ type_name value
                           +:+ "' object is not subscriptable"))
  end.

(** The loop [for key in keys: value = value[key]]. *)
Fixpoint get_in (keys : list string) (value : json) : result json :=
  match keys with
  | [] => Ret value
  | key :: rest => v ← subscript value key; get_in rest v
  end.

Definition get_catches (e : exn) : bool :=
  match e with
  | KeyError _ | TypeError _ => true
  | _ => false
  end.

Definition no_config : exn :=
  AttributeError "'ConfigManager' object has no attribute 'config'".

(** [ConfigManager.get]. *)
Definition get (key_path : string) (default : json) : io world json := λ w,
  let '(key, rest) := split_dot key_path in
  match self_config w with
  | None => (Raise no_config, w)
  | Some value =>
      try_except (lift (get_in (key :: rest) value)) get_catches
                 (λ _, mret default) w
  end.

(** [config[key] = value] on something that is not a dict. *)
Definition setitem_error (config : json) : exn :=
  match config with
  | JList _ => TypeError "list indices must be integers or slices, not str"
  | _ => TypeError ("'" +:+ type_name config
                    +:+ "' object does not support item assignment")
  end.

(** [key in config]: the membership test, by the type of [config]. *)
Definition key_in (key : string) (config : json) : result bool :=
  match config with
  | JDict d => Ret (contains d key)
  | JStr s => Ret (is_substring key s)
  | JList l =>
      Ret (existsb (λ v, match v with
                         | JStr s => String.eqb s key
                         | _ => false
                         end) l)
  | _ => Raise (TypeError ("argument of type '" +:+ type_name config
                           +:+ "' is not iterable"))
  end.

(** [config[key] = value]. *)
Definition setitem (config : json) (key : string) (value : json)
  : result json :=
  match config with
  | JDict d => Ret (JDict (<[key := value]> d))
  | _ => Raise (setitem_error config)
  end.

(** The body of [ConfigManager.set] on the object [config], for the keys
    [key :: rest]: the loop over all keys but the last, then the
    assignment.  The dicts are updated in place, so the update of a nested
    dict shows in the one that holds it; the result is [config]
    afterwards. *)
Fixpoint set_in (key : string) (rest : list string) (value : json)
    (config : json) : result json :=
  match rest with
  | [] => setitem config key value
  | key' :: rest' =>
      present ← key_in key config;
      config1 ← (if negb present then setitem config key (JDict ∅)
                 else Ret config);
      child ← subscript config1 key;
      child' ← set_in key' rest' value child;
      setitem config1 key child'
  end.

(** [ConfigManager.set].  When the body raises, nothing has been changed
    yet: a key is only added to a dict that lacks it, and what lies below
    the added key is then a fresh dict, on which the rest cannot fail. *)
Definition set (key_path : string) (value : json) : io world unit := λ w,
  let '(key, rest) := split_dot key_path in
  match self_config w with
  | None => (Raise no_config, w)
  | Some config =>
      match set_in key rest value config with
      | Ret config' => set_self_config config' w
      | Raise e => (Raise e, w)
      end
  end.

(** [ConfigManager.__init__]. *)
Definition init : io world unit :=
  config ← load;
  set_self_config config.

(** *** Vocabulary for the statements about the configuration *)

(** One of the six action names. *)
Definition valid_action (a : json) : bool :=
  match a with
  | JStr s => bool_decide (s ∈ VALID_ACTIONS)
  | _ => false
  end.

Definition invalid_action_reason (a : json) (key : string) : string :=
  "Invalid action '" +:+ py_str a +:+ "' for " +:+ key.

(** The reason expected for a v2 document with the mappings [bm], [wm] and
    the options [opts]: the first mapping value outside the action set, in
    the order left_click, right_click, wheel_up, wheel_down, then a
    [recursive_loading] that is not a boolean; [None] when all are fine. *)
Definition first_reason (bm wm opts : gmap string json) : option string :=
  match bm !! "left_click", bm !! "right_click",
        wm !! "wheel_up", wm !! "wheel_down", opts !! "recursive_loading" with
  | Some a1, Some a2, Some a3, Some a4, Some rl =>
      if negb (valid_action a1) then Some (invalid_action_reason a1 "left_click")
      else if negb (valid_action a2) then Some (invalid_action_reason a2 "right_click")
      else if negb (valid_action a3) then Some (invalid_action_reason a3 "wheel_up")
      else if negb (valid_action a4) then Some (invalid_action_reason a4 "wheel_down")
      else if negb (is_bool rl) then Some "recursive_loading must be a boolean"
      else None
  | _, _, _, _, _ => None
  end.

(** The v2 document expected from migrating [{src: S, keep: K}]. *)
Definition migrated (S K : json) : gmap string json :=
  <["keep" := K]> (<["src" := S]> DEFAULT_CONFIG).

(** The world after [load] has fallen back to the defaults on [e]. *)
Definition load_fallback (e : exn) (w : world) : world :=
  World (disk w) (write_error w)
        (stdout w ++ ["Config error: " +:+ exn_str e +:+ ". Using defaults."])
        (dialogs w ++ [("Settings Error", "Could not load settings. Using defaults.")])
        (self_config w).

(** A settings file edited by hand, in v2 shape, whose left-click action
    is the JSON array [["keep"]] instead of a string. *)
Definition list_valued_doc : json :=
  JDict (<["button_mappings" :=
             JDict (<["left_click" := JList [JStr "keep"]]>
                    (<["right_click" := JStr "reject"]> ∅))]>
         DEFAULT_CONFIG).

Definition list_valued_world : world :=
  World (Some (Document list_valued_doc)) None [] [] None.

(** A v1 settings file. *)
Definition v1_world : world :=
  World (Some (Document (JDict (<["src" := JStr "/photos/in"]>
                                (<["keep" := JStr "/photos/good"]> ∅)))))
        None [] [] None.

(** A manager that has loaded the defaults, no settings file being
    there. *)
Definition loaded_world : world :=
  World None None [] [] (Some (JDict DEFAULT_CONFIG)).

End Config.

(** ** Paths (posixpath) *)

(** [s.startswith(prefix)] and [s.endswith(suffix)]. *)
Definition startswith (s prefix : string) : bool := String.prefix prefix s.

Fixpoint endswith (s suffix : string) : bool :=
  String.eqb s suffix
  || match s with
     | EmptyString => false
     | String _ s' => endswith s' suffix
     end.

(** [os.path.join(a, b)]. *)
Definition path_join (a b : string) : string :=
  if startswith b "/" then b
  else if String.eqb a "" || endswith a "/" then a +:+ b
  else a +:+ "/" +:+ b.

(** ["/".join(parts)]. *)
Fixpoint join_slash (parts : list string) : string :=
  match parts with
  | [] => ""
  | [p] => p
  | p :: rest => p +:+ "/" +:+ join_slash rest
  end.

(** [s.rfind(c)]: the index of the last occurrence of [c], if any. *)
Fixpoint rfind (c : ascii) (s : string) : option nat :=
  match s with
  | EmptyString => None
  | String x s' =>
      match rfind c s' with
      | Some i => Some (S i)
      | None => if Ascii.eqb x c then Some 0 else None
      end
  end.

(** The part of [s] from index [i] on: [s[i:]]. *)
Definition string_from (i : nat) (s : string) : string :=
  substring i (String.length s - i) s.

(** Whether some character of [s] differs from [c]. *)
Fixpoint has_other_than (c : ascii) (s : string) : bool :=
  match s with
  | EmptyString => false
  | String x s' => negb (Ascii.eqb x c) || has_other_than c s'
  end.

(** [os.path.splitext(p)]: the extension starts at the last dot of the
    last path component, unless only dots precede it there. *)
Definition splitext (p : string) : string * string :=
  let filenameIndex :=
    match rfind "/" p with Some i => S i | None => 0 end in
  match rfind "." p with
  | Some dotIndex =>
      if (filenameIndex <? dotIndex)%nat
         && has_other_than "." (substring filenameIndex (dotIndex - filenameIndex) p)
      then (substring 0 dotIndex p, string_from dotIndex p)
      else (p, "")
  | None => (p, "")
  end.

(** [os.path.basename(p)]. *)
Definition basename (p : string) : string :=
  match rfind "/" p with
  | Some i => string_from (S i) p
  | None => p
  end.

(** [s.lower()], on the letters A-Z. The extensions tested below are made
    of ASCII characters other than [i] and [k], the only ones that a
    non-ASCII character can lower to, so nothing else matters to the test. *)
Definition lower_char (c : ascii) : ascii :=
  let n := nat_of_ascii c in
  if (65 <=? n)%nat && (n <=? 90)%nat then ascii_of_nat (n + 32) else c.

Fixpoint lower (s : string) : string :=
  match s with
  | EmptyString => EmptyString
  | String c s' => String (lower_char c) (lower s')
  end.

(** A name that a directory entry can have: not empty, no slash, and
    neither of the two reserved names. *)
Fixpoint has_slash (s : string) : bool :=
  match s with
  | EmptyString => false
  | String c s' => Ascii.eqb c "/" || has_slash s'
  end.

Definition valid_name (s : string) : bool :=
  negb (String.eqb s "") && negb (has_slash s)
  && negb (String.eqb s ".") && negb (String.eqb s "..").

(** The directory part that [path_join a] puts before a relative name. *)
Definition path_pre (a : string) : string :=
  if String.eqb a "" || endswith a "/" then a else a +:+ "/".

Module Scanner.

(** *** The directory tree *)

(** What a path names.  A directory lists its entries in the order in
    which the operating system enumerates them. *)
#[warnings="-register-all"]
Inductive node : Type :=
  | File                                   (* a regular file *)
  | Other                                  (* a fifo, socket or device *)
  | Symlink (target : option node)         (* [None]: a broken link *)
  | Dir (listable : bool) (entries : list (string * node)).

(** Follow symbolic links. *)
Fixpoint resolve (n : node) : option node :=
  match n with
  | Symlink (Some t) => resolve t
  | Symlink None => None
  | _ => Some n
  end.

(** [os.path.isfile], [DirEntry.is_dir] (both follow links) and
    [os.path.islink], on the node a path names. *)
Definition isfile (n : node) : bool :=
  match resolve n with Some File => true | _ => false end.
Definition is_dir (n : node) : bool :=
  match resolve n with Some (Dir _ _) => true | _ => false end.
Definition islink (n : node) : bool :=
  match n with Symlink _ => true | _ => false end.

(** The directory a root path leads to: its listing, or the error that
    [os.listdir] and [os.scandir] raise.  [root] is what the file system
    holds at [root_dir] ([None]: nothing); no file system resolves the
    empty path. *)
Definition listing (root_dir : string) (root : option node)
  : result (list (string * node)) :=
  if String.eqb root_dir "" then
    Raise (FileNotFoundError "[Errno 2] No such file or directory: ''")
  else
    match root ≫= resolve with
    | None =>
        Raise (FileNotFoundError
                 ("[Errno 2] No such file or directory: '" +:+ root_dir +:+ "'"))
    | Some (Dir true entries) => Ret entries
    | Some (Dir false _) =>
        Raise (PermissionError
                 ("[Errno 13] Permission denied: '" +:+ root_dir +:+ "'"))
    | Some _ =>
        Raise (NotADirectoryError
                 ("[Errno 20] Not a directory: '" +:+ root_dir +:+ "'"))
    end.

(** *** RecursiveScanner *)

Record ImageRecord : Type := Image {
  filename : string;
  relative_path : string;
  full_path : string
}.

Definition VALID_EXTENSIONS : list string :=
  [".png"; ".jpg"; ".jpeg"; ".bmp"; ".webp"].

(** [RecursiveScanner._is_valid_image]. *)
Definition _is_valid_image (filename : string) : bool :=
  existsb (endswith (lower filename)) VALID_EXTENSIONS.

(** The scanner's world is the console. *)
Definition print (line : string) : io (list string) unit :=
  modify (λ out, out ++ [line]).

Definition flat_catches (e : exn) : bool :=
  match e with
  | FileNotFoundError _ | PermissionError _ => true
  | _ => false
  end.

(** The body of the loop of [_scan_flat], for one name that [os.listdir]
    returned: the records it appends. *)
Definition flat_record (root_dir : string) (entry : string * node)
  : list ImageRecord :=
  let '(filename, n) := entry in
  let full_path := path_join root_dir filename in
  if isfile n && _is_valid_image filename
  then [Image filename "" full_path]
  else [].

(** [RecursiveScanner._scan_flat].  Only [os.listdir] can raise inside the
    [try], and it does so before anything is appended to [results]. *)
Definition _scan_flat (root_dir : string) (root : option node)
  : io (list string) (list ImageRecord) :=
  try_except
    (entries ← lift (listing root_dir root);
     mret (flat_map (flat_record root_dir) entries))
    flat_catches
    (λ e,
       print ("Error scanning directory " +:+ root_dir +:+ ": " +:+ exn_str e);;
       mret []).

(** [os.path.relpath(dirpath, root_dir)] for a [dirpath] that [os.walk]
    reached from [root_dir] by descending through the directories
    [rel]. *)
Definition relpath (rel : list string) : string :=
  match rel with
  | [] => "."
  | _ => join_slash rel
  end.

(** The records appended for one directory visited by [os.walk]:
    [filenames] are the entries that are not directories. *)
Definition records_here (dirpath : string) (rel : list string)
    (entries : list (string * node)) : list ImageRecord :=
  flat_map
    (λ '(filename, n),
       if negb (is_dir n) && _is_valid_image filename
       then
         let full_path := path_join dirpath filename in
         let rel_path := relpath rel in
         let rel_path := if String.eqb rel_path "." then "" else rel_path in
         [Image filename rel_path full_path]
       else [])
    entries.

(** The loop over [os.walk(root_dir)], top-down: the files of a directory,
    then its subdirectories in enumeration order.  A directory that cannot
    be listed yields nothing ([os.walk] drops the error: no [onerror] is
    given); a symbolic link to a directory is in [dirnames] but is pruned
    from it (and [os.walk] would not follow it either). *)
Fixpoint walk (dirpath : string) (rel : list string) (n : node)
  : list ImageRecord :=
  match n with
  | Dir true entries =>
      records_here dirpath rel entries
      ++ (fix descend (es : list (string * node)) : list ImageRecord :=
            match es with
            | [] => []
            | (d, child) :: es' =>
                (if is_dir child && negb (islink child)
                 then walk (path_join dirpath d) (rel ++ [d]) child
                 else [])
                ++ descend es'
            end) entries
  | _ => []
  end.

(** [RecursiveScanner._scan_recursive].  The [try] inside the loop guards
    code that cannot raise, so its [except PermissionError] branch, the
    only place where this function prints, is never taken. *)
Definition _scan_recursive (root_dir : string) (root : option node)
  : io (list string) (list ImageRecord) :=
  mret (if String.eqb root_dir "" then []
        else match root ≫= resolve with
             | Some n => walk root_dir [] n
             | None => []
             end).

(** [RecursiveScanner.scan]. *)
Definition scan (root_dir : string) (root : option node) (recursive : bool)
  : io (list string) (list ImageRecord) :=
  if recursive then _scan_recursive root_dir root
  else _scan_flat root_dir root.

(** *** Vocabulary for the statements about the scanner *)

(** [walk] on the entries of a directory: its second half. *)
Fixpoint walk_entries (dirpath : string) (rel : list string)
    (es : list (string * node)) : list ImageRecord :=
  match es with
  | [] => []
  | (d, child) :: es' =>
      (if is_dir child && negb (islink child)
       then walk (path_join dirpath d) (rel ++ [d]) child
       else [])
      ++ walk_entries dirpath rel es'
  end.

(** A well-formed tree: in every directory the names are valid and
    pairwise different. *)
Fixpoint wf_node (n : node) : bool :=
  match n with
  | Dir _ entries =>
      bool_decide (NoDup entries.*1)
      && forallb (λ e, valid_name e.1) entries
      && (fix all (es : list (string * node)) : bool :=
            match es with
            | [] => true
            | (_, child) :: es' => wf_node child && all es'
            end) entries
  | _ => true
  end.

Definition wf_root (root : option node) : bool :=
  match root ≫= resolve with
  | Some n => wf_node n
  | None => true
  end.

(** The relative path recorded for a directory reached through [comps]. *)
Definition rel_path_of (comps : list string) : string :=
  let p := relpath comps in if String.eqb p "." then "" else p.

(** [in_dir n comps name c]: descending from the directory [n] through the
    directories named [comps] leads to a directory with an entry [name],
    which is [c].  The entry lies directly in [n] when [comps] is empty. *)
Inductive in_dir : node → list string → string → node → Prop :=
  | in_dir_here listable es name c :
      (name, c) ∈ es → in_dir (Dir listable es) [] name c
  | in_dir_sub listable es d child comps name c :
      (d, child) ∈ es → in_dir child comps name c →
      in_dir (Dir listable es) (d :: comps) name c.

(** The same tree, enumerated in another order: every directory lists the
    same entries, in any order. *)
Inductive same_tree : node → node → Prop :=
  | same_file : same_tree File File
  | same_other : same_tree Other Other
  | same_link t : same_tree (Symlink t) (Symlink t)
  | same_dir listable es1 es2 :
      same_entries es1 es2 → same_tree (Dir listable es1) (Dir listable es2)
with same_entries : list (string * node) → list (string * node) → Prop :=
  | same_nil : same_entries [] []
  | same_cons name c1 c2 es1 es2a es2b :
      same_tree c1 c2 → same_entries es1 (es2a ++ es2b) →
      same_entries ((name, c1) :: es1) (es2a ++ (name, c2) :: es2b).

Definition same_root (r1 r2 : option node) : Prop :=
  match r1 ≫= resolve, r2 ≫= resolve with
  | Some n1, Some n2 => same_tree n1 n2
  | None, None => True
  | _, _ => False
  end.

(** Two enumerations of the tree of the specification's example, with a
    link to a directory and a directory that cannot be listed added. *)
Definition sample_tree : node :=
  Dir true [("b.PNG", File);
            ("sub", Dir true [("b.jpg", File); ("ignore.txt", File)]);
            ("a.png", File);
            ("lnk", Symlink (Some (Dir true [("q.png", File)])));
            ("locked", Dir false [("h.png", File)])].

Definition sample_tree_reordered : node :=
  Dir true [("locked", Dir false [("h.png", File)]);
            ("a.png", File);
            ("sub", Dir true [("ignore.txt", File); ("b.jpg", File)]);
            ("lnk", Symlink (Some (Dir true [("q.png", File)])));
            ("b.PNG", File)].

(** The root is missing (nothing there, or a broken link) or is a
    directory that cannot be listed. *)
Definition missing_or_unreadable (root : option node) : bool :=
  match root ≫= resolve with
  | None => true
  | Some (Dir false _) => true
  | Some _ => false
  end.

(** [walked n comps es]: [os.walk] from the directory [n] visits the
    directory reached through [comps], whose entries are [es]: every
    directory on the way, [n] included, can be listed and none is entered
    through a symbolic link. *)
Inductive walked : node → list string → list (string * node) → Prop :=
  | walked_top es : walked (Dir true es) [] es
  | walked_sub es d listable es' comps es'' :
      (d, Dir listable es') ∈ es →
      walked (Dir listable es') comps es'' →
      walked (Dir true es) (d :: comps) es''.

End Scanner.

(** ** Python's stable sort *)

(** [l.sort(key=key)] for string keys: a stable sort, written as the
    insertion sort that keeps equal keys in their original order. *)
Section Sort.
Context {A : Type} (key : A → string).

Fixpoint insert_by (x : A) (l : list A) : list A :=
  match l with
  | [] => [x]
  | y :: l' =>
      if String.leb (key x) (key y) then x :: y :: l'
      else y :: insert_by x l'
  end.

Definition sort_by (l : list A) : list A := foldr insert_by [] l.

(** Ascending order of the keys. *)
Definition key_le (a b : A) : Prop := String.le (key a) (key b).
End Sort.

Module Session.
Import Scanner.

(** *** The file system, by path, and the window *)

Record file : Type := Content {
  data : string;
  decodes : bool          (* whether [Image.open] and the resize succeed *)
}.

Record FS : Type := Fs {
  files : gmap string file;        (* the regular files *)
  dirs : gset string;              (* the directories *)
  mkdir_errors : gmap string string; (* paths where creating a directory is
                                        refused, with the message *)
  move_errors : gmap string string   (* destinations to which a move is
                                        refused, with the message *)
}.

Record UI : Type := Ui {
  stdout : list string;                     (* lines printed *)
  dialogs : list (string * string * string);(* message boxes: kind, title, text *)
  status : string;                          (* text of [lbl_status] *)
  shown : option string;                    (* path of the image on display *)
  pending_show : nat;      (* [show_current_image] calls queued by [root.after] *)
  btn_load_disabled : bool;
  finished : bool                           (* [finish_culling] has run *)
}.

(** [RapidCullerApp], with the world it acts on. *)
Record app : Type := App {
  fs : FS;
  ui : UI;
  src_dir : string;
  keep_dir : string;
  reject_dir : string;
  image_files : list ImageRecord;
  current_index : nat;
  recursive_loading : bool  (* [config_manager.get("options.recursive_loading", False)] *)
}.

Definition set_fs (f : FS → FS) (s : app) : app :=
  App (f (fs s)) (ui s) (src_dir s) (keep_dir s) (reject_dir s)
      (image_files s) (current_index s) (recursive_loading s).
Definition set_ui (f : UI → UI) (s : app) : app :=
  App (fs s) (f (ui s)) (src_dir s) (keep_dir s) (reject_dir s)
      (image_files s) (current_index s) (recursive_loading s).
Definition set_reject_dir (d : string) (s : app) : app :=
  App (fs s) (ui s) (src_dir s) (keep_dir s) d
      (image_files s) (current_index s) (recursive_loading s).
Definition set_image_files (l : list ImageRecord) (s : app) : app :=
  App (fs s) (ui s) (src_dir s) (keep_dir s) (reject_dir s)
      l (current_index s) (recursive_loading s).
Definition set_current_index (i : nat) (s : app) : app :=
  App (fs s) (ui s) (src_dir s) (keep_dir s) (reject_dir s)
      (image_files s) i (recursive_loading s).

Definition print (line : string) : io app unit :=
  modify (set_ui (λ u, Ui (stdout u ++ [line]) (dialogs u) (status u) (shown u)
                          (pending_show u) (btn_load_disabled u) (finished u))).
Definition messagebox (kind title text : string) : io app unit :=
  modify (set_ui (λ u, Ui (stdout u) (dialogs u ++ [(kind, title, text)])
                          (status u) (shown u) (pending_show u)
                          (btn_load_disabled u) (finished u))).
Definition set_status (text : string) : io app unit :=
  modify (set_ui (λ u, Ui (stdout u) (dialogs u) text (shown u)
                          (pending_show u) (btn_load_disabled u) (finished u))).
Definition set_shown (img : option string) : io app unit :=
  modify (set_ui (λ u, Ui (stdout u) (dialogs u) (status u) img
                          (pending_show u) (btn_load_disabled u) (finished u))).
(** [self.root.after(10, self.show_current_image)]. *)
Definition schedule_show : io app unit :=
  modify (set_ui (λ u, Ui (stdout u) (dialogs u) (status u) (shown u)
                          (S (pending_show u)) (btn_load_disabled u) (finished u))).
Definition disable_btn_load : io app unit :=
  modify (set_ui (λ u, Ui (stdout u) (dialogs u) (status u) (shown u)
                          (pending_show u) true (finished u))).
Definition root_quit : io app unit :=
  modify (set_ui (λ u, Ui (stdout u) (dialogs u) (status u) (shown u)
                          (pending_show u) (btn_load_disabled u) true)).

(** [os.path.exists(p)]. *)
Definition path_exists (f : FS) (p : string) : bool :=
  bool_decide (p ∈ dirs f) || bool_decide (is_Some (files f !! p)).

(** The directories above [s]: its prefixes that end before a slash. *)
Fixpoint ancestors_from (acc s : string) : list string :=
  match s with
  | EmptyString => []
  | String c s' =>
      (if Ascii.eqb c "/" && negb (String.eqb acc "") then [acc] else [])
      ++ ancestors_from (acc +:+ String c "") s'
  end.
Definition ancestors (p : string) : list string := ancestors_from "" p.

(** [os.makedirs(p, exist_ok=exist_ok)]: creates [p] and the directories
    above it that are missing.  A refusal by the operating system is a
    [PermissionError] here and in [rename]; the code handles every
    [OSError] alike. *)
Definition makedirs (p : string) (exist_ok : bool) : io app unit := λ s,
  let f := fs s in
  if bool_decide (p ∈ dirs f) then
    if exist_ok then (Ret tt, s)
    else (Raise (FileExistsError ("[Errno 17] File exists: '" +:+ p +:+ "'")), s)
  else if bool_decide (is_Some (files f !! p)) then
    (Raise (FileExistsError ("[Errno 17] File exists: '" +:+ p +:+ "'")), s)
  else if existsb (λ a, bool_decide (is_Some (files f !! a))) (ancestors p) then
    (Raise (NotADirectoryError ("[Errno 20] Not a directory: '" +:+ p +:+ "'")), s)
  else
    match mkdir_errors f !! p with
    | Some msg => (Raise (PermissionError msg), s)
    | None =>
        (Ret tt,
         set_fs (λ f, Fs (files f) (dirs f ∪ list_to_set (ancestors p) ∪ {[p]})
                         (mkdir_errors f) (move_errors f)) s)
    end.

(** [os.rename(src, dst)] for a regular file [src]; replaces a file that
    is at [dst]. *)
Definition rename (src dst : string) : io app unit := λ s,
  let f := fs s in
  match files f !! src with
  | None =>
      (Raise (FileNotFoundError
                ("[Errno 2] No such file or directory: '" +:+ src +:+ "'")), s)
  | Some content =>
      match move_errors f !! dst with
      | Some msg => (Raise (PermissionError msg), s)
      | None =>
          (Ret tt,
           set_fs (λ f, Fs (<[dst := content]> (delete src (files f))) (dirs f)
                           (mkdir_errors f) (move_errors f)) s)
      end
  end.

(** [shutil.move(src, dst)] for a regular file [src]: into [dst] when it
    is a directory, onto [dst] otherwise.  (Its fallback to copy-and-delete
    when the rename fails is covered by [move_errors].) *)
Definition shutil_move (src dst : string) : io app unit := λ s,
  if bool_decide (dst ∈ dirs (fs s)) then
    let real_dst := path_join dst (basename src) in
    if path_exists (fs s) real_dst then
      (Raise (ShutilError ("Destination path '" +:+ real_dst +:+ "' already exists")), s)
    else rename src real_dst s
  else rename src dst s.

(** *** RapidCullerApp: the session *)

Definition nl : string := String (ascii_of_nat 10) "".

(** The candidate name tried when [counter] has that value:
    [os.path.join(final_dest, f"{base}_{counter}{ext}")]. *)
Definition candidate (final_dest base ext : string) (counter : nat) : string :=
  path_join final_dest (base +:+ "_" +:+ pretty counter +:+ ext).

(** The loop [while os.path.exists(dst_path): dst_path = ...; counter += 1],
    run for at most [fuel] tests. *)
Fixpoint first_free (fuel : nat) (f : FS) (final_dest base ext : string)
    (dst_path : string) (counter : nat) : string :=
  match fuel with
  | 0 => dst_path
  | S fuel' =>
      if path_exists f dst_path
      then first_free fuel' f final_dest base ext
                      (candidate final_dest base ext counter) (S counter)
      else dst_path
  end.

(** The loop cannot test more paths than exist, plus two: the candidates
    are pairwise different, so one of the first [n + 1] is free when [n]
    paths exist ([first_free_is_free] below shows that this bound is never
    what stops the loop). *)
Definition loop_bound (f : FS) : nat :=
  size (dirs f) + size (dom (files f)) + 2.

(** The body of the [try] in [move_and_advance]. *)
Definition move_file (destination : string) (image_info : ImageRecord)
  : io app unit :=
  let filename := filename image_info in
  let relative_path := relative_path image_info in
  let src_path := full_path image_info in
  final_dest ←
    (if negb (String.eqb relative_path "") then
       let dest_subdir := path_join destination relative_path in
       makedirs dest_subdir true;;
       mret dest_subdir
     else mret destination);
  let dst_path := path_join final_dest filename in
  let '(base, ext) := splitext filename in
  f ← gets fs;
  let dst_path := first_free (loop_bound f) f final_dest base ext dst_path 1 in
  shutil_move src_path dst_path;;
  let display_path :=
    if negb (String.eqb relative_path "")
    then path_join relative_path filename else filename in
  print ("Moved " +:+ display_path +:+ " to " +:+ destination).

(** [RapidCullerApp.move_and_advance]. *)
Definition move_and_advance (destination : string) : io app unit := λ s,
  match image_files s !! current_index s with
  | Some image_info =>
      (moved ←
         try_except
           (move_file destination image_info;; mret true)
           is_OSError
           (λ e,
              messagebox "showerror" "File Error"
                         ("Could not move file:" +:+ nl +:+ exn_str e);;
              mret false);
       if (moved : bool) then
         modify (λ s, set_current_index (current_index s + 1) s);;
         schedule_show
       else mret tt) s
  | None => (Ret tt, s)
  end.

(** [RapidCullerApp.action_keep] and [action_reject]. *)
Definition action_keep : io app unit := λ s,
  match image_files s with
  | [] => (Ret tt, s)
  | _ => move_and_advance (keep_dir s) s
  end.

Definition action_reject : io app unit := λ s,
  match image_files s with
  | [] => (Ret tt, s)
  | _ => move_and_advance (reject_dir s) s
  end.

(** [RapidCullerApp.finish_culling]. *)
Definition finish_culling : io app unit :=
  set_shown None;;
  set_status "Finished.";;
  messagebox "showinfo" "Done" "All images have been sorted!";;
  root_quit.

(** [Image.open(full_path)] and what follows it in the [try]. *)
Definition load_image (full_path : string) : io app unit := λ s,
  match files (fs s) !! full_path with
  | None =>
      (Raise (FileNotFoundError
                ("[Errno 2] No such file or directory: '" +:+ full_path +:+ "'")), s)
  | Some c =>
      if decodes c then set_shown (Some full_path) s
      else (Raise (ValueError ("cannot identify image file '" +:+ full_path +:+ "'")), s)
  end.

(** [RapidCullerApp.show_current_image]. *)
Definition show_current_image : io app unit := λ s,
  match image_files s !! current_index s with
  | Some image_info =>
      let filename := filename image_info in
      let relative_path := relative_path image_info in
      let full_path := full_path image_info in
      let display_path :=
        if negb (String.eqb relative_path "")
        then path_join relative_path filename else filename in
      (set_status ("Image " +:+ pretty (current_index s + 1) +:+ " of "
                   +:+ pretty (length (image_files s)) +:+ ": " +:+ display_path);;
       try_except
         (load_image full_path)
         (λ _, true)
         (λ e,
            print ("Error loading image " +:+ display_path +:+ ": " +:+ exn_str e);;
            action_reject)) s
  | None => finish_culling s
  end.

(** [RapidCullerApp.action_next], [action_previous] and [action_skip]. *)
Definition action_next : io app unit := λ s,
  if negb (bool_decide (image_files s = []))
     && bool_decide (current_index s + 1 < length (image_files s))
  then (modify (λ s, set_current_index (current_index s + 1) s);;
        show_current_image) s
  else (Ret tt, s).

Definition action_previous : io app unit := λ s,
  if negb (bool_decide (image_files s = []))
     && bool_decide (0 < current_index s)
  then (modify (λ s, set_current_index (current_index s - 1) s);;
        show_current_image) s
  else (Ret tt, s).

Definition action_skip : io app unit := action_next.

(** Run the scanner on the window's console. *)
Definition run_scan (root_dir : string) (tree : option node) (recursive : bool)
  : io app (list ImageRecord) := λ s,
  let '(r, out) := scan root_dir tree recursive (stdout (ui s)) in
  (r, set_ui (λ u, Ui out (dialogs u) (status u) (shown u) (pending_show u)
                      (btn_load_disabled u) (finished u)) s).

Definition is_FileNotFoundError (e : exn) : bool :=
  match e with FileNotFoundError _ => true | _ => false end.

(** [RapidCullerApp.load_images_start], in its three steps.  [tree] is
    what the file system holds at [src_dir] when the scan runs. *)

(** Step 1, "Setup Reject Folder". *)
Definition setup_reject_folder : io app unit :=
  src ← gets src_dir;
  modify (set_reject_dir (path_join src "_REJECTS"));;
  f ← gets fs;
  if negb (path_exists f (path_join src "_REJECTS"))
  then makedirs (path_join src "_REJECTS") false
  else mret tt.

(** Step 2, "Scan for images", and the sort by [full_path] that follows
    it.  [false] stands for the [return] of the [except] branch. *)
Definition scan_and_sort (tree : option node) : io app bool :=
  src ← gets src_dir;
  recursive ← gets recursive_loading;
  scanned ←
    try_except
      (l ← run_scan src tree recursive;
       modify (set_image_files l);;
       mret true)
      is_FileNotFoundError
      (λ _,
         messagebox "showerror" "Error" "Source folder not found. Did you move it?";;
         mret false);
  if (scanned : bool) then
    modify (λ s, set_image_files (sort_by full_path (image_files s)) s);;
    mret true
  else mret false.

Definition load_images_start (tree : option node) : io app unit :=
  setup_reject_folder;;
  scanned ← scan_and_sort tree;
  if (scanned : bool) then
    l ← gets image_files;
    match l with
    | [] =>
        messagebox "showwarning" "No Images"
                   "No image files found in source folder."
    | _ =>
        modify (set_current_index 0);;
        show_current_image;;
        disable_btn_load
    end
  else mret tt.

(** The event loop runs a call queued by [root.after]. *)
Definition fire_after : io app unit := λ s,
  match pending_show (ui s) with
  | 0 => (Ret tt, s)
  | S n =>
      (modify (set_ui (λ u, Ui (stdout u) (dialogs u) (status u) (shown u) n
                               (btn_load_disabled u) (finished u)));;
       show_current_image) s
  end.

(** *** Vocabulary for the statements about the session *)

(** The state after a scan that printed up to [out] and left [l] in
    [image_files]. *)
Definition after_scan (out : list string) (l : list ImageRecord) (s : app) : app :=
  set_image_files l
    (set_ui (λ u, Ui out (dialogs u) (status u) (shown u) (pending_show u)
                     (btn_load_disabled u) (finished u)) s).

(** The directory a record is moved into. *)
Definition final_dest_of (destination : string) (r : ImageRecord) : string :=
  if String.eqb (relative_path r) "" then destination
  else path_join destination (relative_path r).

(** The line printed after a move. *)
Definition moved_line (destination : string) (r : ImageRecord) : string :=
  "Moved "
  +:+ (if negb (String.eqb (relative_path r) "")
       then path_join (relative_path r) (filename r) else filename r)
  +:+ " to " +:+ destination.

(** The image at index [i] is there and can be displayed. *)
Definition displayable (s : app) (i : nat) : bool :=
  match image_files s !! i with
  | Some r =>
      match files (fs s) !! full_path r with
      | Some c => decodes c
      | None => false
      end
  | None => false
  end.

(** The index that [action_next] and [action_previous] move to. *)
Definition next_index (s : app) : nat :=
  if bool_decide (current_index s + 1 < length (image_files s))
  then current_index s + 1 else current_index s.
Definition previous_index (s : app) : nat :=
  if bool_decide (0 < current_index s)
  then current_index s - 1 else current_index s.

(** The dialog that reports a failed move. *)
Definition move_error_dialog (e : exn) : string * string * string :=
  ("showerror", "File Error", "Could not move file:" +:+ nl +:+ exn_str e).

(** What every action of the session keeps: it returns normally, the
    list of records and the two destination folders are what they were,
    and the index is within the list or just past it. *)
Definition kept_by (act : io app unit) : Prop :=
  ∀ s, (current_index s ≤ length (image_files s))%nat →
    ∃ s', act s = (Ret tt, s')
      ∧ image_files s' = image_files s
      ∧ keep_dir s' = keep_dir s ∧ reject_dir s' = reject_dir s
      ∧ (current_index s' ≤ length (image_files s'))%nat.


(** A session on two images: [a.png] in the root, whose name is taken
    twice in the keep folder, and [sub/b.jpg], which cannot be decoded. *)
Definition sample_fs : FS :=
  Fs (<["/photos/in/a.png" := Content "A" true]>
      (<["/photos/in/sub/b.jpg" := Content "B" false]>
      (<["/photos/good/a.png" := Content "old" true]>
      (<["/photos/good/a_1.png" := Content "older" true]> ∅))))
     {["/photos/in"; "/photos/in/sub"; "/photos/in/_REJECTS"; "/photos/good"]}
     ∅ ∅.

Definition sample_ui : UI := Ui [] [] "" None 0 true false.

Definition sample_app : app :=
  App sample_fs sample_ui "/photos/in" "/photos/good" "/photos/in/_REJECTS"
      [Image "a.png" "" "/photos/in/a.png";
       Image "b.jpg" "sub" "/photos/in/sub/b.jpg"]
      0 true.

(** The same session on its second image. *)
Definition sample_app_at_1 : app := set_current_index 1 sample_app.

End Session.

(** ** ActionMapper (src/app.py, lines 172-289) *)

Module Mapper.
Import Session.

(** A Tk event, as far as the handlers read it: [event.delta]. *)
Record event : Type := Event { delta : Z }.

(** What [image_label.bind] stores: a callable on the event, acting on the
    application. *)
Definition handler : Type := event → io app unit.

(** [getattr(self.app, method_name)]: the bound methods of
    [RapidCullerApp]; [None] when [hasattr] is false. *)
Definition getattr_app (method_name : string) : option handler :=
  if String.eqb method_name "action_keep" then Some (λ _, action_keep)
  else if String.eqb method_name "action_reject" then Some (λ _, action_reject)
  else if String.eqb method_name "action_next" then Some (λ _, action_next)
  else if String.eqb method_name "action_previous" then Some (λ _, action_previous)
  else if String.eqb method_name "action_skip" then Some (λ _, action_skip)
  else None.

(** [ActionMapper.ACTIONS]. *)
Definition ACTIONS : gmap string (option string) :=
  <["keep" := Some "action_keep"]>
  (<["reject" := Some "action_reject"]>
  (<["next" := Some "action_next"]>
  (<["previous" := Some "action_previous"]>
  (<["skip" := Some "action_skip"]>
  (<["disabled" := None]> ∅))))).

(** The mapper with the widget it binds on: the bindings of
    [image_label], [self.current_bindings] and the lines printed. *)
Record mapper : Type := Mk {
  bindings : gmap string handler;
  current_bindings : gmap string json;
  printed : list string
}.

Definition print (line : string) : io mapper unit :=
  modify (λ m, Mk (bindings m) (current_bindings m) (printed m ++ [line])).
(** [image_label.bind(sequence, handler)] replaces the binding of
    [sequence]; [image_label.unbind(sequence)] removes it. *)
Definition bind (sequence : string) (h : handler) : io mapper unit :=
  modify (λ m, Mk (<[sequence := h]> (bindings m)) (current_bindings m) (printed m)).
Definition unbind (sequence : string) : io mapper unit :=
  modify (λ m, Mk (delete sequence (bindings m)) (current_bindings m) (printed m)).
(** [self.current_bindings[sequence] = value]. *)
Definition record_binding (sequence : string) (value : json) : io mapper unit :=
  modify (λ m, Mk (bindings m) (<[sequence := value]> (current_bindings m)) (printed m)).

(** [action_name in self.ACTIONS]: a dict hashes the candidate, so a list
    or a dict raises [TypeError]; only a string can be a key. *)
Definition in_ACTIONS (action_name : json) : result bool :=
  match action_name with
  | JStr s => Ret (bool_decide (is_Some (ACTIONS !! s)))
  | JList _ => Raise (TypeError "unhashable type: 'list'")
  | JDict _ => Raise (TypeError "unhashable type: 'dict'")
  | _ => Ret false
  end.

(** [ActionMapper._create_handler]. *)
Definition _create_handler (action_name : json) : io mapper (option handler) :=
  known ← lift (in_ACTIONS action_name);
  if negb known then
    print ("Warning: Unknown action '" +:+ py_str action_name +:+ "'");;
    mret None
  else
    match action_name with
    | JStr s =>
        match ACTIONS !! s with
        | Some (Some method_name) =>
            match getattr_app method_name with
            | Some method => mret (Some method)
            | None =>
                print ("Warning: Method '" +:+ method_name
                       +:+ "' not found on app instance");;
                mret None
            end
        | _ => mret None
        end
    | _ => mret None
    end.

(** [if handler:] on a bound method or [None], and the call
    [handler(event)]. *)
Definition truthy (h : option handler) : bool :=
  match h with Some _ => true | None => false end.
Definition call (h : option handler) (ev : event) : io app unit :=
  match h with
  | Some h => h ev
  | None => raise (TypeError "'NoneType' object is not callable")
  end.

(** [ActionMapper._create_combined_wheel_handler]. *)
Definition _create_combined_wheel_handler (up_handler down_handler : option handler)
  : handler := λ ev,
  if (0 <? delta ev)%Z && truthy up_handler then call up_handler ev
  else if (delta ev <? 0)%Z && truthy down_handler then call down_handler ev
  else mret tt.

(** [d.get(key, default)]; a value that is not a dict has no [get]. *)
Definition dict_get (d : json) (key : string) (default_value : json) : result json :=
  match d with
  | JDict d => Ret (default default_value (d !! key))
  | _ => Raise (AttributeError ("'" +:+ Config.type_name d
                                +:+ "' object has no attribute 'get'"))
  end.

(** [x != "disabled"]. *)
Definition is_disabled (action : json) : bool :=
  match action with
  | JStr s => String.eqb s "disabled"
  | _ => false
  end.

(** One of the two halves of [_bind_buttons]. *)
Definition bind_button (button_config : json) (key default_action sequence : string)
  : io mapper unit :=
  action ← lift (dict_get button_config key (JStr default_action));
  if negb (is_disabled action) then
    h ← _create_handler action;
    match h with
    | Some h => bind sequence h;; record_binding sequence action
    | None => mret tt
    end
  else mret tt.

(** [ActionMapper._bind_buttons]. *)
Definition _bind_buttons (button_config : json) : io mapper unit :=
  bind_button button_config "left_click" "keep" "<Button-1>";;
  bind_button button_config "right_click" "reject" "<Button-3>".

(** [ActionMapper._bind_wheel]. *)
Definition _bind_wheel (wheel_config : json) : io mapper unit :=
  wheel_up_action ← lift (dict_get wheel_config "wheel_up" (JStr "previous"));
  wheel_down_action ← lift (dict_get wheel_config "wheel_down" (JStr "next"));
  wheel_up_handler ←
    (if is_disabled wheel_up_action then mret None
     else _create_handler wheel_up_action);
  wheel_down_handler ←
    (if is_disabled wheel_down_action then mret None
     else _create_handler wheel_down_action);
  (if truthy wheel_up_handler || truthy wheel_down_handler then
     bind "<MouseWheel>"
          (_create_combined_wheel_handler wheel_up_handler wheel_down_handler);;
     record_binding "<MouseWheel>"
       (JStr (py_str wheel_up_action +:+ "/" +:+ py_str wheel_down_action))
   else mret tt);;
  match wheel_up_handler with
  | Some h => bind "<Button-4>" h;; record_binding "<Button-4>" wheel_up_action
  | None => mret tt
  end;;
  match wheel_down_handler with
  | Some h => bind "<Button-5>" h;; record_binding "<Button-5>" wheel_down_action
  | None => mret tt
  end.

(** [ActionMapper.unbind_all]. *)
Definition unbind_all : io mapper unit := λ m,
  (Ret tt,
   Mk (foldr delete (bindings m) (map fst (map_to_list (current_bindings m))))
      ∅ (printed m)).

(** [ActionMapper.bind_all]. *)
Definition bind_all (config : json) : io mapper unit :=
  unbind_all;;
  button_mappings ← lift (dict_get config "button_mappings" (JDict ∅));
  _bind_buttons button_mappings;;
  wheel_mappings ← lift (dict_get config "wheel_mappings" (JDict ∅));
  _bind_wheel wheel_mappings.

(** Tk delivers an event of [sequence] to the handler bound to it on
    [image_label], if there is one. *)
Definition dispatch (m : mapper) (sequence : string) (ev : event) : io app unit :=
  match lookup (A:=handler) sequence (bindings m) with
  | Some h => h ev
  | None => mret tt
  end.

(** *** Vocabulary for the statements about the mapper *)

(** Every binding on the widget is recorded in [current_bindings]. *)
Definition recorded (m : mapper) : Prop :=
  dom (bindings m) ⊆ dom (current_bindings m).

(** What an action name stands for: the method of the application, or
    nothing for ["disabled"]. *)
Definition run_action (name : string) : io app unit :=
  if String.eqb name "keep" then action_keep
  else if String.eqb name "reject" then action_reject
  else if String.eqb name "next" then action_next
  else if String.eqb name "previous" then action_previous
  else if String.eqb name "skip" then action_skip
  else mret tt.

(** The action name stored in [config] under [section] and [key]. *)
Definition configured (config : gmap string json) (section key : string) : string :=
  match config !! section with
  | Some (JDict d) =>
      match d !! key with
      | Some (JStr s) => s
      | _ => ""
      end
  | _ => ""
  end.

(** A mapper on which the left button is bound to keep. *)
Definition sample_mapper : mapper :=
  Mk (<["<Button-1>" := λ _, action_keep]> ∅)
     (<["<Button-1>" := JStr "keep"]> ∅) [].

(** A configuration that disables the left button and says nothing
    else. *)
Definition left_disabled : json :=
  JDict (<["button_mappings" := JDict (<["left_click" := JStr "disabled"]> ∅)]> ∅).

End Mapper.

(** ** SettingsDialog (src/app.py, lines 369-596) *)

Module Settings.
Import Config.

(** [s.upper()] on the letters a-z and [s.capitalize()]: the first
    character in upper case, the others in lower case.  The strings they
    are applied to here are action names and the options of the menus,
    which are made of the letters A-Z and a-z. *)
Definition upper_char (c : ascii) : ascii :=
  let n := nat_of_ascii c in
  if (97 <=? n)%nat && (n <=? 122)%nat then ascii_of_nat (n - 32) else c.

Definition capitalize (s : string) : string :=
  match s with
  | EmptyString => EmptyString
  | String c s' => String (upper_char c) (lower s')
  end.

(** The Tk variables in [self.widgets]: what their [get] returns. *)
Record widgets : Type := Widgets {
  left_click : string;
  right_click : string;
  wheel_up : string;
  wheel_down : string;
  recursive_loading : bool
}.

(** [self.temp_config]: an object of its own (a deep copy), or the very
    object that [config_manager.config] is, which it becomes when [save]
    stores it there. *)
Inductive temp_ref : Type :=
  | Copy (v : json)
  | Shared.

Record dialog : Type := Dialog {
  manager : world;          (* the [ConfigManager], its file and the console *)
  temp_config : temp_ref;
  vars : widgets;
  is_open : bool            (* [self.dialog] has not been destroyed *)
}.

Definition on_manager {A} (m : io world A) : io dialog A := λ d,
  let '(r, w) := m (manager d) in
  (r, Dialog w (temp_config d) (vars d) (is_open d)).

(** Reading [self.temp_config] and updating the object it refers to. *)
Definition read_temp : io dialog json := λ d,
  match temp_config d with
  | Copy v => (Ret v, d)
  | Shared =>
      match self_config (manager d) with
      | Some v => (Ret v, d)
      | None => (Raise no_config, d)
      end
  end.

Definition write_temp (v : json) : io dialog unit := λ d,
  match temp_config d with
  | Copy _ => (Ret tt, Dialog (manager d) (Copy v) (vars d) (is_open d))
  | Shared => on_manager (set_self_config v) d
  end.

(** [messagebox.showerror(title, text)], and [messagebox.askyesno], which
    returns the [answer] of the user. *)
Definition showerror (title text : string) : io dialog unit :=
  on_manager (showwarning title text).
Definition askyesno (title text : string) (answer : bool) : io dialog bool :=
  on_manager (showwarning title text);; mret answer.

(** [self.temp_config[section][key] = value]: the dict under [section] is
    updated in place. *)
Definition assign (section key : string) (value : json) : io dialog unit :=
  t ← read_temp;
  child ← lift (subscript t section);
  child' ← lift (setitem child key value);
  t' ← lift (setitem t section child');
  write_temp t'.

(** [list(d.values())] of [config[section]]. *)
Definition values (config : json) (section : string) : result (list json) :=
  d ← subscript config section;
  match d with
  | JDict d => Ret (map snd (map_to_list d))
  | _ => Raise (AttributeError ("'" +:+ type_name d
                                +:+ "' object has no attribute 'values'"))
  end.

(** [name in all_actions], the membership test of a list. *)
Definition among (name : string) (actions : list json) : bool :=
  existsb (λ v, match v with JStr s => String.eqb s name | _ => false end)
          actions.

Definition no_sorting_warning : string :=
  "⚠ No buttons or wheel actions mapped to Keep or Reject." +:+ Session.nl
  +:+ "You won't be able to sort images!".

(** [SettingsDialog._check_warnings]. *)
Definition _check_warnings (config : json) : result (option string) :=
  button_actions ← values config "button_mappings";
  wheel_actions ← values config "wheel_mappings";
  let all_actions := button_actions ++ wheel_actions in
  if negb (among "keep" all_actions) && negb (among "reject" all_actions)
  then Ret (Some no_sorting_warning)
  else Ret None.

(** [self.parent.apply_config(...)]: [open_settings] creates the dialog as
    [SettingsDialog(self.root, self.config_manager)], so [self.parent] is
    the Tk root window, which passes the lookup of an attribute it lacks
    on to its interpreter object, and that has no [apply_config]. *)
Definition parent_apply_config : exn :=
  AttributeError "'_tkinter.tkapp' object has no attribute 'apply_config'".

(** The first block of [_validate_and_save], "Read values from all
    widgets and update temp_config". *)
Definition read_widgets : io dialog unit :=
  v ← gets vars;
  assign "button_mappings" "left_click" (JStr (lower (left_click v)));;
  assign "button_mappings" "right_click" (JStr (lower (right_click v)));;
  assign "wheel_mappings" "wheel_up" (JStr (lower (wheel_up v)));;
  assign "wheel_mappings" "wheel_down" (JStr (lower (wheel_down v)));;
  assign "options" "recursive_loading" (JBool (recursive_loading v)).

(** [SettingsDialog._validate_and_save]; [proceed] is the answer the user
    gives if [askyesno] is shown. *)
Definition _validate_and_save (proceed : bool) : io dialog unit :=
  read_widgets;;
  t ← read_temp;
  '(is_valid, error_msg) ← lift (W:=dialog) (validate t);
  if negb (is_valid : bool) then showerror "Invalid Settings" error_msg
  else
    warnings ← lift (_check_warnings t);
    go_on ←
      match warnings with
      | Some text =>
          askyesno "Configuration Warning"
                   (text +:+ Session.nl +:+ Session.nl +:+ "Proceed anyway?")
                   proceed
      | None => mret true
      end;
    if negb (go_on : bool) then mret tt
    else
      saved ← on_manager (save t);
      if (saved : bool) then
        (* [self.config] is now the object [temp_config] refers to *)
        modify (λ d, Dialog (manager d) Shared (vars d) (is_open d));;
        raise parent_apply_config
      else
        showerror "Save Failed"
                  "Could not save settings. Check console for errors.".

(** [SettingsDialog._cancel]. *)
Definition _cancel : io dialog unit :=
  modify (λ d, Dialog (manager d) (temp_config d) (vars d) false).

(** [SettingsDialog._reset_to_defaults]: the subscripts on the defaults
    cannot fail. *)
Definition _reset_to_defaults : io dialog unit :=
  modify (λ d, Dialog (manager d) (Copy (JDict DEFAULT_CONFIG))
                      (Widgets (capitalize "keep") (capitalize "reject")
                               (capitalize "previous") (capitalize "next")
                               false)
                      (is_open d)).

(** The text a menu is given when the dialog is built:
    [temp_config.get(section, {}).get(key, default).capitalize()]. *)
Definition current_choice (t : json) (section key default_action : string)
  : result string :=
  d ← Mapper.dict_get t section (JDict ∅);
  a ← Mapper.dict_get d key (JStr default_action);
  match a with
  | JStr s => Ret (capitalize s)
  | _ => Raise (AttributeError ("'" +:+ type_name a
                                +:+ "' object has no attribute 'capitalize'"))
  end.

(** *** Vocabulary for the statements about the dialog *)

(** The document [t] with the values of the widgets [v] written into
    it. *)
Definition with_widgets (v : widgets) (c bm wm opts : gmap string json)
  : gmap string json :=
  <["options" := JDict (<["recursive_loading" := JBool (recursive_loading v)]> opts)]>
  (<["wheel_mappings" :=
       JDict (<["wheel_down" := JStr (lower (wheel_down v))]>
              (<["wheel_up" := JStr (lower (wheel_up v))]> wm))]>
  (<["button_mappings" :=
       JDict (<["right_click" := JStr (lower (right_click v))]>
              (<["left_click" := JStr (lower (left_click v))]> bm))]> c)).

(** A dialog as [show] opens it on the defaults, with the left button
    set to Next by the user. *)
Definition sample_dialog : dialog :=
  Dialog loaded_world (Copy (JDict DEFAULT_CONFIG))
         (Widgets "Next" "Reject" "Previous" "Next" true) true.

End Settings.

(** ** RapidCullerApp: choosing the folders (src/app.py, lines 674-681 and
    722-740) *)

Module Folders.
Import Config Session.

(** The application with its [ConfigManager] and the two labels that show
    the folders. *)
Record window : Type := Window {
  manager : world;
  session : app;
  lbl_src : string;
  lbl_keep : string
}.

Definition on_manager {A} (m : io world A) : io window A := λ w,
  let '(r, m') := m (manager w) in
  (r, Window m' (session w) (lbl_src w) (lbl_keep w)).

Definition on_session (f : app → app) : io window unit :=
  modify (λ w, Window (manager w) (f (session w)) (lbl_src w) (lbl_keep w)).

(** [self.config_manager.config], an attribute that [__init__] sets. *)
Definition config_of_manager : io world json := λ w,
  match self_config w with
  | Some c => (Ret c, w)
  | None => (Raise no_config, w)
  end.

(** [RapidCullerApp.save_settings]. *)
Definition save_settings : io window unit :=
  src ← gets (λ w, src_dir (session w));
  on_manager (set "src" (JStr src));;
  keep ← gets (λ w, keep_dir (session w));
  on_manager (set "keep" (JStr keep));;
  c ← on_manager config_of_manager;
  on_manager (save c);;
  mret tt.

(** [RapidCullerApp.check_ready]. *)
Definition check_ready : io window unit :=
  src ← gets (λ w, src_dir (session w));
  keep ← gets (λ w, keep_dir (session w));
  if negb (String.eqb src "") && negb (String.eqb keep "") then
    on_session (set_ui (λ u, Ui (stdout u) (dialogs u) (status u) (shown u)
                                (pending_show u) false (finished u)))
  else mret tt.

(** [RapidCullerApp.select_src] and [select_keep]; [path] is what
    [filedialog.askdirectory] returns, empty when the user cancels. *)
Definition select_src (path : string) : io window unit :=
  if negb (String.eqb path "") then
    on_session (λ s, App (fs s) (ui s) path (keep_dir s) (reject_dir s)
                         (image_files s) (current_index s) (recursive_loading s));;
    modify (λ w, Window (manager w) (session w) path (lbl_keep w));;
    save_settings;;
    check_ready
  else mret tt.

Definition select_keep (path : string) : io window unit :=
  if negb (String.eqb path "") then
    on_session (λ s, App (fs s) (ui s) (src_dir s) path (reject_dir s)
                         (image_files s) (current_index s) (recursive_loading s));;
    modify (λ w, Window (manager w) (session w) (lbl_src w) path);;
    save_settings;;
    check_ready
  else mret tt.

(** *** Vocabulary for the statements about the folders *)

(** The load button can be pressed only when both folders are chosen. *)
Definition ready_ok (w : window) : Prop :=
  btn_load_disabled (ui (session w)) = false →
  src_dir (session w) ≠ "" ∧ keep_dir (session w) ≠ "".

(** The window at start, before any folder is chosen: the load button is
    disabled. *)
Definition sample_window : window :=
  Window loaded_world
         (App sample_fs (Ui [] [] "Waiting to start..." None 0 true false)
              "" "" "" [] 0 false)
         "No folder selected" "No folder selected".

End Folders.

(** * Properties *)

Ltac io_unfold :=
  cbv [mbind mret io_bind io_ret result_bind result_ret lift raise modify
       gets try_except]; cbn.

(** ** The model on small inputs *)

Section Checks.
Import Config Scanner.

Example splitext_checks :
  splitext "a.png" = ("a", ".png")
  ∧ splitext ".png" = (".png", "")
  ∧ splitext "archive.tar.gz" = ("archive.tar", ".gz")
  ∧ splitext "dir.d/name" = ("dir.d/name", "").
Proof. repeat split. Qed.

Example path_join_checks :
  path_join "/keep" "a.png" = "/keep/a.png"
  ∧ path_join "/keep/" "a.png" = "/keep/a.png"
  ∧ path_join "" "a.png" = "a.png"
  ∧ path_join "/keep" "/abs" = "/abs".
Proof. repeat split. Qed.

Example is_valid_image_checks :
  _is_valid_image "b.PNG" = true
  ∧ _is_valid_image "photo.JpEg" = true
  ∧ _is_valid_image "ignore.txt" = false
  ∧ _is_valid_image "png" = false.
Proof. repeat split. Qed.

(** The example of the specification: [a.png], [sub/b.jpg] and
    [sub/ignore.txt] give two records in recursive mode (the sample tree
    has [b.PNG] besides), in the order of the walk. *)
Example scan_sample :
  scan "/photos/in" (Some sample_tree) true []
  = (Ret [Image "b.PNG" "" "/photos/in/b.PNG";
          Image "a.png" "" "/photos/in/a.png";
          Image "b.jpg" "sub" "/photos/in/sub/b.jpg"], []).
Proof. vm_compute. reflexivity. Qed.

Example sort_sample :
  sort_by full_path [Image "b.PNG" "" "/photos/in/b.PNG";
                     Image "a.png" "" "/photos/in/a.png";
                     Image "b.jpg" "sub" "/photos/in/sub/b.jpg"]
  = [Image "a.png" "" "/photos/in/a.png";
     Image "b.PNG" "" "/photos/in/b.PNG";
     Image "b.jpg" "sub" "/photos/in/sub/b.jpg"].
Proof. vm_compute. reflexivity. Qed.

Example validate_checks :
  validate (JDict DEFAULT_CONFIG) = Ret (true, "")
  ∧ validate (JList []) = Ret (false, "Config must be a dictionary")
  ∧ validate (JDict (<["options" := JDict (<["recursive_loading" := JInt 1]> ∅)]>
                     DEFAULT_CONFIG))
    = Ret (false, "recursive_loading must be a boolean")
  ∧ validate (JDict (<["wheel_mappings" :=
                         JDict (<["wheel_up" := JStr "zoom"]>
                                (<["wheel_down" := JStr "next"]> ∅))]>
                     DEFAULT_CONFIG))
    = Ret (false, "Invalid action 'zoom' for wheel_up")
  ∧ validate (JDict (delete "options" DEFAULT_CONFIG))
    = Ret (false, "Missing required key: options").
Proof. repeat split; vm_compute; reflexivity. Qed.

End Checks.

(** ** ConfigManager *)

Section ConfigManager.
Import Config.

Arguments validate : simpl never.
Arguments save : simpl never.
Arguments migrated : simpl never.

Lemma contains_Some d k v : d !! k = Some v → contains d k = true.
Proof. unfold contains. by intros ->. Qed.


Lemma getitem_Some d k v : d !! k = Some v → getitem d k = Ret v.
Proof. unfold getitem. by intros ->. Qed.

Lemma in_VALID_ACTIONS_hashable a :
  hashable a = true → in_VALID_ACTIONS a = Ret (valid_action a).
Proof. by destruct a. Qed.

(** The loop over two mapping keys, for values that can be hashed. *)
Lemma check_mappings_two what k1 k2 m a1 a2 :
  m !! k1 = Some a1 → m !! k2 = Some a2 →
  hashable a1 = true → hashable a2 = true →
  check_mappings what [k1; k2] m =
    Ret (if negb (valid_action a1) then Some (invalid_action_reason a1 k1)
         else if negb (valid_action a2) then Some (invalid_action_reason a2 k2)
         else None).
Proof.
  intros H1 H2 Hh1 Hh2. simpl.
  rewrite (contains_Some _ _ _ H1), (getitem_Some _ _ _ H1). simpl.
  rewrite (in_VALID_ACTIONS_hashable _ Hh1). simpl.
  destruct (valid_action a1); simpl; [|done].
  rewrite (contains_Some _ _ _ H2), (getitem_Some _ _ _ H2). simpl.
  rewrite (in_VALID_ACTIONS_hashable _ Hh2). simpl.
  by destruct (valid_action a2).
Qed.

(** What [validate] returns on a document in v2 shape whose four mapping
    values can be hashed (strings, numbers, booleans, null): success when
    the four are action names and [recursive_loading] is a boolean, and
    otherwise failure with the reason of the first offender. *)
Lemma validate_v2_hashable c S K bm wm opts a1 a2 a3 a4 rl :
  c !! "src" = Some S → c !! "keep" = Some K →
  c !! "button_mappings" = Some (JDict bm) →
  c !! "wheel_mappings" = Some (JDict wm) →
  c !! "options" = Some (JDict opts) →
  bm !! "left_click" = Some a1 → bm !! "right_click" = Some a2 →
  wm !! "wheel_up" = Some a3 → wm !! "wheel_down" = Some a4 →
  opts !! "recursive_loading" = Some rl →
  hashable a1 = true → hashable a2 = true →
  hashable a3 = true → hashable a4 = true →
  validate (JDict c) =
    Ret (match first_reason bm wm opts with
         | Some reason => (false, reason)
         | None => (true, "")
         end).
Proof.
  intros Hs Hk Hb Hw Ho H1 H2 H3 H4 Hr Hh1 Hh2 Hh3 Hh4.
  unfold validate, first_reason, button_keys, wheel_keys.
  rewrite H1, H2, H3, H4, Hr.
  rewrite (contains_Some _ _ _ Hs), (contains_Some _ _ _ Hk),
    (contains_Some _ _ _ Hb). cbn -[check_mappings].
  rewrite (contains_Some _ _ _ Hs), (contains_Some _ _ _ Hk),
    (contains_Some _ _ _ Hb), (contains_Some _ _ _ Hw),
    (contains_Some _ _ _ Ho).
  rewrite (getitem_Some _ _ _ Hb). cbn -[check_mappings].
  rewrite (check_mappings_two _ _ _ _ _ _ H1 H2 Hh1 Hh2).
  destruct (valid_action a1); cbn -[check_mappings]; [|done].
  destruct (valid_action a2); cbn -[check_mappings]; [|done].
  rewrite (getitem_Some _ _ _ Hw). cbn -[check_mappings].
  rewrite (check_mappings_two _ _ _ _ _ _ H3 H4 Hh3 Hh4).
  destruct (valid_action a3); cbn -[check_mappings]; [|done].
  destruct (valid_action a4); cbn -[check_mappings]; [|done].
  rewrite (getitem_Some _ _ _ Ho). cbn.
  rewrite (contains_Some _ _ _ Hr), (getitem_Some _ _ _ Hr). cbn.
  by destruct (is_bool rl).
Qed.

(** A failure reason of [validate] on such a document is never empty. *)
Lemma first_reason_nonempty bm wm opts reason :
  first_reason bm wm opts = Some reason → reason ≠ "".
Proof.
  unfold first_reason, invalid_action_reason.
  repeat case_match; intros; simplify_eq; done.
Qed.


Lemma migrated_lookup S K k :
  migrated S K !! k =
    if decide (k = "keep") then Some K
    else if decide (k = "src") then Some S
    else DEFAULT_CONFIG !! k.
Proof.
  unfold migrated. rewrite !lookup_insert.
  repeat case_decide; congruence.
Qed.

Lemma validate_migrated S K : validate (JDict (migrated S K)) = Ret (true, "").
Proof.
  etrans.
  { eapply (validate_v2_hashable _ S K).
    1-5: rewrite migrated_lookup; reflexivity.
    all: reflexivity. }
  reflexivity.
Qed.

(** [save] on a document that validates: written unless the file cannot
    be opened for writing. *)
Lemma save_valid config w :
  validate config = Ret (true, "") →
  save config w =
    match write_error w with
    | None => (Ret true, World (Some (Document config)) None (stdout w)
                               (dialogs w) (Some config))
    | Some e => (Ret false,
                 World (disk w) (write_error w)
                       (stdout w ++ ["Failed to save settings: " +:+ exn_str e])
                       (dialogs w) (self_config w))
    end.
Proof.
  intros Hv. unfold save, dump_to_file, set_self_config, print. io_unfold.
  rewrite Hv. cbn.
  destruct (write_error w) eqn:E; cbn; rewrite ?E; reflexivity.
Qed.



(** The parts of C3 that hold. *)
Lemma load_absent w :
  disk w = None → load w = (Ret (JDict DEFAULT_CONFIG), w).
Proof. intros H. unfold load. by rewrite H. Qed.

Lemma load_garbled w msg :
  disk w = Some (Garbled msg) →
  load w = (Ret (JDict DEFAULT_CONFIG), load_fallback (JSONDecodeError msg) w).
Proof.
  intros H. unfold load. rewrite H.
  unfold read_file, print, showwarning. io_unfold. reflexivity.
Qed.

Lemma load_invalid w data reason :
  disk w = Some (Document data) →
  validate data = Ret (false, reason) →
  load w = (Ret (JDict DEFAULT_CONFIG),
            load_fallback (ValueError ("Invalid config schema: " +:+ reason)) w).
Proof.
  intros H Hv. unfold load. rewrite H.
  unfold read_file, print, showwarning. io_unfold. rewrite Hv. reflexivity.
Qed.

(** C3 (the code departs from it): on a settings file in v2 shape whose
    left-click action is a JSON array, [validate] raises [TypeError]
    (the set membership test hashes the array), [load] does not handle
    that exception, and it reaches the caller of [load]: no defaults are
    returned and nothing is reported. *)
Theorem C3_load_raises_on_list_action :
  load list_valued_world
  = (Raise (TypeError "unhashable type: 'list'"), list_valued_world).
Proof. vm_compute. reflexivity. Qed.

(** C6 (the code departs from it): on the same document, in v2 shape with
    all five top-level keys and a left-click value outside the action set,
    [validate] raises [TypeError] instead of returning a failure with a
    reason. *)
Theorem C6_validate_raises_on_list_action :
  (∃ c bm a,
     list_valued_doc = JDict c
     ∧ Forall (λ k, contains c k = true) required_keys
     ∧ c !! "button_mappings" = Some (JDict bm)
     ∧ bm !! "left_click" = Some a
     ∧ valid_action a = false)
  ∧ validate list_valued_doc = Raise (TypeError "unhashable type: 'list'")
  ∧ ∀ ok reason, validate list_valued_doc ≠ Ret (ok, reason).
Proof.
  assert (validate list_valued_doc = Raise (TypeError "unhashable type: 'list'"))
    as Hv by (vm_compute; reflexivity).
  split; [|split; [exact Hv|intros ok reason; rewrite Hv; discriminate]].
  eexists _, _, _. split; [reflexivity|].
  split; [repeat constructor|].
  split; [reflexivity|]. split; reflexivity.
Qed.

End ConfigManager.

(** ** Strings and paths *)

Section Paths.

Lemma app_cons_s x (a b : string) : String x a +:+ b = String x (a +:+ b).
Proof. reflexivity. Qed.

Lemma app_nil_l_s (b : string) : "" +:+ b = b.
Proof. reflexivity. Qed.

Lemma app_assoc_s (a b c : string) : (a +:+ b) +:+ c = a +:+ (b +:+ c).
Proof. induction a as [|x a IH]; [done|]. by rewrite !app_cons_s, IH. Qed.

Lemma app_nil_r_s (a : string) : a +:+ "" = a.
Proof. induction a as [|x a IH]; [done|]. by rewrite app_cons_s, IH. Qed.

Lemma app_length_s (a b : string) :
  String.length (a +:+ b) = String.length a + String.length b.
Proof. induction a as [|x a IH]; [done|]. rewrite app_cons_s. cbn. by rewrite IH. Qed.

(** Cancellation of a common suffix. *)
Lemma app_inj_r_s (a b e : string) : a +:+ e = b +:+ e → a = b.
Proof.
  revert b. induction a as [|x a IH]; intros [|y b] H; [done| | |].
  - apply (f_equal String.length) in H.
    rewrite app_nil_l_s, app_cons_s in H. cbn in H. rewrite app_length_s in H. lia.
  - apply (f_equal String.length) in H.
    rewrite app_nil_l_s, app_cons_s in H. cbn in H. rewrite app_length_s in H. lia.
  - rewrite !app_cons_s in H. injection H as -> H. f_equal. by apply IH.
Qed.

Lemma startswith_slash b :
  startswith b "/" = match b with String c _ => Ascii.eqb c "/" | _ => false end.
Proof.
  unfold startswith. destruct b as [|c b]; [done|]. cbn [String.prefix].
  destruct (Ascii.ascii_dec "/" c) as [<-|Hne]; [by destruct b|].
  symmetry. apply Ascii.eqb_neq. congruence.
Qed.

Lemma path_join_pre a b :
  startswith b "/" = false → path_join a b = path_pre a +:+ b.
Proof.
  intros Hb. unfold path_join, path_pre. rewrite Hb.
  destruct (String.eqb a "" || endswith a "/"); [done|].
  by rewrite app_assoc_s.
Qed.

Lemma valid_name_inv s :
  valid_name s = true → s ≠ "" ∧ has_slash s = false ∧ s ≠ ".".
Proof.
  unfold valid_name. rewrite !andb_true_iff, !negb_true_iff.
  intros [[[H1 H2] H3] _]. apply String.eqb_neq in H1, H3. done.
Qed.

Lemma valid_name_startswith s : valid_name s = true → startswith s "/" = false.
Proof.
  intros (Hne & Hs & _)%valid_name_inv. rewrite startswith_slash.
  destruct s as [|c s]; [done|]. cbn in Hs. by apply orb_false_iff in Hs as [-> _].
Qed.

Lemma endswith_no_slash s : has_slash s = false → endswith s "/" = false.
Proof.
  induction s as [|c s IH]; [done|]. cbn. intros [Hc Hs]%orb_false_iff.
  rewrite (IH Hs), orb_false_r.
  destruct s; [by rewrite Hc|]. by destruct (Ascii.eqb c "/").
Qed.

Lemma endswith_app a b suffix :
  b ≠ "" → (String.length suffix ≤ String.length b)%nat →
  endswith (a +:+ b) suffix = endswith b suffix.
Proof.
  intros Hb Hlen. induction a as [|x a IH]; [done|].
  rewrite app_cons_s. cbn [endswith].
  rewrite IH.
  assert (String.eqb (String x (a +:+ b)) suffix = false) as ->; [|done].
  apply String.eqb_neq. intros <-. cbn in Hlen. rewrite app_length_s in Hlen. lia.
Qed.

Lemma path_pre_join a d :
  valid_name d = true → path_pre (path_pre a +:+ d) = path_pre a +:+ d +:+ "/".
Proof.
  intros Hd. pose proof (valid_name_inv _ Hd) as (Hne & Hs & _).
  unfold path_pre at 1.
  assert (String.eqb (path_pre a +:+ d) "" = false) as ->.
  { apply String.eqb_neq. intros H%(f_equal String.length).
    rewrite app_length_s in H. destruct d; [done|]. cbn in H. lia. }
  rewrite endswith_app; [|done|].
  - rewrite (endswith_no_slash _ Hs). cbn. by rewrite app_assoc_s.
  - destruct d; [done|]. cbn. lia.
Qed.

Lemma has_slash_app a b : has_slash (a +:+ b) = has_slash a || has_slash b.
Proof.
  induction a as [|x a IH]; [done|]. rewrite app_cons_s. cbn.
  by rewrite IH, orb_assoc.
Qed.

(** Two names without slashes that are followed by a slash in the same
    string are the same name. *)
Lemma slash_split_inj d1 d2 y1 y2 :
  has_slash d1 = false → has_slash d2 = false →
  d1 +:+ "/" +:+ y1 = d2 +:+ "/" +:+ y2 → d1 = d2 ∧ y1 = y2.
Proof.
  revert d2. induction d1 as [|c d1 IH]; intros [|c2 d2] H1 H2 H;
    rewrite ?app_cons_s, ?app_nil_l_s in H; cbn in *.
  - by injection H as ->.
  - injection H as <- _. by apply orb_false_iff in H2 as [? _].
  - injection H as -> _. by apply orb_false_iff in H1 as [? _].
  - injection H as -> H.
    apply orb_false_iff in H1 as [_ H1]. apply orb_false_iff in H2 as [_ H2].
    by destruct (IH d2 H1 H2 H) as [-> ->].
Qed.

End Paths.

(** ** RecursiveScanner *)

Section ScannerFacts.
Import Scanner.

Arguments _is_valid_image : simpl never.
Arguments path_join : simpl never.
Arguments relpath : simpl never.

(** Induction on a tree, with the property at hand for every entry of a
    directory. *)
Lemma node_ind_entries (P : node → Prop) :
  P File → P Other → (∀ t, P (Symlink t)) →
  (∀ listable es, Forall (λ e, P e.2) es → P (Dir listable es)) →
  ∀ n, P n.
Proof.
  intros HF HO HS HD. fix IH 1. intros [ | | t | listable es]; [done..|].
  apply HD. revert es. fix IHes 1. intros [|[d c] es]; constructor.
  - apply IH.
  - apply IHes.
Qed.

Lemma walk_Dir dirpath rel es :
  walk dirpath rel (Dir true es)
  = records_here dirpath rel es ++ walk_entries dirpath rel es.
Proof.
  cbn [walk]. f_equal. induction es as [|[d c] es IH]; [done|].
  cbn [walk_entries]. by rewrite <-IH.
Qed.

Lemma walk_not_listable dirpath rel n :
  (∀ es, n ≠ Dir true es) → walk dirpath rel n = [].
Proof. destruct n as [ | | |[] es]; try done. intros H. by destruct (H es). Qed.

Lemma wf_node_Dir listable es :
  wf_node (Dir listable es) = true ↔
  NoDup es.*1 ∧ Forall (λ e, valid_name e.1 = true ∧ wf_node e.2 = true) es.
Proof.
  cbn [wf_node]. rewrite !andb_true_iff, bool_decide_eq_true.
  assert (∀ P : Prop, P → ∀ Q R S : Prop, (Q ∧ R ↔ S) → ((P ∧ Q) ∧ R ↔ P ∧ S))
    as Hpush by tauto.
  destruct (decide (NoDup es.*1)) as [Hnd|Hnd]; [|tauto].
  apply Hpush; [done|]. clear Hnd Hpush.
  induction es as [|[d c] es IH]; [by split; [constructor|]|].
  rewrite Forall_cons. cbn [forallb fst snd].
  rewrite !andb_true_iff. tauto.
Qed.

Lemma records_here_elem dirpath rel es r :
  r ∈ records_here dirpath rel es →
  ∃ name c, (name, c) ∈ es ∧ is_dir c = false
    ∧ r = Image name (rel_path_of rel) (path_join dirpath name).
Proof.
  unfold records_here. rewrite list_elem_of_In, in_flat_map.
  intros ([name c] & Hin%list_elem_of_In & Hr).
  destruct (is_dir c) eqn:Hd; cbn in Hr; [by destruct Hr|].
  destruct (_is_valid_image name); cbn in Hr; [|by destruct Hr].
  destruct Hr as [<-|[]]. by exists name, c.
Qed.

Lemma walk_in_dir n : ∀ dirpath rel r,
  r ∈ walk dirpath rel n →
  ∃ comps name c,
    in_dir n comps name c ∧ is_dir c = false
    ∧ r = Image name (rel_path_of (rel ++ comps))
                (path_join (foldl path_join dirpath comps) name).
Proof.
  induction n as [ | | t | listable es IH] using node_ind_entries;
    intros dirpath rel r; try (by intros ?%elem_of_nil).
  destruct listable; [|by intros ?%elem_of_nil].
  rewrite walk_Dir, elem_of_app. intros [Hr|Hr].
  - apply records_here_elem in Hr as (name & c & Hin & Hd & ->).
    exists [], name, c. rewrite app_nil_r. split; [by constructor|done].
  - induction IH as [|[d child] es IHc _ IHes]; [by apply elem_of_nil in Hr|].
    cbn [walk_entries] in Hr. apply elem_of_app in Hr as [Hr|Hr].
    + destruct (is_dir child && negb (islink child)); [|by apply elem_of_nil in Hr].
      apply IHc in Hr as (comps & name & c & Hin & Hd & ->).
      exists (d :: comps), name, c. rewrite <-app_assoc. split; [|done].
      eapply in_dir_sub; [left|done].
    + destruct (IHes Hr) as (comps & name & c & Hin & Hd & ->).
      exists comps, name, c. split; [|done].
      inv Hin; [constructor; by right|].
      eapply in_dir_sub; [right|]; done.
Qed.

Lemma in_dir_valid n comps name c :
  wf_node n = true → in_dir n comps name c →
  Forall (λ d, valid_name d = true) comps ∧ valid_name name = true.
Proof.
  intros Hwf Hin. induction Hin as [listable es name c Hin|listable es d child comps name c Hin _ IH].
  - apply wf_node_Dir in Hwf as [_ Hall].
    rewrite Forall_forall in Hall. by destruct (Hall _ Hin).
  - apply wf_node_Dir in Hwf as [_ Hall].
    rewrite Forall_forall in Hall. destruct (Hall _ Hin) as [Hd Hc].
    destruct (IH Hc). split; [by constructor|done].
Qed.

Lemma join_slash_cons d rest :
  rest ≠ [] → join_slash (d :: rest) = d +:+ "/" +:+ join_slash rest.
Proof. by destruct rest. Qed.

Lemma startswith_app d y :
  valid_name d = true → startswith (d +:+ y) "/" = false.
Proof.
  intros Hd. pose proof (valid_name_startswith _ Hd) as Hs.
  rewrite startswith_slash in *. destruct d as [|c d]; [done|].
  by rewrite app_cons_s.
Qed.

Lemma join_slash_startswith comps :
  Forall (λ d, valid_name d = true) comps →
  startswith (join_slash comps) "/" = false.
Proof.
  intros [|d rest Hd _]; [done|].
  destruct rest as [|d2 rest]; [by apply valid_name_startswith|].
  rewrite join_slash_cons by done. by apply startswith_app.
Qed.

Lemma join_slash_empty comps :
  Forall (λ d, valid_name d = true) comps →
  join_slash comps = "" ↔ comps = [].
Proof.
  intros Hv. split; [|by intros ->].
  destruct Hv as [|d rest Hd _]; [done|]. intros H. exfalso.
  apply valid_name_inv in Hd as (Hne & _).
  destruct rest; [done|]. rewrite join_slash_cons in H by done.
  destruct d; [done|]. by rewrite app_cons_s in H.
Qed.

Lemma join_slash_not_dot comps :
  Forall (λ d, valid_name d = true) comps → join_slash comps ≠ ".".
Proof.
  intros [|d rest Hd _]; [done|].
  apply valid_name_inv in Hd as (Hne & _ & Hdot).
  destruct rest as [|d2 rest]; [done|]. rewrite join_slash_cons by done.
  intros H%(f_equal String.length). rewrite !app_length_s in H.
  destruct d; [done|]. cbn in H. lia.
Qed.

Lemma rel_path_of_valid comps :
  Forall (λ d, valid_name d = true) comps →
  rel_path_of comps = join_slash comps.
Proof.
  intros Hv. unfold rel_path_of, relpath. destruct comps as [|d rest]; [done|].
  by apply join_slash_not_dot, String.eqb_neq in Hv as ->.
Qed.

Lemma foldl_path_join a comps :
  Forall (λ d, valid_name d = true) comps → comps ≠ [] →
  foldl path_join a comps = path_pre a +:+ join_slash comps.
Proof.
  intros Hv. revert a. induction Hv as [|d rest Hd Hv IH]; intros a Hne; [done|].
  cbn [foldl]. rewrite (path_join_pre a d) by by apply valid_name_startswith.
  destruct rest as [|d2 rest]; [done|].
  rewrite IH by done. rewrite path_pre_join by done.
  rewrite (join_slash_cons d) by done. by rewrite !app_assoc_s.
Qed.

Lemma foldl_path_join_rel a comps :
  Forall (λ d, valid_name d = true) comps →
  foldl path_join a comps
  = if String.eqb (join_slash comps) "" then a
    else path_join a (join_slash comps).
Proof.
  intros Hv. destruct comps as [|d rest]; [done|].
  assert (join_slash (d :: rest) ≠ "") as Hne.
  { by rewrite join_slash_empty. }
  apply String.eqb_neq in Hne as ->.
  rewrite foldl_path_join by done.
  by rewrite path_join_pre by by apply join_slash_startswith.
Qed.

(** C10: every record that [scan] returns for a well-formed tree names an
    entry that is not a directory, found by descending from the root
    through the directories [comps]; its [relative_path] is [comps] joined
    by slashes, which is the empty string exactly when [comps] is empty
    (the file lies directly in the root); and its [full_path] is the root
    joined with [relative_path], when that is not empty, joined with
    [filename]. *)
Theorem C10_records_consistent root_dir root recursive out l out' :
  wf_root root = true →
  scan root_dir root recursive out = (Ret l, out') →
  ∀ r, r ∈ l →
    ∃ n comps c,
      root ≫= resolve = Some n
      ∧ in_dir n comps (filename r) c ∧ is_dir c = false
      ∧ relative_path r = join_slash comps
      ∧ (relative_path r = "" ↔ comps = [])
      ∧ full_path r
        = path_join (if String.eqb (relative_path r) "" then root_dir
                     else path_join root_dir (relative_path r))
                    (filename r).
Proof.
  unfold wf_root, scan, _scan_recursive, _scan_flat, listing, print.
  intros Hwf Hscan r Hr. revert Hscan.
  destruct (root ≫= resolve) as [n|] eqn:Hroot, recursive,
    (String.eqb root_dir ""); io_unfold;
    try (intros ?; simplify_eq; by apply elem_of_nil in Hr).
  - intros ?; simplify_eq.
    apply walk_in_dir in Hr as (comps & name & c & Hin & Hd & ->).
    destruct (in_dir_valid _ _ _ _ Hwf Hin) as [Hv _].
    exists n, comps, c. cbn [filename relative_path full_path app].
    rewrite rel_path_of_valid by done.
    split; [done|]. split; [done|]. split; [done|]. split; [done|].
    split; [by apply join_slash_empty|].
    by rewrite foldl_path_join_rel.
  - destruct n as [ | | |[] es]; cbn;
      try (intros ?; simplify_eq; by apply elem_of_nil in Hr).
    intros ?; simplify_eq.
    apply list_elem_of_In, in_flat_map in Hr as ([name c] & Hin%list_elem_of_In & Hr).
    unfold flat_record in Hr.
    destruct (isfile c) eqn:Hf; cbn in Hr; [|by destruct Hr].
    destruct (_is_valid_image name); cbn in Hr; [|by destruct Hr].
    destruct Hr as [<-|[]]. exists (Dir true es), [], c. cbn.
    split; [done|]. split; [by constructor|]. split; [|done].
    unfold isfile in Hf. unfold is_dir. by destruct (resolve c) as [[]|].
Qed.

(** *** Every record has its own [full_path] *)

Lemma walk_entries_elem dirpath rel es r :
  r ∈ walk_entries dirpath rel es →
  ∃ d child, (d, child) ∈ es ∧ r ∈ walk (path_join dirpath d) (rel ++ [d]) child.
Proof.
  induction es as [|[d child] es IH]; [by intros ?%elem_of_nil|].
  cbn [walk_entries]. rewrite elem_of_app. intros [Hr|Hr].
  - destruct (is_dir child && negb (islink child)); [|by apply elem_of_nil in Hr].
    exists d, child. split; [left|done].
  - destruct (IH Hr) as (d' & child' & Hin & Hr'). exists d', child'.
    split; [by right|done].
Qed.

Lemma walk_prefix n dirpath rel r :
  wf_node n = true → r ∈ walk dirpath rel n →
  ∃ y, full_path r = path_pre dirpath +:+ y.
Proof.
  intros Hwf (comps & name & c & Hin & _ & ->)%walk_in_dir.
  destruct (in_dir_valid _ _ _ _ Hwf Hin) as [Hv Hname].
  cbn [full_path]. rewrite path_join_pre by by apply valid_name_startswith.
  destruct comps as [|d rest]; [by eexists|].
  rewrite foldl_path_join by done.
  unfold path_pre at 1.
  destruct (_ || _); rewrite !app_assoc_s; by eexists.
Qed.

Lemma walk_child_prefix child dirpath d rel r :
  valid_name d = true → wf_node child = true →
  r ∈ walk (path_join dirpath d) rel child →
  ∃ y, full_path r = path_pre dirpath +:+ d +:+ "/" +:+ y.
Proof.
  intros Hd Hwf [y Hy]%walk_prefix; [|done].
  rewrite (path_join_pre dirpath d) in Hy by by apply valid_name_startswith.
  rewrite path_pre_join in Hy by done. rewrite !app_assoc_s in Hy. by exists y.
Qed.

Lemma records_here_NoDup dirpath rel es :
  NoDup es.*1 → Forall (λ e, valid_name e.1 = true) es →
  NoDup (full_path <$> records_here dirpath rel es).
Proof.
  intros Hnd Hv. induction es as [|[name c] es IH]; [constructor|].
  apply NoDup_cons in Hnd as [Hname Hnd]. apply Forall_cons in Hv as [Hvn Hv].
  unfold records_here. cbn [flat_map]. fold (records_here dirpath rel es).
  rewrite fmap_app. apply NoDup_app. split; [|split; [|by apply IH]].
  - destruct (_ && _); cbn; [|constructor].
    apply NoDup_singleton.
  - intros p Hp Hp'.
    destruct (negb (is_dir c) && _is_valid_image name); cbn in Hp;
      [|by apply elem_of_nil in Hp].
    apply list_elem_of_singleton in Hp as ->.
    apply list_elem_of_fmap in Hp' as (r & Hr & Hin).
    apply records_here_elem in Hin as (name' & c' & Hin & _ & ->).
    cbn [full_path] in Hr.
    rewrite Forall_forall in Hv. pose proof (Hv _ Hin) as Hvn'.
    apply valid_name_startswith in Hvn, Hvn'. cbn [fst] in *.
    rewrite !path_join_pre in Hr by done.
    apply (inj _) in Hr as ->. apply Hname.
    apply list_elem_of_fmap. by exists (name', c').
Qed.

Lemma walk_NoDup n :
  wf_node n = true → ∀ dirpath rel, NoDup (full_path <$> walk dirpath rel n).
Proof.
  induction n as [ | | t | listable es IH] using node_ind_entries;
    intros Hwf dirpath rel; try constructor.
  destruct listable; [|constructor].
  apply wf_node_Dir in Hwf as [Hnd Hall].
  assert (Forall (λ e, valid_name e.1 = true) es) as Hv.
  { eapply Forall_impl; [exact Hall|]. by intros ? [? _]. }
  rewrite walk_Dir, fmap_app. apply NoDup_app. split; [|split].
  - by apply records_here_NoDup.
  - intros p (r & -> & Hr)%list_elem_of_fmap (r' & Hp & Hr')%list_elem_of_fmap.
    apply records_here_elem in Hr as (name & c & Hin & _ & ->).
    apply walk_entries_elem in Hr' as (d & child & Hin' & Hr').
    rewrite Forall_forall in Hall.
    destruct (Hall _ Hin) as [Hname _]. destruct (Hall _ Hin') as [Hd Hc].
    cbn [fst snd] in *.
    apply walk_child_prefix in Hr' as [y Hy]; [|done..].
    cbn [full_path] in Hp. rewrite Hy in Hp.
    rewrite path_join_pre in Hp by by apply valid_name_startswith.
    apply (inj _) in Hp.
    apply valid_name_inv in Hname as (_ & Hs & _).
    rewrite Hp, !has_slash_app in Hs. cbn in Hs. by rewrite orb_true_r in Hs.
  - clear Hv. induction es as [|[d child] es IHes]; [constructor|].
    apply Forall_cons in IH as [IHc IH]. apply Forall_cons in Hall as [[Hd Hc] Hall].
    apply NoDup_cons in Hnd as [Hdn Hnd]. cbn [fst snd] in *.
    cbn [walk_entries]. rewrite fmap_app. apply NoDup_app. split; [|split].
    + destruct (_ && _); [by apply IHc|constructor].
    + intros p Hp (r' & Hp' & Hr')%list_elem_of_fmap.
      destruct (is_dir child && negb (islink child)); [|by apply elem_of_nil in Hp].
      apply list_elem_of_fmap in Hp as (r & -> & Hr).
      apply walk_child_prefix in Hr as [y Hy]; [|done..].
      apply walk_entries_elem in Hr' as (d' & child' & Hin' & Hr').
      rewrite Forall_forall in Hall. destruct (Hall _ Hin') as [Hd' Hc'].
      cbn [fst snd] in *.
      apply walk_child_prefix in Hr' as [y' Hy']; [|done..].
      rewrite Hy, Hy' in Hp'. apply (inj _) in Hp'.
      apply slash_split_inj in Hp' as [-> _];
        [|by apply valid_name_inv in Hd as (_ & ? & _)
         |by apply valid_name_inv in Hd' as (_ & ? & _)].
      apply Hdn. apply list_elem_of_fmap. by exists (d', child').
    + by apply IHes.
Qed.

(** *** The enumeration order only permutes the records *)

Scheme same_tree_mut := Minimality for same_tree Sort Prop
  with same_entries_mut := Minimality for same_entries Sort Prop.

Lemma same_tree_kind n1 n2 :
  same_tree n1 n2 →
  is_dir n1 = is_dir n2 ∧ isfile n1 = isfile n2 ∧ islink n1 = islink n2.
Proof. by destruct 1. Qed.

Lemma flat_map_middle {A B} (f : A → list B) l1 x l2 :
  flat_map f (l1 ++ x :: l2) ≡ₚ f x ++ flat_map f (l1 ++ l2).
Proof.
  rewrite !flat_map_app. cbn [flat_map].
  rewrite !(assoc_L (++)). f_equiv. apply Permutation_app_comm.
Qed.

(** A function of the entries that looks at a node only through its kind
    gives the same records, up to their order. *)
Lemma same_entries_flat_map {B} (f : string * node → list B) es1 es2 :
  (∀ name c1 c2, same_tree c1 c2 → f (name, c1) = f (name, c2)) →
  same_entries es1 es2 → flat_map f es1 ≡ₚ flat_map f es2.
Proof.
  intros Hf. induction 1 as [|name c1 c2 es1 es2a es2b Hc _ IH]; [done|].
  rewrite flat_map_middle. cbn [flat_map]. rewrite (Hf _ _ _ Hc). by f_equiv.
Qed.

Lemma walk_entries_flat_map dirpath rel es :
  walk_entries dirpath rel es
  = flat_map (λ '(d, child),
                if is_dir child && negb (islink child)
                then walk (path_join dirpath d) (rel ++ [d]) child
                else []) es.
Proof. induction es as [|[d c] es IH]; [done|]. cbn. by rewrite IH. Qed.

Lemma walk_same_tree n1 n2 :
  same_tree n1 n2 → ∀ dirpath rel, walk dirpath rel n1 ≡ₚ walk dirpath rel n2.
Proof.
  revert n1 n2.
  apply (same_tree_mut
    (λ n1 n2, ∀ dirpath rel, walk dirpath rel n1 ≡ₚ walk dirpath rel n2)
    (λ es1 es2, ∀ dirpath rel,
       walk_entries dirpath rel es1 ≡ₚ walk_entries dirpath rel es2));
    try done.
  - intros [] es1 es2 Hes IH dirpath rel; [|done].
    rewrite !walk_Dir. f_equiv; [|apply IH].
    apply same_entries_flat_map; [|done].
    intros name c1 c2 (-> & _)%same_tree_kind. done.
  - intros name c1 c2 es1 es2a es2b Hc IHc Hes IH dirpath rel.
    rewrite (walk_entries_flat_map _ _ (es2a ++ _)), flat_map_middle.
    rewrite <-walk_entries_flat_map. cbn [walk_entries].
    destruct (same_tree_kind _ _ Hc) as (-> & _ & ->).
    f_equiv; [|apply IH]. destruct (_ && _); [apply IHc|done].
Qed.

End ScannerFacts.

(** ** The sort *)

Section SortFacts.
Context {A : Type} (key : A → string).

Lemma insert_by_perm x l : insert_by key x l ≡ₚ x :: l.
Proof.
  induction l as [|y l IH]; [done|]. cbn.
  destruct (String.leb (key x) (key y)); [done|].
  rewrite IH. apply perm_swap.
Qed.

Lemma sort_by_perm l : sort_by key l ≡ₚ l.
Proof.
  induction l as [|x l IH]; [done|]. cbn.
  by rewrite insert_by_perm, IH.
Qed.

Lemma insert_by_sorted x l :
  StronglySorted (key_le key) l → StronglySorted (key_le key) (insert_by key x l).
Proof.
  induction 1 as [|y l Hl IH Hy]; cbn; [by repeat constructor|].
  destruct (String.leb (key x) (key y)) eqn:Hxy.
  - constructor; [by constructor|]. constructor.
    + unfold key_le, String.le. by rewrite Hxy.
    + eapply Forall_impl; [exact Hy|]. intros z Hz.
      unfold key_le in *. etrans; [|exact Hz].
      unfold String.le. by rewrite Hxy.
  - constructor; [done|].
    rewrite insert_by_perm. constructor; [|done].
    unfold key_le. destruct (total String.le (key x) (key y)) as [H|H]; [|done].
    unfold String.le in H. by rewrite Hxy in H.
Qed.

Lemma sort_by_sorted l : StronglySorted (key_le key) (sort_by key l).
Proof.
  induction l as [|x l IH]; [constructor|]. cbn. by apply insert_by_sorted.
Qed.

Lemma NoDup_key_inj l x y :
  NoDup (key <$> l) → x ∈ l → y ∈ l → key x = key y → x = y.
Proof.
  induction l as [|z l IH]; [by intros _ ?%elem_of_nil|].
  rewrite fmap_cons, NoDup_cons, !elem_of_cons.
  intros [Hz Hnd] [->|Hx] [->|Hy] Hk; [done| | |by apply IH].
  - destruct Hz. rewrite Hk. by apply list_elem_of_fmap_2.
  - destruct Hz. rewrite <-Hk. by apply list_elem_of_fmap_2.
Qed.

(** The sort of a list whose keys are pairwise different does not depend
    on the order of the list. *)
Lemma sort_by_unique l1 l2 :
  l1 ≡ₚ l2 → NoDup (key <$> l1) → sort_by key l1 = sort_by key l2.
Proof.
  intros Hp Hnd.
  apply (StronglySorted_unique_strong (key_le key)); [|apply sort_by_sorted..|].
  - intros x1 x2 Hx1 Hx2 H12 H21.
    rewrite sort_by_perm in Hx1. rewrite sort_by_perm, <-Hp in Hx2.
    apply (NoDup_key_inj l1); [done..|].
    by apply (anti_symm String.le).
  - by rewrite !sort_by_perm.
Qed.
End SortFacts.

(** ** The scan of the session controller *)

Section ScanSession.
Import Scanner Session.

Arguments _is_valid_image : simpl never.
Arguments path_join : simpl never.
Arguments relpath : simpl never.
Arguments sort_by : simpl never.
Arguments walk : simpl never.

Lemma scan_recursive_eq root_dir root out :
  scan root_dir root true out
  = (Ret (if String.eqb root_dir "" then []
          else match root ≫= resolve with
               | Some n => walk root_dir [] n
               | None => []
               end), out).
Proof. reflexivity. Qed.

Lemma scan_flat_eq root_dir root out :
  scan root_dir root false out
  = match listing root_dir root with
    | Ret entries => (Ret (flat_map (flat_record root_dir) entries), out)
    | Raise e =>
        if flat_catches e
        then (Ret [], out ++ ["Error scanning directory " +:+ root_dir +:+ ": "
                              +:+ exn_str e])
        else (Raise e, out)
    end.
Proof.
  unfold scan, _scan_flat, print. io_unfold.
  by destruct (listing root_dir root).
Qed.

(** In recursive mode the scanner never prints. *)
Lemma scan_recursive_silent root_dir root out :
  missing_or_unreadable root = true →
  scan root_dir root true out = (Ret [], out).
Proof.
  unfold missing_or_unreadable. rewrite scan_recursive_eq.
  destruct (String.eqb root_dir ""); [done|].
  by destruct (root ≫= resolve) as [[ | | |[] es]|].
Qed.

(** The part of C7 that holds: in flat mode a missing or unreadable root
    gives no record and one printed line, and nothing is raised. *)
Lemma scan_flat_missing root_dir root out :
  missing_or_unreadable root = true →
  ∃ line, scan root_dir root false out = (Ret [], out ++ [line]).
Proof.
  unfold missing_or_unreadable. rewrite scan_flat_eq. unfold listing.
  destruct (String.eqb root_dir ""); [by eexists|].
  destruct (root ≫= resolve) as [[ | | |[] es]|]; try done; by eexists.
Qed.

(** C7 (the code departs from it): in recursive mode a root that is
    missing, and a root that cannot be listed, give an empty result and
    nothing is raised, but no error is logged: the console is left as it
    was, while the flat scan of the same roots prints a line. *)
Theorem C7_recursive_scan_logs_nothing :
  missing_or_unreadable None = true
  ∧ missing_or_unreadable (Some (Dir false [("a.png", File)])) = true
  ∧ scan "/photos/in" None true [] = (Ret [], [])
  ∧ scan "/photos/in" (Some (Dir false [("a.png", File)])) true [] = (Ret [], [])
  ∧ scan "/photos/in" None false []
    = (Ret [], ["Error scanning directory /photos/in: [Errno 2] No such file or directory: '/photos/in'"]).
Proof. repeat split; vm_compute; reflexivity. Qed.

Lemma flat_record_NoDup root_dir es :
  NoDup es.*1 → Forall (λ e, valid_name e.1 = true) es →
  NoDup (full_path <$> flat_map (flat_record root_dir) es).
Proof.
  intros Hnd Hv. induction es as [|[name c] es IH]; [constructor|].
  apply NoDup_cons in Hnd as [Hname Hnd]. apply Forall_cons in Hv as [Hvn Hv].
  cbn [flat_map]. rewrite fmap_app. apply NoDup_app.
  split; [|split; [|by apply IH]].
  - unfold flat_record. destruct (_ && _); cbn; [|constructor].
    apply NoDup_singleton.
  - intros p Hp (r & Hr & Hin)%list_elem_of_fmap.
    unfold flat_record in Hp.
    destruct (isfile c && _is_valid_image name); cbn in Hp;
      [|by apply elem_of_nil in Hp].
    apply list_elem_of_singleton in Hp as ->.
    apply list_elem_of_In, in_flat_map in Hin
      as ([name' c'] & Hin%list_elem_of_In & Hr').
    unfold flat_record in Hr'.
    destruct (isfile c' && _is_valid_image name'); cbn in Hr'; [|by destruct Hr'].
    destruct Hr' as [<-|[]]. cbn [full_path] in Hr.
    rewrite Forall_forall in Hv. pose proof (Hv _ Hin) as Hvn'.
    apply valid_name_startswith in Hvn, Hvn'. cbn [fst] in *.
    rewrite !path_join_pre in Hr by done.
    apply (inj _) in Hr as ->. apply Hname.
    apply list_elem_of_fmap. by exists (name', c').
Qed.

(** The records of a well-formed tree have pairwise different paths. *)
Lemma scan_NoDup root_dir root recursive out l out' :
  wf_root root = true →
  scan root_dir root recursive out = (Ret l, out') →
  NoDup (full_path <$> l).
Proof.
  unfold wf_root. intros Hwf. destruct recursive.
  - rewrite scan_recursive_eq. intros ?; simplify_eq.
    destruct (String.eqb root_dir ""); [constructor|].
    destruct (root ≫= resolve); [by apply walk_NoDup|constructor].
  - rewrite scan_flat_eq. unfold listing.
    destruct (String.eqb root_dir ""); cbn;
      [intros ?; simplify_eq; constructor|].
    destruct (root ≫= resolve) as [[ | | |[] es]|]; cbn;
      intros ?; simplify_eq; try constructor.
    apply wf_node_Dir in Hwf as [Hnd Hall]. apply flat_record_NoDup; [done|].
    eapply Forall_impl; [exact Hall|]. by intros ? [? _].
Qed.

(** Two enumerations of the same tree give the same outcome, up to the
    order of the records. *)
Lemma scan_same_root root_dir r1 r2 recursive out :
  same_root r1 r2 →
  match scan root_dir r1 recursive out, scan root_dir r2 recursive out with
  | (Ret l1, o1), (Ret l2, o2) => l1 ≡ₚ l2 ∧ o1 = o2
  | (Raise e1, o1), (Raise e2, o2) => e1 = e2 ∧ o1 = o2
  | _, _ => False
  end.
Proof.
  unfold same_root. intros Hsame. destruct recursive.
  - rewrite !scan_recursive_eq. split; [|done].
    destruct (String.eqb root_dir ""); [done|].
    destruct (r1 ≫= resolve), (r2 ≫= resolve); try done.
    by apply walk_same_tree.
  - rewrite !scan_flat_eq. unfold listing.
    destruct (String.eqb root_dir ""); [done|].
    destruct (r1 ≫= resolve), (r2 ≫= resolve); try done.
    destruct Hsame as [ | | |[] es1 es2 Hes]; try done. split; [|done].
    apply same_entries_flat_map; [|done].
    intros name c1 c2 (_ & Hf & _)%same_tree_kind. unfold flat_record.
    by rewrite Hf.
Qed.

(** What [scan] can raise: only the error of a flat scan of a root that
    is not a directory. *)
Lemma scan_raises root_dir root recursive out e out' :
  scan root_dir root recursive out = (Raise e, out') →
  recursive = false ∧ out' = out
  ∧ is_FileNotFoundError e = false
  ∧ ∃ n, root ≫= resolve = Some n ∧ ∀ listable es, n ≠ Dir listable es.
Proof.
  destruct recursive; [by rewrite scan_recursive_eq|].
  rewrite scan_flat_eq. unfold listing.
  destruct (String.eqb root_dir ""); [done|].
  destruct (root ≫= resolve) as [[ | | t|[] es]|] eqn:Hroot; cbn;
    intros ?; simplify_eq; (split; [done|]); (split; [done|]);
    (split; [done|]); eexists; (split; [done|]); done.
Qed.

(** [scan_and_sort], in terms of the outcome of the scan. *)
Lemma scan_and_sort_eq tree s :
  scan_and_sort tree s
  = match scan (src_dir s) tree (recursive_loading s) (stdout (ui s)) with
    | (Ret l, out) => (Ret true, after_scan out (sort_by full_path l) s)
    | (Raise e, out) =>
        if is_FileNotFoundError e
        then (Ret false,
              snd (messagebox "showerror" "Error"
                     "Source folder not found. Did you move it?"
                     (after_scan out (image_files s) s)))
        else (Raise e, after_scan out (image_files s) s)
    end.
Proof.
  unfold scan_and_sort, run_scan, messagebox. io_unfold.
  destruct (scan _ _ _ _) as [[l|e] out]; cbn; [done|].
  destruct (is_FileNotFoundError e); cbn; [done|]. by destruct s.
Qed.

(** C2: the scan step of the session controller either obtains the
    scanner's records sorted ascending by [full_path] (a permutation of
    what the scanner returned), or raises because, in flat mode, the root
    is not a directory; and for a well-formed tree, any other enumeration
    order of the same tree leads to the very same state, hence to the same
    ordered sequence. *)
Theorem C2_scan_sorted_deterministic tree s :
  match scan_and_sort tree s with
  | (Ret scanned, s') =>
      scanned = true
      ∧ (∃ l out,
           scan (src_dir s) tree (recursive_loading s) (stdout (ui s)) = (Ret l, out)
           ∧ image_files s' ≡ₚ l)
      ∧ StronglySorted (key_le full_path) (image_files s')
      ∧ ∀ tree2, wf_root tree = true → same_root tree tree2 →
                 scan_and_sort tree2 s = (Ret true, s')
  | (Raise e, _) =>
      recursive_loading s = false
      ∧ ∃ n, tree ≫= resolve = Some n ∧ ∀ listable es, n ≠ Dir listable es
  end.
Proof.
  rewrite scan_and_sort_eq.
  destruct (scan _ tree _ _) as [[l|e] out] eqn:Hscan.
  - split; [done|]. split; [|split].
    + exists l, out. split; [done|]. cbn. apply sort_by_perm.
    + cbn. apply sort_by_sorted.
    + intros tree2 Hwf Hsame. rewrite scan_and_sort_eq.
      pose proof (scan_same_root (src_dir s) tree tree2 (recursive_loading s)
                    (stdout (ui s)) Hsame) as H.
      rewrite Hscan in H.
      destruct (scan _ tree2 _ _) as [[l2|e2] out2]; [|done].
      destruct H as [Hp <-]. f_equal. f_equal. symmetry.
      apply sort_by_unique; [done|]. by eapply scan_NoDup.
  - apply scan_raises in Hscan as (Hrec & -> & -> & Hn). done.
Qed.

End ScanSession.

(** ** The session: moves and navigation *)

Section SessionFacts.
Import Scanner Session.
Local Open Scope nat_scope.

Arguments path_join : simpl never.
Arguments splitext : simpl never.
Arguments candidate : simpl never.
Arguments loop_bound : simpl never.
Arguments path_exists : simpl never.
Arguments fire_after : simpl never.

(** *** The renaming loop *)

Lemma startswith_base base x y :
  startswith (base +:+ "_" +:+ x) "/" = startswith (base +:+ "_" +:+ y) "/".
Proof. rewrite !startswith_slash. by destruct base. Qed.

Lemma path_join_inj_same_start a b1 b2 :
  startswith b1 "/" = startswith b2 "/" →
  path_join a b1 = path_join a b2 → b1 = b2.
Proof.
  unfold path_join. intros <-. destruct (startswith b1 "/"); [done|].
  destruct (_ || _); intros H.
  - by apply (inj _) in H.
  - by apply (inj _), (inj _) in H.
Qed.

(** Different counters give different candidate names. *)
Lemma candidate_inj final_dest base ext :
  Inj (=) (=) (candidate final_dest base ext).
Proof.
  intros k1 k2 H. unfold candidate in H.
  apply path_join_inj_same_start in H; [|apply startswith_base].
  apply (inj _), (inj _) in H. apply app_inj_r_s in H.
  by apply (inj pretty) in H.
Qed.

Lemma path_exists_elem f p :
  path_exists f p = true ↔ p ∈ dirs f ∪ dom (files f).
Proof.
  unfold path_exists. rewrite orb_true_iff, !bool_decide_eq_true, elem_of_union.
  by rewrite elem_of_dom.
Qed.

Lemma path_exists_elem_false f p :
  path_exists f p = false → (p ∉ dirs f) ∧ files f !! p = None.
Proof.
  unfold path_exists. rewrite orb_false_iff, !bool_decide_eq_false.
  intros [? H]. split; [done|]. by apply eq_None_not_Some.
Qed.

(** Pigeonhole: one of the first [n + 1] candidates is free when [n]
    paths exist. *)
Lemma free_candidate f final_dest base ext :
  ∃ k, 1 ≤ k < loop_bound f
       ∧ path_exists f (candidate final_dest base ext k) = false.
Proof.
  set (n := size (dirs f) + size (dom (files f))).
  set (cands := candidate final_dest base ext <$> seq 1 (S n)).
  destruct (decide (Forall (λ p, path_exists f p = true) cands)) as [Hall|Hex].
  - exfalso.
    assert (NoDup cands) as Hnd.
    { apply NoDup_fmap_2; [apply candidate_inj|apply NoDup_seq]. }
    assert (list_to_set cands ⊆ dirs f ∪ dom (files f)) as Hsub.
    { intros p Hp%elem_of_list_to_set. rewrite Forall_forall in Hall.
      by apply path_exists_elem, Hall. }
    apply subseteq_size in Hsub.
    rewrite size_list_to_set in Hsub by done.
    unfold cands in Hsub. rewrite length_fmap, length_seq in Hsub.
    rewrite size_union_alt in Hsub.
    assert (dom (files f) ∖ dirs f ⊆ dom (files f)) as Hle by set_solver.
    apply subseteq_size in Hle. unfold n in Hsub. lia.
  - apply not_Forall_Exists, Exists_exists in Hex as (p & Hp & Hfree); [|apply _].
    apply list_elem_of_fmap in Hp as (k & -> & Hk%elem_of_seq).
    exists k. unfold loop_bound. fold n. split; [lia|].
    cbn in Hfree. by destruct (path_exists _ _).
Qed.

(** The loop stops at the first free candidate. *)
Lemma first_free_spec f final_dest base ext fuel : ∀ dst counter n,
  (∃ k, counter ≤ k < counter + n
        ∧ path_exists f (candidate final_dest base ext k) = false) →
  n < fuel →
  path_exists f dst = true →
  ∃ k, counter ≤ k
       ∧ first_free fuel f final_dest base ext dst counter
         = candidate final_dest base ext k
       ∧ path_exists f (candidate final_dest base ext k) = false
       ∧ ∀ j, counter ≤ j < k →
              path_exists f (candidate final_dest base ext j) = true.
Proof.
  induction fuel as [|fuel IH]; intros dst counter n (k & Hk & Hfree) Hn Hdst; [lia|].
  cbn [first_free]. rewrite Hdst.
  destruct (path_exists f (candidate final_dest base ext counter)) eqn:Hc.
  - destruct (IH (candidate final_dest base ext counter) (S counter) (n - 1))
      as (k' & Hk' & Heq & Hfree' & Hbelow); [|lia|done|].
    { exists k. split; [|done].
      destruct (decide (k = counter)) as [->|]; [congruence|lia]. }
    exists k'. split; [lia|]. split; [done|]. split; [done|].
    intros j Hj. destruct (decide (j = counter)) as [->|]; [done|].
    apply Hbelow. lia.
  - exists counter. split; [done|]. split; [|split; [done|intros; lia]].
    destruct fuel; [done|]. cbn [first_free]. by rewrite Hc.
Qed.

(** The bound of the loop is never what stops it: the path it returns is
    free. *)
Lemma first_free_is_free f final_dest base ext dst :
  path_exists f
    (first_free (loop_bound f) f final_dest base ext dst 1) = false.
Proof.
  destruct (path_exists f dst) eqn:Hdst.
  - destruct (free_candidate f final_dest base ext) as (k & Hk & Hfree).
    destruct (first_free_spec f final_dest base ext (loop_bound f) dst 1
                (loop_bound f - 1)) as (k' & _ & -> & Hfree' & _); try done.
    + exists k. split; [lia|done].
    + lia.
  - unfold loop_bound. rewrite Nat.add_comm. cbn [Nat.add first_free].
    by rewrite Hdst.
Qed.

Lemma first_free_form f final_dest base ext fuel : ∀ dst counter,
  first_free fuel f final_dest base ext dst counter = dst
  ∨ ∃ k, first_free fuel f final_dest base ext dst counter
         = candidate final_dest base ext k.
Proof.
  induction fuel as [|fuel IH]; intros dst counter; [by left|].
  cbn [first_free]. destruct (path_exists f dst); [|by left].
  destruct (IH (candidate final_dest base ext counter) (S counter)) as [->|[k ->]];
    right; by eexists.
Qed.

Lemma first_free_no_collision f final_dest base ext dst :
  path_exists f dst = false →
  first_free (loop_bound f) f final_dest base ext dst 1 = dst.
Proof.
  intros H. unfold loop_bound. rewrite Nat.add_comm. cbn [Nat.add first_free].
  by rewrite H.
Qed.

(** More tests than the bound allows change nothing: the loop has
    stopped before. *)
Lemma first_free_enough_fuel f final_dest base ext dst fuel :
  loop_bound f ≤ fuel →
  first_free fuel f final_dest base ext dst 1
  = first_free (loop_bound f) f final_dest base ext dst 1.
Proof.
  intros Hfuel. destruct (path_exists f dst) eqn:Hdst.
  - destruct (free_candidate f final_dest base ext) as (k0 & Hk0 & Hfree0).
    destruct (first_free_spec f final_dest base ext (loop_bound f) dst 1
                (loop_bound f - 1)) as (k1 & Hk1 & -> & Hfree1 & Hbelow1);
      [exists k0; split; [lia|done]|lia|done|].
    destruct (first_free_spec f final_dest base ext fuel dst 1
                (loop_bound f - 1)) as (k2 & Hk2 & -> & Hfree2 & Hbelow2);
      [exists k0; split; [lia|done]|lia|done|].
    f_equal. destruct (Nat.lt_trichotomy k1 k2) as [Hlt|[->|Hlt]]; [|done|].
    + rewrite Hbelow2 in Hfree1 by lia. done.
    + rewrite Hbelow1 in Hfree2 by lia. done.
  - rewrite first_free_no_collision by done.
    destruct fuel; [unfold loop_bound in Hfuel; lia|].
    cbn [first_free]. by rewrite Hdst.
Qed.

(** *** The file-system calls *)

Lemma rename_Ret src dst s s' :
  rename src dst s = (Ret tt, s') →
  ∃ c, files (fs s) !! src = Some c
       ∧ move_errors (fs s) !! dst = None
       ∧ s' = set_fs (λ f, Fs (<[dst := c]> (delete src (files f))) (dirs f)
                              (mkdir_errors f) (move_errors f)) s.
Proof.
  unfold rename. destruct (files (fs s) !! src) as [c|]; [|done].
  destruct (move_errors (fs s) !! dst); [done|].
  intros ?; simplify_eq. by exists c.
Qed.

Lemma rename_Raise src dst s e s' :
  rename src dst s = (Raise e, s') →
  s' = s ∧ is_OSError e = true
  ∧ (files (fs s) !! src = None ∨ is_Some (move_errors (fs s) !! dst)).
Proof.
  unfold rename. destruct (files (fs s) !! src) as [c|].
  - destruct (move_errors (fs s) !! dst) eqn:E; [|done].
    intros ?; simplify_eq. split; [done|]. split; [done|by right].
  - intros ?; simplify_eq. split; [done|]. split; [done|by left].
Qed.

Lemma makedirs_Ret p exist_ok s s' :
  makedirs p exist_ok s = (Ret tt, s') →
  ∃ added : gset string,
    s' = set_fs (λ f, Fs (files f) (dirs f ∪ added) (mkdir_errors f)
                         (move_errors f)) s
    ∧ p ∈ dirs (fs s) ∪ added
    ∧ added ⊆ list_to_set (ancestors p) ∪ {[p]}.
Proof.
  unfold makedirs. case_bool_decide as Hp.
  - destruct exist_ok; [|done]. intros ?; simplify_eq.
    exists ∅. split; [|set_solver].
    destruct s' as [[]]; cbn. unfold set_fs. cbn. f_equal. f_equal. set_solver.
  - case_bool_decide; [done|]. destruct (existsb _ _); [done|].
    destruct (mkdir_errors (fs s) !! p); [done|]. intros ?; simplify_eq.
    exists (list_to_set (ancestors p) ∪ {[p]}). split; [|set_solver].
    unfold set_fs. cbn. f_equal. f_equal. set_solver.
Qed.

Lemma makedirs_Raise p exist_ok s e s' :
  makedirs p exist_ok s = (Raise e, s') → s' = s ∧ is_OSError e = true.
Proof.
  unfold makedirs. repeat case_bool_decide; repeat case_match;
    intros ?; by simplify_eq.
Qed.

Lemma makedirs_exists p s :
  p ∈ dirs (fs s) → makedirs p true s = (Ret tt, s).
Proof. intros H. unfold makedirs. by rewrite bool_decide_eq_true_2. Qed.

(** *** move_file *)

(** [move_file], step by step: the directory, the free name, the move. *)
Lemma move_file_unfold destination r s :
  move_file destination r s
  = let fd := final_dest_of destination r in
    let '(base, ext) := splitext (filename r) in
    match (if String.eqb (relative_path r) "" then (Ret tt, s)
           else makedirs fd true s) with
    | (Raise e, s1) => (Raise e, s1)
    | (Ret _, s1) =>
        let dst := first_free (loop_bound (fs s1)) (fs s1) fd base ext
                              (path_join fd (filename r)) 1 in
        match rename (full_path r) dst s1 with
        | (Raise e, s2) => (Raise e, s2)
        | (Ret _, s2) => print (moved_line destination r) s2
        end
    end.
Proof.
  unfold move_file, final_dest_of, moved_line, shutil_move.
  destruct (splitext (filename r)) as [base ext].
  destruct (String.eqb (relative_path r) "") eqn:Hrel; io_unfold.
  - pose proof (first_free_is_free (fs s) destination base ext
                  (path_join destination (filename r))) as Hfree.
    apply path_exists_elem_false in Hfree as [Hd _].
    rewrite bool_decide_eq_false_2 by done.
    by destruct (rename _ _ s) as [[[]|e] s2].
  - destruct (makedirs _ true s) as [[[]|e] s1]; [|done].
    pose proof (first_free_is_free (fs s1) (path_join destination (relative_path r))
                  base ext
                  (path_join (path_join destination (relative_path r)) (filename r)))
      as Hfree.
    apply path_exists_elem_false in Hfree as [Hd _].
    rewrite bool_decide_eq_false_2 by done.
    by destruct (rename _ _ s1) as [[[]|e] s2].
Qed.

(** [move_file] only raises what the handler of [move_and_advance]
    catches. *)
Lemma move_file_raises destination r s e s' :
  move_file destination r s = (Raise e, s') → is_OSError e = true.
Proof.
  rewrite move_file_unfold. cbv zeta.
  destruct (splitext (filename r)) as [base ext].
  destruct (if String.eqb (relative_path r) "" then _ else _) as [[[]|e1] s1] eqn:Hmk.
  - destruct (rename _ _ s1) as [[[]|e2] s2] eqn:Hmv.
    + unfold print. io_unfold. done.
    + intros ?; simplify_eq. by apply rename_Raise in Hmv as (_ & ? & _).
  - intros ?; simplify_eq.
    destruct (String.eqb (relative_path r) ""); [done|].
    by apply makedirs_Raise in Hmk as [_ ?].
Qed.

(** C4: when the destination path of a record is taken (the directory it
    lies in then exists), there is a first counter [k >= 1] whose
    candidate name [base_k ext] is free, all the candidates before it
    being taken; whatever the outcome of the move, every file other than
    the source keeps its path and content; the move succeeds exactly when
    the source file is there and the operating system does not refuse the
    move to that candidate; and on success the source's content is at
    that candidate and no longer at the source. *)
Theorem C4_collision_first_free destination r s :
  let fd := final_dest_of destination r in
  let base := (splitext (filename r)).1 in
  let ext := (splitext (filename r)).2 in
  (relative_path r ≠ "" → fd ∈ dirs (fs s)) →
  path_exists (fs s) (path_join fd (filename r)) = true →
  ∃ k, 1 ≤ k
    ∧ (∀ j, 1 ≤ j < k → path_exists (fs s) (candidate fd base ext j) = true)
    ∧ path_exists (fs s) (candidate fd base ext k) = false
    ∧ ∀ res s', move_file destination r s = (res, s') →
        (∀ p c, p ≠ full_path r → files (fs s) !! p = Some c →
                files (fs s') !! p = Some c)
        ∧ (res = Ret tt ↔
             is_Some (files (fs s) !! full_path r)
             ∧ move_errors (fs s) !! candidate fd base ext k = None)
        ∧ (res = Ret tt →
             files (fs s') !! candidate fd base ext k
             = files (fs s) !! full_path r
             ∧ files (fs s') !! full_path r = None
             ∧ dirs (fs s') = dirs (fs s)).
Proof.
  intros fd base ext Hdir Hcoll.
  destruct (free_candidate (fs s) fd base ext) as (k0 & Hk0 & Hfree0).
  destruct (first_free_spec (fs s) fd base ext (loop_bound (fs s))
              (path_join fd (filename r)) 1 (loop_bound (fs s) - 1))
    as (k & Hk & Heq & Hfree & Hbelow); [|lia|done|].
  { exists k0. split; [lia|done]. }
  exists k. split; [done|]. split; [done|]. split; [done|].
  intros res s'. rewrite move_file_unfold. cbv zeta.
  fold fd. subst base ext. destruct (splitext (filename r)) as [base ext].
  cbn [fst snd] in *.
  assert ((if String.eqb (relative_path r) "" then (Ret tt, s)
           else makedirs fd true s) = (Ret tt, s)) as ->.
  { destruct (String.eqb_spec (relative_path r) ""); [done|].
    by apply makedirs_exists, Hdir. }
  rewrite Heq.
  apply path_exists_elem_false in Hfree as [Hnd Hnf].
  destruct (rename _ _ s) as [[[]|e] s2] eqn:Hmv.
  - apply rename_Ret in Hmv as (c & Hsrc & Herr & ->).
    unfold print. io_unfold. intros ?; simplify_eq. cbn.
    assert (full_path r ≠ candidate fd base ext k) as Hne by congruence.
    split; [|split; [|intros _; split; [|split]]].
    + intros p c' Hp Hc.
      destruct (decide (p = candidate fd base ext k)) as [->|Hpk]; [congruence|].
      by rewrite lookup_insert_ne, lookup_delete_ne.
    + split; [|done]. intros _. by rewrite Hsrc.
    + by rewrite lookup_insert_eq.
    + by rewrite lookup_insert_ne, lookup_delete_eq.
    + done.
  - apply rename_Raise in Hmv as (-> & _ & Hwhy). intros ?; simplify_eq.
    split; [done|]. split; [|done]. split; [done|].
    intros [[c Hc] Herr]. destruct Hwhy as [Hn|[m Hm]]; congruence.
Qed.

(** *** Where a moved file ends up *)

Lemma ancestors_from_length acc p a :
  a ∈ ancestors_from acc p →
  String.length a < String.length acc + String.length p.
Proof.
  revert acc. induction p as [|c p IH]; intros acc; [by intros ?%elem_of_nil|].
  cbn [ancestors_from String.length]. rewrite elem_of_app. intros [Ha|Ha].
  - destruct (_ && _); [|by apply elem_of_nil in Ha].
    apply list_elem_of_singleton in Ha as ->. lia.
  - apply IH in Ha. rewrite app_length_s in Ha. cbn in Ha. lia.
Qed.

Lemma path_join_longer a name :
  valid_name name = true →
  String.length a < String.length (path_join a name).
Proof.
  intros Hv. rewrite path_join_pre by by apply valid_name_startswith.
  apply valid_name_inv in Hv as (Hne & _).
  rewrite app_length_s. unfold path_pre.
  destruct name; [done|]. destruct (_ || _); rewrite ?app_length_s; cbn; lia.
Qed.

(** Creating a directory and those above it does not create what lies
    under it. *)
Lemma makedirs_keeps_free p name s s1 :
  valid_name name = true →
  makedirs p true s = (Ret tt, s1) →
  path_exists (fs s) (path_join p name) = false →
  path_exists (fs s1) (path_join p name) = false.
Proof.
  intros Hv (added & -> & _ & Hsub)%makedirs_Ret [Hd Hf]%path_exists_elem_false.
  apply not_true_is_false. rewrite path_exists_elem. cbn.
  rewrite !elem_of_union, elem_of_dom. intros [[?|Ha]|[c Hc]]; [done| |congruence].
  apply Hsub in Ha. pose proof (path_join_longer p name Hv) as Hlen.
  apply elem_of_union in Ha as [Ha%elem_of_list_to_set|Ha%elem_of_singleton].
  - apply ancestors_from_length in Ha. cbn in Ha. lia.
  - rewrite Ha in Hlen. lia.
Qed.

(** The name under which the loop leaves the file in its directory. *)
Lemma first_free_name f fd base ext filename :
  ∃ name,
    first_free (loop_bound f) f fd base ext (path_join fd filename) 1
    = path_join fd name
    ∧ (path_exists f (path_join fd filename) = false → name = filename)
    ∧ (name = filename
       ∨ ∃ k : nat, name = base +:+ "_" +:+ pretty k +:+ ext).
Proof.
  destruct (path_exists f (path_join fd filename)) eqn:Hex.
  - destruct (first_free_form f fd base ext (loop_bound f)
                (path_join fd filename) 1) as [Heq|[k Heq]].
    + exists filename. split; [done|]. split; [done|by left].
    + exists (base +:+ "_" +:+ pretty k +:+ ext). split; [done|].
      split; [done|right; by exists k].
  - exists filename. rewrite first_free_no_collision by done.
    split; [done|]. split; [done|by left].
Qed.

(** C8: a record that [move_file] moves ends up in the directory
    [destination/relative_path] when [relative_path] is not empty, a
    directory that exists afterwards (created, with those above it, if it
    was absent), and directly in [destination] when it is empty; its name
    there is [filename] when that path was free, and a candidate
    [base_k ext] of the collision loop otherwise. *)
Theorem C8_structure_preserved destination r s s' :
  valid_name (filename r) = true →
  move_file destination r s = (Ret tt, s') →
  let fd := final_dest_of destination r in
  (relative_path r ≠ "" →
     fd = path_join destination (relative_path r) ∧ fd ∈ dirs (fs s'))
  ∧ (relative_path r = "" → fd = destination)
  ∧ dirs (fs s) ⊆ dirs (fs s')
  ∧ ∃ c name,
      files (fs s) !! full_path r = Some c
      ∧ files (fs s') !! path_join fd name = Some c
      ∧ (path_exists (fs s) (path_join fd (filename r)) = false →
         name = filename r)
      ∧ (name = filename r
         ∨ ∃ k : nat, name = (splitext (filename r)).1 +:+ "_" +:+ pretty k
                             +:+ (splitext (filename r)).2).
Proof.
  intros Hv. rewrite move_file_unfold. cbv zeta.
  unfold final_dest_of.
  destruct (splitext (filename r)) as [base ext]. cbn [fst snd].
  destruct (String.eqb_spec (relative_path r) "") as [Hrel|Hrel].
  - destruct (first_free_name (fs s) destination base ext (filename r))
      as (name & -> & Hfree & Hname).
    destruct (rename _ _ s) as [[[]|e] s2] eqn:Hmv; [|done].
    apply rename_Ret in Hmv as (c & Hsrc & _ & ->).
    unfold print. io_unfold. intros ?; simplify_eq. cbn.
    split; [done|]. split; [done|]. split; [done|].
    exists c, name. by rewrite lookup_insert_eq.
  - set (fd := path_join destination (relative_path r)).
    destruct (makedirs fd true s) as [[[]|e] s1] eqn:Hmk; [|done].
    destruct (first_free_name (fs s1) fd base ext (filename r))
      as (name & -> & Hfree & Hname).
    destruct (rename _ _ s1) as [[[]|e] s2] eqn:Hmv; [|done].
    apply rename_Ret in Hmv as (c & Hsrc & _ & ->).
    unfold print. io_unfold. intros ?; simplify_eq. cbn.
    pose proof (makedirs_keeps_free fd (filename r) s s1 Hv Hmk) as Hkeep.
    apply makedirs_Ret in Hmk as (added & -> & Hin & _). cbn in *.
    split; [done|]. split; [done|]. split; [set_solver|].
    exists c, name. rewrite lookup_insert_eq.
    split; [done|]. split; [done|]. split; [|done].
    intros Hs. by apply Hfree, Hkeep.
Qed.

(** *** Keep and reject *)

(** What [move_file] leaves alone: everything but the file system and the
    console. *)
Lemma move_file_frame destination r s res s1 :
  move_file destination r s = (res, s1) →
  image_files s1 = image_files s ∧ current_index s1 = current_index s
  ∧ keep_dir s1 = keep_dir s ∧ reject_dir s1 = reject_dir s
  ∧ dialogs (ui s1) = dialogs (ui s)
  ∧ pending_show (ui s1) = pending_show (ui s)
  ∧ finished (ui s1) = finished (ui s).
Proof.
  rewrite move_file_unfold. cbv zeta.
  destruct (splitext (filename r)) as [base ext].
  assert ((∃ s0, (if String.eqb (relative_path r) "" then (Ret tt, s)
                  else makedirs (final_dest_of destination r) true s)
                 = (Ret tt, s0)
                 ∧ image_files s0 = image_files s
                 ∧ current_index s0 = current_index s
                 ∧ keep_dir s0 = keep_dir s ∧ reject_dir s0 = reject_dir s
                 ∧ ui s0 = ui s)
          ∨ ∃ e, (if String.eqb (relative_path r) "" then (Ret tt, s)
                  else makedirs (final_dest_of destination r) true s)
                 = (Raise e, s)) as [(s0 & -> & Hs0)|(e & ->)].
  { destruct (String.eqb (relative_path r) ""); [left; by eexists|].
    destruct (makedirs _ true s) as [[[]|e] s0] eqn:Hmk.
    - left. exists s0. split; [done|].
      by apply makedirs_Ret in Hmk as (added & -> & _).
    - right. exists e. by apply makedirs_Raise in Hmk as [-> _]. }
  - destruct Hs0 as (Hi & Hc & Hk & Hr & Hu).
    destruct (rename _ _ s0) as [[[]|e] s2] eqn:Hmv.
    + apply rename_Ret in Hmv as (c & _ & _ & ->).
      unfold print. io_unfold. intros ?; simplify_eq. cbn.
      by rewrite Hi, Hc, Hk, Hr, Hu.
    + apply rename_Raise in Hmv as (-> & _). intros ?; simplify_eq.
      by rewrite Hi, Hc, Hk, Hr, Hu.
  - by intros ?; simplify_eq.
Qed.

(** [move_and_advance] on the active record, in terms of the move. *)
Lemma move_and_advance_eq destination s r :
  image_files s !! current_index s = Some r →
  move_and_advance destination s
  = match move_file destination r s with
    | (Ret _, s1) =>
        schedule_show (set_current_index (current_index s1 + 1) s1)
    | (Raise e, s1) =>
        (Ret tt,
         set_ui (λ u, Ui (stdout u) (dialogs u ++ [move_error_dialog e])
                         (status u) (shown u) (pending_show u)
                         (btn_load_disabled u) (finished u)) s1)
    end.
Proof.
  intros Hr. unfold move_and_advance. rewrite Hr.
  unfold messagebox, move_error_dialog. io_unfold.
  destruct (move_file destination r s) as [[[]|e] s1] eqn:Hmv; cbn; [done|].
  by rewrite (move_file_raises _ _ _ _ _ Hmv).
Qed.

(** Past the last record, the queued [show_current_image] finishes the
    session. *)
Lemma fire_after_finishes s :
  0 < pending_show (ui s) → length (image_files s) ≤ current_index s →
  finished (ui (fire_after s).2) = true.
Proof.
  unfold fire_after. destruct (pending_show (ui s)); [lia|]. intros _ H.
  unfold show_current_image, finish_culling, set_shown, set_status,
    messagebox, root_quit.
  io_unfold. by rewrite lookup_ge_None_2.
Qed.

(** C5: a keep or a reject on the active record returns normally and
    leaves the list of records as it is; the index advances by exactly one
    if and only if the move succeeds.  On success [show_current_image] is
    queued, and when the index has reached the number of records, running
    it finishes the session.  On failure the error is shown in a dialog,
    the index is unchanged and the same record stays active. *)
Theorem C5_advance_iff_moved (keep : bool) s r :
  image_files s !! current_index s = Some r →
  let action := if keep then action_keep else action_reject in
  let destination := if keep then keep_dir s else reject_dir s in
  ∃ s', action s = (Ret tt, s')
    ∧ image_files s' = image_files s
    ∧ (current_index s' = current_index s + 1
       ↔ ∃ s1, move_file destination r s = (Ret tt, s1))
    ∧ match move_file destination r s with
      | (Ret _, s1) =>
          current_index s' = current_index s + 1
          ∧ fs s' = fs s1
          ∧ pending_show (ui s') = S (pending_show (ui s))
          ∧ (current_index s + 1 = length (image_files s) →
             finished (ui (fire_after s').2) = true)
      | (Raise e, s1) =>
          current_index s' = current_index s
          ∧ image_files s' !! current_index s' = Some r
          ∧ fs s' = fs s1
          ∧ dialogs (ui s') = dialogs (ui s) ++ [move_error_dialog e]
          ∧ pending_show (ui s') = pending_show (ui s)
      end.
Proof.
  intros Hr action destination.
  assert (action s = move_and_advance destination s) as ->.
  { subst action destination. unfold action_keep, action_reject.
    destruct keep, (image_files s); done. }
  rewrite (move_and_advance_eq _ _ _ Hr).
  destruct (move_file destination r s) as [[[]|e] s1] eqn:Hmv;
    apply move_file_frame in Hmv as (Hi & Hc & _ & _ & Hd & Hp & Hf).
  - eexists. split; [reflexivity|]. cbn.
    split; [done|]. split; [split; [by eexists|intros _; by rewrite Hc]|].
    split; [by rewrite Hc|]. split; [done|]. split; [by rewrite Hp|].
    intros Hlast. apply fire_after_finishes; cbn; rewrite ?Hi, ?Hc; lia.
  - eexists. split; [reflexivity|]. cbn.
    split; [done|]. split; [split; [lia|by intros [? ?]]|].
    rewrite Hi, Hc, Hd, Hp. done.
Qed.

(** *** Navigation *)

(** [show_current_image] on an image that can be displayed: only the
    window changes. *)
Lemma show_current_image_displayable s :
  displayable s (current_index s) = true →
  ∃ s', show_current_image s = (Ret tt, s')
        ∧ current_index s' = current_index s
        ∧ image_files s' = image_files s ∧ fs s' = fs s.
Proof.
  unfold displayable, show_current_image.
  destruct (image_files s !! current_index s) as [r|]; [|done].
  unfold load_image, set_status, set_shown. io_unfold.
  destruct (files (fs s) !! full_path r) as [c|]; [|done].
  intros ->. by eexists.
Qed.

(** C9, as amended: while browsing, [previous] at index 0 and [next] and
    [skip] at the last index do nothing at all; and when the image at the
    index they lead to can be displayed, [next], [skip] and [previous]
    return with the index there, within [0, N), and with the file system
    and the list of records untouched. *)
Theorem C9_navigation_bounds s :
  current_index s < length (image_files s) →
  (current_index s = 0 → action_previous s = (Ret tt, s))
  ∧ (current_index s + 1 = length (image_files s) →
     action_next s = (Ret tt, s) ∧ action_skip s = (Ret tt, s))
  ∧ (displayable s (next_index s) = true →
     ∃ s', action_next s = (Ret tt, s') ∧ action_skip s = (Ret tt, s')
           ∧ current_index s' = next_index s
           ∧ next_index s < length (image_files s)
           ∧ fs s' = fs s ∧ image_files s' = image_files s)
  ∧ (displayable s (previous_index s) = true →
     ∃ s', action_previous s = (Ret tt, s')
           ∧ current_index s' = previous_index s
           ∧ previous_index s < length (image_files s)
           ∧ fs s' = fs s ∧ image_files s' = image_files s).
Proof.
  intros Hb. unfold action_skip, action_next, action_previous,
    next_index, previous_index.
  split; [|split; [|split]].
  - intros H0. rewrite (bool_decide_eq_false_2 (0 < _)) by lia.
    by rewrite andb_false_r.
  - intros Hlast. rewrite (bool_decide_eq_false_2 (_ + 1 < _)) by lia.
    by rewrite andb_false_r.
  - case_bool_decide as Hlt; rewrite ?andb_false_r, ?andb_true_r.
    + rewrite bool_decide_eq_false_2 by (intros E; rewrite E in Hb; cbn in Hb; lia).
      cbn [negb]. intros Hd. io_unfold.
      destruct (show_current_image_displayable
                  (set_current_index (current_index s + 1) s) Hd)
        as (s' & -> & Hc & Hi & Hf).
      exists s'. by repeat split.
    + intros _. exists s. by repeat split.
  - case_bool_decide as Hlt; rewrite ?andb_false_r, ?andb_true_r.
    + rewrite bool_decide_eq_false_2 by (intros E; rewrite E in Hb; cbn in Hb; lia).
      cbn [negb]. intros Hd. io_unfold.
      destruct (show_current_image_displayable
                  (set_current_index (current_index s - 1) s) Hd)
        as (s' & -> & Hc & Hi & Hf).
      exists s'. repeat split; try done. cbn in Hc. lia.
    + intros _. exists s. by repeat split.
Qed.

(** C9 on the second image of the sample session: [previous] leads to the
    first, which can be displayed. *)
Lemma C9_navigation_bounds_witness :
  ∃ s', action_previous sample_app_at_1 = (Ret tt, s')
        ∧ current_index s' = 0
        ∧ fs s' = sample_fs
        ∧ image_files s' = image_files sample_app.
Proof.
  destruct (C9_navigation_bounds sample_app_at_1) as (_ & _ & _ & Hprev).
  { vm_compute. lia. }
  destruct Hprev as (s' & Heq & Hc & _ & Hf & Hi); [reflexivity|].
  exists s'. by repeat split.
Defined.

(** C9 as stated fails: in the sample session, [next] from the first
    image leads to the second, which cannot be decoded, so
    [show_current_image] rejects it: its file is moved to the reject
    folder and the index reaches 2, the number of records. *)
Lemma C9_next_leaves_bounds :
  current_index sample_app < length (image_files sample_app)
  ∧ ∃ s', action_next sample_app = (Ret tt, s')
          ∧ image_files s' = image_files sample_app
          ∧ current_index s' = length (image_files s')
          ∧ ¬ (current_index s' < length (image_files s'))
          ∧ fs s' ≠ fs sample_app
          ∧ files (fs sample_app) !! "/photos/in/sub/b.jpg"
            = Some (Content "B" false)
          ∧ files (fs s') !! "/photos/in/sub/b.jpg" = None
          ∧ files (fs s') !! "/photos/in/_REJECTS/sub/b.jpg"
            = Some (Content "B" false).
Proof.
  split; [vm_compute; lia|].
  eexists. split; [vm_compute; reflexivity|].
  split; [reflexivity|]. split; [reflexivity|]. split; [cbn; lia|].
  split; [|by vm_compute].
  intros H%(f_equal (λ f, files f !! "/photos/in/sub/b.jpg")).
  vm_compute in H. discriminate.
Qed.

End SessionFacts.

(** ** The theorems at work on the sample data *)

Section Samples.
Import Scanner Session.
Local Open Scope nat_scope.

(** C10 on the record of [sub/b.jpg] in the sample tree. *)
Lemma C10_records_consistent_witness :
  ∃ n comps c,
    Some sample_tree ≫= resolve = Some n
    ∧ in_dir n comps "b.jpg" c ∧ is_dir c = false
    ∧ "sub" = join_slash comps
    ∧ ("sub" = "" ↔ comps = [])
    ∧ "/photos/in/sub/b.jpg"
      = path_join (if String.eqb "sub" "" then "/photos/in"
                   else path_join "/photos/in" "sub")
                  "b.jpg".
Proof.
  apply (C10_records_consistent "/photos/in" (Some sample_tree) true []
           (walk "/photos/in" [] sample_tree) []
           eq_refl eq_refl (Image "b.jpg" "sub" "/photos/in/sub/b.jpg")).
  apply list_elem_of_In. vm_compute. auto.
Defined.

(** The two sample trees are one tree in two enumeration orders. *)
Lemma sample_trees_same : same_tree sample_tree sample_tree_reordered.
Proof.
  apply same_dir.
  apply (same_cons _ _ _ _ [_; _; _; _] []); [constructor|].
  apply (same_cons _ _ _ _ [_; _] [_]).
  { apply same_dir.
    apply (same_cons _ _ _ _ [_] []); [constructor|].
    apply (same_cons _ _ _ _ [] []); [constructor|]. constructor. }
  apply (same_cons _ _ _ _ [_] [_]); [constructor|].
  apply (same_cons _ _ _ _ [_] []); [constructor|].
  apply (same_cons _ _ _ _ [] []); [|constructor].
  apply same_dir.
  apply (same_cons _ _ _ _ [] []); [constructor|]. constructor.
Qed.

(** C2 on the two enumerations of the sample tree. *)
Lemma C2_scan_sorted_deterministic_witness :
  scan_and_sort (Some sample_tree_reordered) sample_app
  = scan_and_sort (Some sample_tree) sample_app
  ∧ (full_path <$> image_files (scan_and_sort (Some sample_tree) sample_app).2)
    = ["/photos/in/a.png"; "/photos/in/b.PNG"; "/photos/in/sub/b.jpg"].
Proof.
  pose proof (C2_scan_sorted_deterministic (Some sample_tree) sample_app) as H.
  destruct (scan_and_sort (Some sample_tree) sample_app) as [[b|e] s'] eqn:E.
  - destruct H as (-> & _ & _ & Hdet). split.
    + apply Hdet; [vm_compute; reflexivity|]. exact sample_trees_same.
    + apply (f_equal (λ x, full_path <$> image_files x.2)) in E.
      rewrite <-E. vm_compute. reflexivity.
  - vm_compute in E. discriminate.
Defined.

(** C4 on [a.png] of the sample session, whose name is taken in the keep
    folder. *)
Lemma C4_collision_first_free_witness :
  ∃ k, 1 ≤ k
    ∧ (∀ j, 1 ≤ j < k →
       path_exists sample_fs (candidate "/photos/good" "a" ".png" j) = true)
    ∧ path_exists sample_fs (candidate "/photos/good" "a" ".png" k) = false.
Proof.
  destruct (C4_collision_first_free "/photos/good"
              (Image "a.png" "" "/photos/in/a.png") sample_app)
    as (k & Hk & Hbelow & Hfree & _).
  - done.
  - vm_compute. reflexivity.
  - exists k. split; [exact Hk|]. split; [exact Hbelow|exact Hfree].
Defined.

(** C5 on a keep of the first image of the sample session. *)
Lemma C5_advance_iff_moved_witness :
  ∃ s', action_keep sample_app = (Ret tt, s') ∧ current_index s' = 1.
Proof.
  destruct (C5_advance_iff_moved true sample_app
              (Image "a.png" "" "/photos/in/a.png"))
    as (s' & Hact & _ & Hiff & _); [reflexivity|].
  exists s'. split; [exact Hact|].
  apply Hiff. eexists. vm_compute. reflexivity.
Defined.

(** C8 on [sub/b.jpg] of the sample session, moved to the reject folder. *)
Lemma C8_structure_preserved_witness :
  "/photos/in/_REJECTS/sub"
  ∈ dirs (fs (move_file "/photos/in/_REJECTS"
                (Image "b.jpg" "sub" "/photos/in/sub/b.jpg") sample_app).2)
  ∧ ∃ name,
      files (fs (move_file "/photos/in/_REJECTS"
                   (Image "b.jpg" "sub" "/photos/in/sub/b.jpg") sample_app).2)
        !! path_join "/photos/in/_REJECTS/sub" name
      = Some (Content "B" false)
      ∧ name = "b.jpg".
Proof.
  destruct (C8_structure_preserved "/photos/in/_REJECTS"
              (Image "b.jpg" "sub" "/photos/in/sub/b.jpg") sample_app
              (move_file "/photos/in/_REJECTS"
                 (Image "b.jpg" "sub" "/photos/in/sub/b.jpg") sample_app).2)
    as (Hdir & _ & _ & c & name & Hsrc & Hdst & Hname & _).
  - reflexivity.
  - vm_compute. reflexivity.
  - change (final_dest_of _ _) with "/photos/in/_REJECTS/sub" in *.
    split; [by apply Hdir|]. exists name.
    split; [|apply Hname; vm_compute; reflexivity].
    rewrite Hdst. vm_compute in Hsrc. congruence.
Defined.

End Samples.
(** * Further properties *)

(** ** ConfigManager: save, load, get and set *)

Section ConfigAccess.
Import Config.

Arguments validate : simpl never.
Arguments save : simpl never.
Arguments migrated : simpl never.
Arguments split_dot : simpl never.
Arguments get_in : simpl never.
Arguments set_in : simpl never.

(** [validate] accepts without a reason. *)
Lemma save_cases config w :
  (∃ e, validate config = Raise e ∧ save config w = (Raise e, w))
  ∨ (∃ reason, validate config = Ret (false, reason)
       ∧ (save config w).1 = Ret false
       ∧ disk (save config w).2 = disk w
       ∧ self_config (save config w).2 = self_config w
       ∧ write_error (save config w).2 = write_error w)
  ∨ (∃ reason, validate config = Ret (true, reason)
       ∧ ((write_error w = None
           ∧ save config w
             = (Ret true, World (Some (Document config)) None (stdout w)
                                (dialogs w) (Some config)))
          ∨ (is_Some (write_error w)
             ∧ (save config w).1 = Ret false
             ∧ disk (save config w).2 = disk w
             ∧ self_config (save config w).2 = self_config w
             ∧ write_error (save config w).2 = write_error w))).
Proof.
  unfold save, dump_to_file, set_self_config, print. io_unfold.
  destruct (validate config) as [[[] reason]|e]; cbn.
  - right. right. exists reason. split; [done|].
    destruct (write_error w) eqn:E; cbn; [right|left]; by rewrite ?E.
  - right. left. by exists reason.
  - left. by exists e.
Qed.


(** X2. A document in v2 shape that [save] has written is what the next
    [load] returns, and that [load] changes nothing. *)
Theorem save_then_load c w w' :
  contains c "button_mappings" = true →
  save (JDict c) w = (Ret true, w') →
  load w' = (Ret (JDict c), w').
Proof.
  intros Hb Hs.
  destruct (save_cases (JDict c) w)
    as [(e & Hv & He)|[(reason & Hv & Hr & _)
       |(reason & Hv & [[Hw He]|(Hw & Hr & _)])]];
    rewrite Hs in *; cbn in *; simplify_eq.
  unfold load, read_file, migrate. io_unfold. rewrite Hv. cbn.
  by rewrite Hb.
Qed.


(** [validate] gives no reason when it accepts. *)
Lemma validate_true_reason config reason :
  validate config = Ret (true, reason) → reason = "".
Proof.
  unfold validate. io_unfold. unfold result_bind.
  repeat case_match; intros ?; by simplify_eq.
Qed.

(** X18. The configuration that [load] returns, be it the stored
    document, its migrated form or the defaults, is one that [validate]
    accepts. *)
Theorem load_returns_valid w c w' :
  load w = (Ret c, w') → validate c = Ret (true, "").
Proof.
  assert (validate (JDict DEFAULT_CONFIG) = Ret (true, "")) as Hdef
    by (by vm_compute).
  unfold load. destruct (disk w) as [[e|msg|data]|]; [..|by intros [= <- _]].
  - unfold read_file, print, showwarning. io_unfold.
    destruct (load_catches e); by intros [= <- _].
  - unfold read_file, print, showwarning. io_unfold. by intros [= <- _].
  - unfold read_file, migrate, print, showwarning. io_unfold.
    destruct (validate data) as [[[] reason]|e] eqn:Hv; cbn;
      [|by intros [= <- _]|destruct (load_catches e); by intros [= <- _]].
    pose proof (validate_true_reason _ _ Hv) as ->.
    destruct data as [ | | | |s|l|d]; cbn; try done.
    destruct (contains d "button_mappings"); cbn.
    + by intros [= <- _].
    + fold (migrated (default (JStr "") (d !! "src")) (default (JStr "") (d !! "keep"))).
      rewrite !save_valid by apply validate_migrated.
      destruct (write_error w); intros [= <- _]; apply validate_migrated.
Qed.



(** *** get and set *)

(** [set] only succeeds on a dict, and what it leaves is that dict with
    the first key of the path given a new value. *)
Lemma set_in_Ret rest : ∀ key value config config',
  set_in key rest value config = Ret config' →
  ∃ d child, config = JDict d ∧ config' = JDict (<[key := child]> d)
             ∧ get_in rest child = Ret value.
Proof.
  induction rest as [|key' rest' IH]; intros key value config config'.
  - unfold set_in, setitem. destruct config; try done.
    intros [= <-]. by eexists _, _.
  - unfold set_in; fold set_in. destruct config as [ | | | |s|l|d]; try done.
    + cbn. destruct (negb (is_substring key s)); by cbn.
    + cbn. destruct (negb (existsb _ l)); by cbn.
    + cbn. unfold contains.
      destruct (d !! key) as [child|] eqn:Hk; cbn.
      * unfold getitem. rewrite Hk. cbn.
        destruct (set_in key' rest' value child) as [child'|e] eqn:Hset; [|done].
        cbn. intros [= <-].
        apply IH in Hset as (d0 & c0 & -> & -> & Hget).
        eexists _, _. split; [done|]. split; [done|].
        unfold get_in; fold get_in. cbn. unfold getitem.
        by rewrite lookup_insert_eq.
      * unfold getitem. rewrite lookup_insert_eq. cbn.
        destruct (set_in key' rest' value (JDict ∅)) as [child'|e] eqn:Hset; [|done].
        cbn. intros [= <-].
        apply IH in Hset as (d0 & c0 & Hd0 & -> & Hget).
        exists d, (JDict (<[key' := c0]> d0)).
        split; [done|]. rewrite insert_insert_eq. split; [done|].
        unfold get_in; fold get_in. cbn. unfold getitem.
        by rewrite lookup_insert_eq.
Qed.

(** X5. What [set] has stored under a dotted path, [get] returns for the
    same path: intermediate dicts that were missing have been created. *)
Theorem set_then_get key_path value default w w' :
  set key_path value w = (Ret tt, w') →
  get key_path default w' = (Ret value, w').
Proof.
  unfold set, get. destruct (split_dot key_path) as [key rest].
  destruct (self_config w) as [config|]; [|done].
  destruct (set_in key rest value config) as [config'|e] eqn:Hset; [|done].
  unfold set_self_config. io_unfold. intros [= <-]. cbn.
  apply set_in_Ret in Hset as (d & child & -> & -> & Hget).
  unfold get_in; fold get_in. cbn. unfold getitem.
  rewrite lookup_insert_eq. cbn. by rewrite Hget.
Qed.

(** X6. [set] on a path leaves alone what [get] returns for every path
    that starts with another key. *)
Theorem set_keeps_other_keys key_path key_path' value default w w' :
  (split_dot key_path).1 ≠ (split_dot key_path').1 →
  set key_path value w = (Ret tt, w') →
  (get key_path' default w').1 = (get key_path' default w).1.
Proof.
  unfold set, get.
  destruct (split_dot key_path) as [key rest],
    (split_dot key_path') as [key' rest']. cbn [fst]. intros Hne.
  destruct (self_config w) as [config|]; [|done].
  destruct (set_in key rest value config) as [config'|e] eqn:Hset; [|done].
  unfold set_self_config. io_unfold. intros [= <-]. cbn.
  apply set_in_Ret in Hset as (d & child & -> & -> & _).
  unfold get_in; fold get_in. cbn. unfold getitem.
  rewrite lookup_insert_ne by done.
  destruct (_ ≫= _) as [v|e]; [done|]. by destruct (get_catches e).
Qed.

(** X7. Once the configuration is loaded, [get] never raises and changes
    nothing: it returns the value the path leads to, or the default the
    caller gave when a segment is missing or leads into something that is
    not a dict. *)
Theorem get_never_raises key_path default config w :
  self_config w = Some config →
  ∃ v, get key_path default w = (Ret v, w)
       ∧ (get_in ((split_dot key_path).1 :: (split_dot key_path).2) config = Ret v
          ∨ v = default
            ∧ ∃ e, get_in ((split_dot key_path).1 :: (split_dot key_path).2) config
                   = Raise e).
Proof.
  intros Hc. unfold get. destruct (split_dot key_path) as [key rest]. rewrite Hc.
  cbn [fst snd]. io_unfold.
  assert (∀ keys value e, get_in keys value = Raise e → get_catches e = true)
    as Hcatch.
  { induction keys as [|k keys IH]; intros value e; [done|].
    unfold get_in; fold get_in. destruct value; cbn; try (by intros [= <-]).
    unfold getitem. destruct (_ !! k); cbn; [apply IH|by intros [= <-]]. }
  destruct (get_in (key :: rest) config) as [v|e] eqn:Hget.
  - exists v. by split; [|left].
  - rewrite (Hcatch _ _ _ Hget). exists default. split; [done|]. right. eauto.
Qed.

End ConfigAccess.
(** ** RecursiveScanner: what a scan returns *)

Section ScannerExact.
Import Scanner.

Arguments _is_valid_image : simpl never.
Arguments path_join : simpl never.
Arguments relpath : simpl never.

Lemma records_here_iff dirpath rel es r :
  r ∈ records_here dirpath rel es ↔
  ∃ name c, (name, c) ∈ es ∧ is_dir c = false ∧ _is_valid_image name = true
    ∧ r = Image name (rel_path_of rel) (path_join dirpath name).
Proof.
  unfold records_here. rewrite list_elem_of_In, in_flat_map. split.
  - intros ([name c] & Hin%list_elem_of_In & Hr).
    destruct (is_dir c) eqn:Hd; cbn in Hr; [by destruct Hr|].
    destruct (_is_valid_image name) eqn:Hv; cbn in Hr; [|by destruct Hr].
    destruct Hr as [<-|[]]. by exists name, c.
  - intros (name & c & Hin%list_elem_of_In & Hd & Hv & ->).
    exists (name, c). split; [done|]. rewrite Hd, Hv. by left.
Qed.

Lemma walk_entries_iff dirpath rel es r :
  r ∈ walk_entries dirpath rel es ↔
  ∃ d listable es', (d, Dir listable es') ∈ es
    ∧ r ∈ walk (path_join dirpath d) (rel ++ [d]) (Dir listable es').
Proof.
  induction es as [|[d child] es IH].
  - split; [by intros ?%elem_of_nil|]. by intros (? & ? & ? & ?%elem_of_nil & _).
  - cbn [walk_entries]. rewrite elem_of_app, IH. split.
    + intros [Hr|(d' & l' & es' & Hin & Hr)].
      * destruct child as [ | |t|l' es']; cbn in Hr;
          try (by apply elem_of_nil in Hr).
        -- destruct (is_dir (Symlink t)); by apply elem_of_nil in Hr.
        -- exists d, l', es'. split; [left|done].
      * exists d', l', es'. split; [by right|done].
    + intros (d' & l' & es' & Hin & Hr).
      apply elem_of_cons in Hin as [Heq|Hin];
        [injection Heq as <- <-; by left|].
      right. by exists d', l', es'.
Qed.

Lemma walk_iff n : ∀ dirpath rel r,
  r ∈ walk dirpath rel n ↔
  ∃ comps es name c,
    walked n comps es ∧ (name, c) ∈ es
    ∧ is_dir c = false ∧ _is_valid_image name = true
    ∧ r = Image name (rel_path_of (rel ++ comps))
                (path_join (foldl path_join dirpath comps) name).
Proof.
  induction n as [ | | t | listable es IH] using node_ind_entries;
    intros dirpath rel r;
    try (split; [by intros ?%elem_of_nil|by intros (? & ? & ? & ? & H & _); inv H]).
  destruct listable;
    [|split; [by intros ?%elem_of_nil|by intros (? & ? & ? & ? & H & _); inv H]].
  rewrite walk_Dir, elem_of_app, records_here_iff, walk_entries_iff. split.
  - intros [(name & c & Hin & Hd & Hv & ->)|(d & l' & es' & Hin & Hr)].
    + exists [], es, name, c. rewrite app_nil_r. by repeat split; [constructor|..].
    + rewrite Forall_forall in IH. apply (IH _ Hin) in Hr
        as (comps & es'' & name & c & Hw & Hin' & Hd & Hv & ->).
      exists (d :: comps), es'', name, c. rewrite <-app_assoc.
      split; [by econstructor|done].
  - intros (comps & es'' & name & c & Hw & Hin & Hd & Hv & ->).
    inv Hw.
    + left. exists name, c. by rewrite app_nil_r.
    + right. eexists _, _, _. split; [done|].
      rewrite Forall_forall in IH. eapply (IH (_, _)); [done|].
      eexists _, _, _, _. rewrite <-app_assoc. by repeat split.
Qed.

(** X8. The recursive scan of a directory returns exactly the records of
    the entries that are not directories, have an image extension, and lie
    in a directory that [os.walk] visits: directories that cannot be
    listed and symbolic links to directories contribute nothing, and
    neither do entries without an image extension. *)
Theorem scan_recursive_exact root_dir root n out r :
  root_dir ≠ "" → root ≫= resolve = Some n →
  ∃ l, scan root_dir root true out = (Ret l, out)
    ∧ (r ∈ l ↔
       ∃ comps es name c,
         walked n comps es ∧ (name, c) ∈ es
         ∧ is_dir c = false ∧ _is_valid_image name = true
         ∧ r = Image name (rel_path_of comps)
                     (path_join (foldl path_join root_dir comps) name)).
Proof.
  intros Hne%String.eqb_neq Hroot. rewrite scan_recursive_eq, Hne, Hroot.
  eexists. split; [done|]. apply (walk_iff n root_dir []).
Qed.

(** X9. The flat scan of a directory that can be listed returns exactly
    the records, with an empty [relative_path], of the entries that are
    regular files (or links to one) with an image extension. *)
Theorem scan_flat_exact root_dir root es out r :
  root_dir ≠ "" → root ≫= resolve = Some (Dir true es) →
  ∃ l, scan root_dir root false out = (Ret l, out)
    ∧ (r ∈ l ↔
       ∃ name c, (name, c) ∈ es ∧ isfile c = true
         ∧ _is_valid_image name = true
         ∧ r = Image name "" (path_join root_dir name)).
Proof.
  intros Hne%String.eqb_neq Hroot. rewrite scan_flat_eq. unfold listing.
  rewrite Hne, Hroot. eexists. split; [done|].
  rewrite list_elem_of_In, in_flat_map. split.
  - intros ([name c] & Hin%list_elem_of_In & Hr). unfold flat_record in Hr.
    destruct (isfile c) eqn:Hf; cbn in Hr; [|by destruct Hr].
    destruct (_is_valid_image name) eqn:Hv; cbn in Hr; [|by destruct Hr].
    destruct Hr as [<-|[]]. by exists name, c.
  - intros (name & c & Hin%list_elem_of_In & Hf & Hv & ->).
    exists (name, c). split; [done|]. unfold flat_record. rewrite Hf, Hv. by left.
Qed.

(** X10. Every record of the flat scan of a directory is a record of its
    recursive scan: recursion only adds. *)
Theorem scan_flat_in_recursive root_dir root out l out' r :
  scan root_dir root false out = (Ret l, out') →
  r ∈ l →
  ∃ l', scan root_dir root true out = (Ret l', out) ∧ r ∈ l'.
Proof.
  intros Hflat Hr. rewrite scan_flat_eq in Hflat. unfold listing in Hflat.
  destruct (String.eqb root_dir "") eqn:Hne; cbn in Hflat;
    [simplify_eq; by apply elem_of_nil in Hr|].
  destruct (root ≫= resolve) as [[ | | |[] es]|] eqn:Hroot; cbn in Hflat;
    simplify_eq; try (by apply elem_of_nil in Hr).
  rewrite scan_recursive_eq, Hne, Hroot.
  eexists. split; [done|]. rewrite walk_Dir, elem_of_app. left.
  apply list_elem_of_In, in_flat_map in Hr as ([name c] & Hin%list_elem_of_In & Hr).
  unfold flat_record in Hr.
  destruct (isfile c) eqn:Hf; cbn in Hr; [|by destruct Hr].
  destruct (_is_valid_image name) eqn:Hv; cbn in Hr; [|by destruct Hr].
  destruct Hr as [<-|[]]. apply records_here_iff. exists name, c.
  split; [done|]. split; [|done].
  unfold isfile in Hf. unfold is_dir. by destruct (resolve c) as [[]|].
Qed.




End ScannerExact.
(** ** The session: every action *)

Section SessionSafety.
Import Scanner Session.
Local Open Scope nat_scope.

Arguments path_join : simpl never.
Arguments splitext : simpl never.
Arguments candidate : simpl never.
Arguments loop_bound : simpl never.
Arguments path_exists : simpl never.
Arguments fire_after : simpl never.
Arguments move_file : simpl never.
Arguments move_and_advance : simpl never.

(** The counters of the loop start at the one it is entered with. *)
Lemma first_free_from f final_dest base ext fuel : ∀ dst counter,
  first_free fuel f final_dest base ext dst counter = dst
  ∨ ∃ k, counter ≤ k
         ∧ first_free fuel f final_dest base ext dst counter
           = candidate final_dest base ext k.
Proof.
  induction fuel as [|fuel IH]; intros dst counter; [by left|].
  cbn [first_free]. destruct (path_exists f dst); [|by left].
  destruct (IH (candidate final_dest base ext counter) (S counter))
    as [->|(k & Hk & ->)]; right; eexists; (split; [|done]); lia.
Qed.

(** A successful [move_file]: the content of the source is put at a path
    that was free, in the directory of the record, under the name of the
    file or under that name with a counter before its extension; the
    source path is released; directories are only added. *)
Lemma move_file_Ret destination r s s' :
  move_file destination r s = (Ret tt, s') →
  ∃ c name (added : gset string),
    let dst := path_join (final_dest_of destination r) name in
    files (fs s) !! full_path r = Some c
    ∧ path_exists (fs s) dst = false
    ∧ dst ≠ full_path r
    ∧ fs s' = Fs (<[dst := c]> (delete (full_path r) (files (fs s))))
                 (dirs (fs s) ∪ added) (mkdir_errors (fs s)) (move_errors (fs s))
    ∧ (name = filename r
       ∨ ∃ k, 1 ≤ k
              ∧ name = (splitext (filename r)).1 +:+ "_" +:+ pretty k
                       +:+ (splitext (filename r)).2).
Proof.
  rewrite move_file_unfold. cbv zeta.
  destruct (splitext (filename r)) as [base ext]. cbn [fst snd].
  set (fd := final_dest_of destination r).
  assert ((∃ s1 (added : gset string),
            (if String.eqb (relative_path r) "" then (Ret tt, s)
             else makedirs fd true s) = (Ret tt, s1)
            ∧ s1 = set_fs (λ f, Fs (files f) (dirs f ∪ added) (mkdir_errors f)
                                   (move_errors f)) s)
          ∨ ∃ e s1, (if String.eqb (relative_path r) "" then (Ret tt, s)
                     else makedirs fd true s) = (Raise e, s1))
    as [(s1 & added & -> & Hs1)|(e & s1 & ->)]; [| |done].
  { destruct (String.eqb (relative_path r) "").
    - left. exists s, ∅. split; [done|]. destruct s as [[]]. unfold set_fs. cbn.
      f_equal. f_equal. set_solver.
    - destruct (makedirs fd true s) as [[[]|e] s1] eqn:Hmk.
      + left. apply makedirs_Ret in Hmk as (added & Hs1 & _). by exists s1, added.
      + right. by eexists _, _. }
  pose proof (first_free_is_free (fs s1) fd base ext (path_join fd (filename r)))
    as Hfree.
  destruct (first_free_from (fs s1) fd base ext (loop_bound (fs s1))
              (path_join fd (filename r)) 1) as [Heq|(k & Hk & Heq)];
    rewrite Heq in *.
  - destruct (rename _ _ s1) as [[[]|e] s2] eqn:Hmv; [|done].
    apply rename_Ret in Hmv as (c & Hsrc & _ & ->).
    unfold print. io_unfold. intros [= <-]. subst s1. cbn in *.
    exists c, (filename r), added.
    apply path_exists_elem_false in Hfree as [Hnd Hnf]. cbn in *.
    split; [done|]. split.
    { apply not_true_is_false. rewrite path_exists_elem, elem_of_union, elem_of_dom.
      intros [?|[? ?]]; [set_solver|congruence]. }
    split; [congruence|]. split; [done|by left].
  - destruct (rename _ _ s1) as [[[]|e] s2] eqn:Hmv; [|done].
    apply rename_Ret in Hmv as (c & Hsrc & _ & ->).
    unfold print. io_unfold. intros [= <-]. subst s1. cbn in *.
    exists c, (base +:+ "_" +:+ pretty k +:+ ext), added.
    fold (candidate fd base ext k).
    apply path_exists_elem_false in Hfree as [Hnd Hnf]. cbn in *.
    split; [done|]. split.
    { apply not_true_is_false. rewrite path_exists_elem, elem_of_union, elem_of_dom.
      intros [?|[? ?]]; [set_solver|congruence]. }
    split; [congruence|]. split; [done|right; by exists k].
Qed.


(** [move_and_advance], whatever the state: it never raises, and either
    does nothing (no active record), or moves the active record and
    advances, or fails to move it and reports. *)
Lemma move_and_advance_cases destination s :
  ∃ s', move_and_advance destination s = (Ret tt, s')
    ∧ image_files s' = image_files s
    ∧ keep_dir s' = keep_dir s ∧ reject_dir s' = reject_dir s
    ∧ finished (ui s') = finished (ui s)
    ∧ ((s' = s ∧ length (image_files s) ≤ current_index s)
       ∨ (∃ r s1, image_files s !! current_index s = Some r
            ∧ move_file destination r s = (Ret tt, s1)
            ∧ fs s' = fs s1 ∧ current_index s' = current_index s + 1
            ∧ dialogs (ui s') = dialogs (ui s))
       ∨ (∃ r e s1, image_files s !! current_index s = Some r
            ∧ move_file destination r s = (Raise e, s1)
            ∧ fs s' = fs s1 ∧ current_index s' = current_index s
            ∧ dialogs (ui s') = dialogs (ui s) ++ [move_error_dialog e])).
Proof.
  destruct (image_files s !! current_index s) as [r|] eqn:Hr.
  - rewrite (move_and_advance_eq _ _ _ Hr).
    destruct (move_file destination r s) as [[[]|e] s1] eqn:Hmv;
      pose proof (move_file_frame _ _ _ _ _ Hmv) as (Hi & Hc & Hk & Hj & Hd & Hp & Hf).
    + eexists. split; [reflexivity|]. cbn. repeat (split; [done|]).
      right. left. exists r, s1. by rewrite Hc.
    + eexists. split; [reflexivity|]. cbn. repeat (split; [done|]).
      right. right. exists r, e, s1. by rewrite Hd.
  - exists s. unfold move_and_advance. rewrite Hr. repeat (split; [done|]).
    left. split; [done|]. by apply lookup_ge_None.
Qed.

Lemma action_is_move_and_advance (keep : bool) s :
  (if keep then action_keep else action_reject) s
  = if bool_decide (image_files s = []) then (Ret tt, s)
    else move_and_advance (if keep then keep_dir s else reject_dir s) s.
Proof. unfold action_keep, action_reject. by destruct keep, (image_files s). Qed.


Lemma move_and_advance_kept destination : kept_by (move_and_advance destination).
Proof.
  intros s Hb.
  destruct (move_and_advance_cases destination s)
    as (s' & -> & Hi & Hk & Hj & _ & Hcases).
  exists s'. rewrite Hi. do 4 (split; [done|]).
  destruct Hcases as [[-> _]|[(r & s1 & Hr & _ & _ & Hc & _)
                             |(r & e & s1 & Hr & _ & _ & Hc & _)]]; [done| |lia].
  apply lookup_lt_Some in Hr. lia.
Qed.

Lemma action_reject_kept : kept_by action_reject.
Proof.
  intros s Hb. pose proof (action_is_move_and_advance false s) as ->.
  case_bool_decide; [by exists s|]. by apply move_and_advance_kept.
Qed.

Lemma action_keep_kept : kept_by action_keep.
Proof.
  intros s Hb. pose proof (action_is_move_and_advance true s) as ->.
  case_bool_decide; [by exists s|]. by apply move_and_advance_kept.
Qed.

Lemma show_current_image_kept : kept_by show_current_image.
Proof.
  intros s Hb. unfold show_current_image.
  destruct (image_files s !! current_index s) as [r|] eqn:Hr.
  - unfold set_status, load_image, set_shown, print. io_unfold.
    destruct (files (fs s) !! full_path r) as [c|]; cbn.
    + destruct (decodes c); cbn; [by eexists|].
      match goal with |- ∃ s', action_reject ?s1 = _ ∧ _ =>
        destruct (action_reject_kept s1 Hb) as (s' & -> & ?) end.
      by exists s'.
    + match goal with |- ∃ s', action_reject ?s1 = _ ∧ _ =>
        destruct (action_reject_kept s1 Hb) as (s' & -> & ?) end.
      by exists s'.
  - unfold finish_culling, set_shown, set_status, messagebox, root_quit.
    io_unfold. by eexists.
Qed.

(** X14. None of the operations of a session ever raises, changes the
    list of records or the destination folders, or takes the index
    further than one past the last record: keep, reject, next, previous,
    skip, the display of the current image and the queued display. *)
Theorem session_invariant :
  Forall kept_by
    [action_keep; action_reject; action_next; action_previous; action_skip;
     show_current_image; fire_after].
Proof.
  assert (kept_by action_next) as Hnext.
  { intros s Hb. unfold action_next.
    destruct (negb _ && bool_decide _) eqn:Hc; [|by exists s].
    apply andb_true_iff in Hc as [_ Hlt%bool_decide_eq_true]. io_unfold.
    destruct (show_current_image_kept (set_current_index (current_index s + 1) s))
      as (s' & -> & ?); [cbn; lia|]. by exists s'. }
  repeat constructor; try done.
  - apply action_keep_kept.
  - apply action_reject_kept.
  - intros s Hb. unfold action_previous.
    destruct (negb _ && bool_decide _) eqn:Hc; [|by exists s].
    io_unfold.
    destruct (show_current_image_kept (set_current_index (current_index s - 1) s))
      as (s' & -> & ?); [cbn; lia|]. by exists s'.
  - apply show_current_image_kept.
  - intros s Hb. unfold fire_after.
    destruct (pending_show (ui s)); [by exists s|]. io_unfold.
    match goal with |- ∃ s', show_current_image ?s1 = _ ∧ _ =>
      destruct (show_current_image_kept s1 Hb) as (s' & -> & ?) end.
    by exists s'.
Qed.

(** X15. Without records every action does nothing at all, and past the
    last record keep, reject, next and skip do nothing at all. *)
Theorem actions_out_of_bounds s :
  (image_files s = [] →
   Forall (λ act : io app unit, act s = (Ret tt, s))
     [action_keep; action_reject; action_next; action_previous; action_skip])
  ∧ (length (image_files s) ≤ current_index s →
     Forall (λ act : io app unit, act s = (Ret tt, s))
       [action_keep; action_reject; action_next; action_skip]).
Proof.
  split.
  - intros Hnil. repeat constructor;
      unfold action_skip, action_keep, action_reject, action_next,
        action_previous; by rewrite Hnil.
  - intros Hge.
    assert (action_next s = (Ret tt, s)) as Hnext.
    { unfold action_next.
      rewrite (bool_decide_eq_false_2 (_ + 1 < _)) by lia.
      by rewrite andb_false_r. }
    repeat constructor; try done.
    + pose proof (action_is_move_and_advance true s) as ->.
      case_bool_decide; [done|]. unfold move_and_advance.
      by rewrite lookup_ge_None_2.
    + pose proof (action_is_move_and_advance false s) as ->.
      case_bool_decide; [done|]. unfold move_and_advance.
      by rewrite lookup_ge_None_2.
Qed.

Lemma substring_all s : substring 0 (String.length s) s = s.
Proof. induction s as [|c s IH]; [done|]. cbn. by rewrite IH. Qed.

Lemma substring_split n s :
  n ≤ String.length s → substring 0 n s +:+ string_from n s = s.
Proof.
  unfold string_from. revert n. induction s as [|c s IH]; intros [|n] Hn; cbn in *;
    try done; try lia.
  - by rewrite substring_all.
  - rewrite app_cons_s. f_equal. apply IH. lia.
Qed.

Lemma rfind_lt c s i : rfind c s = Some i → i < String.length s.
Proof.
  revert i. induction s as [|x s IH]; intros i; [done|]. cbn.
  destruct (rfind c s) as [j|].
  - intros [= <-]. specialize (IH j eq_refl). lia.
  - destruct (Ascii.eqb x c); [|done]. intros [= <-]. lia.
Qed.

(** The character at the index [rfind] returns. *)
Lemma rfind_from c s i :
  rfind c s = Some i → ∃ s', string_from i s = String c s'.
Proof.
  unfold string_from. revert i. induction s as [|x s IH]; intros i; [done|]. cbn.
  destruct (rfind c s) as [j|] eqn:Hj.
  - intros [= <-]. destruct (IH j eq_refl) as [s' Hs']. exists s'. by cbn.
  - destruct (Ascii.eqb_spec x c) as [->|]; [|done]. intros [= <-].
    exists s. cbn. by rewrite substring_all.
Qed.


(** [os.path.splitext] cuts a name in two: nothing is lost, and the
    extension is empty or starts with its dot. *)
Lemma splitext_parts p base ext :
  splitext p = (base, ext) →
  base +:+ ext = p ∧ (ext = "" ∨ ∃ e, ext = String "." e).
Proof.
  unfold splitext. destruct (rfind "." p) as [d|] eqn:Hd.
  - destruct (_ && _).
    + intros [= <- <-]. split.
      * apply substring_split. apply rfind_lt in Hd. lia.
      * right. by apply rfind_from.
    + intros [= <- <-]. split; [apply app_nil_r_s|by left].
  - intros [= <- <-]. split; [apply app_nil_r_s|by left].
Qed.

(** X13. The name under which a moved file is stored is its own name,
    or its own name with [_k], for a counter [k >= 1], put before the
    extension: the part before the extension and the extension itself
    (empty, or from its dot on) are kept. *)
Theorem moved_file_keeps_extension destination r s s' :
  move_file destination r s = (Ret tt, s') →
  ∃ base ext infix c,
    filename r = base +:+ ext
    ∧ (ext = "" ∨ ∃ e, ext = String "." e)
    ∧ (infix = "" ∨ ∃ k, 1 ≤ k ∧ infix = "_" +:+ pretty k)
    ∧ files (fs s) !! full_path r = Some c
    ∧ files (fs s') !! path_join (final_dest_of destination r)
                                 (base +:+ infix +:+ ext) = Some c.
Proof.
  intros (c & name & added & Hsrc & _ & _ & -> & Hname)%move_file_Ret.
  destruct (splitext (filename r)) as [base ext] eqn:Hsplit.
  apply splitext_parts in Hsplit as [Hjoin Hext]. cbn [fst snd] in Hname.
  destruct Hname as [->|(k & Hk & ->)].
  - exists base, ext, "", c. rewrite app_nil_l_s, Hjoin. cbn.
    rewrite lookup_insert_eq.
    split; [done|]. split; [done|]. split; [by left|done].
  - exists base, ext, ("_" +:+ pretty k), c. cbn.
    rewrite app_assoc_s, lookup_insert_eq.
    split; [done|]. split; [done|]. split; [right; eauto|done].
Qed.




End SessionSafety.

Section LoadStart.
Import Scanner Session.
Local Open Scope nat_scope.
#[local] Arguments path_join : simpl never.
#[local] Arguments splitext : simpl never.
#[local] Arguments move_file : simpl never.
#[local] Arguments move_and_advance : simpl never.
#[local] Arguments show_current_image : simpl never.
#[local] Arguments scan : simpl never.
#[local] Arguments sort_by : simpl never.

(** What [move_file] leaves alone on the window. *)
Lemma move_file_frame_ui destination r s res s1 :
  move_file destination r s = (res, s1) →
  shown (ui s1) = shown (ui s) ∧ status (ui s1) = status (ui s)
  ∧ btn_load_disabled (ui s1) = btn_load_disabled (ui s)
  ∧ src_dir s1 = src_dir s ∧ recursive_loading s1 = recursive_loading s.
Proof.
  rewrite move_file_unfold. cbv zeta.
  destruct (splitext (filename r)) as [base ext].
  assert ((∃ s0, (if String.eqb (relative_path r) "" then (Ret tt, s)
                  else makedirs (final_dest_of destination r) true s)
                 = (Ret tt, s0)
                 ∧ src_dir s0 = src_dir s
                 ∧ recursive_loading s0 = recursive_loading s
                 ∧ ui s0 = ui s)
          ∨ ∃ e, (if String.eqb (relative_path r) "" then (Ret tt, s)
                  else makedirs (final_dest_of destination r) true s)
                 = (Raise e, s)) as [(s0 & -> & Hs0)|(e & ->)].
  { destruct (String.eqb (relative_path r) ""); [left; by eexists|].
    destruct (makedirs _ true s) as [[[]|e] s0] eqn:Hmk.
    - left. exists s0. split; [done|].
      by apply makedirs_Ret in Hmk as (added & -> & _).
    - right. exists e. by apply makedirs_Raise in Hmk as [-> _]. }
  - destruct Hs0 as (Hi & Hc & Hu).
    destruct (rename _ _ s0) as [[[]|e] s2] eqn:Hmv.
    + apply rename_Ret in Hmv as (c & _ & _ & ->).
      unfold print. io_unfold. intros ?; simplify_eq. cbn.
      by rewrite Hi, Hc, Hu.
    + apply rename_Raise in Hmv as (-> & _). intros ?; simplify_eq.
      by rewrite Hi, Hc, Hu.
  - by intros ?; simplify_eq.
Qed.

(** [show_current_image] on a record of the list: the image is put on
    display, or its record is rejected. *)
Lemma show_current_image_at s r :
  image_files s !! current_index s = Some r →
  ∃ s', show_current_image s = (Ret tt, s')
    ∧ image_files s' = image_files s
    ∧ reject_dir s' = reject_dir s
    ∧ btn_load_disabled (ui s') = btn_load_disabled (ui s)
    ∧ current_index s ≤ current_index s' ≤ current_index s + 1
    ∧ (dialogs (ui s') = dialogs (ui s)
       ∨ ∃ e, dialogs (ui s') = dialogs (ui s) ++ [move_error_dialog e]).
Proof.
  intros Hr. unfold show_current_image. rewrite Hr.
  unfold set_status, load_image, set_shown, print. io_unfold.
  assert (∀ s1, image_files s1 = image_files s → current_index s1 = current_index s →
            reject_dir s1 = reject_dir s →
            btn_load_disabled (ui s1) = btn_load_disabled (ui s) →
            dialogs (ui s1) = dialogs (ui s) →
            ∃ s', action_reject s1 = (Ret tt, s')
              ∧ image_files s' = image_files s
              ∧ reject_dir s' = reject_dir s
              ∧ btn_load_disabled (ui s') = btn_load_disabled (ui s)
              ∧ current_index s ≤ current_index s' ≤ current_index s + 1
              ∧ (dialogs (ui s') = dialogs (ui s)
                 ∨ ∃ e, dialogs (ui s') = dialogs (ui s) ++ [move_error_dialog e]))
    as Hrej.
  { intros s1 Hi Hc Hrd Hb Hd.
    pose proof (action_is_move_and_advance false s1) as ->.
    rewrite bool_decide_eq_false_2 by (rewrite Hi; intros E; by rewrite E in Hr).
    assert (image_files s1 !! current_index s1 = Some r) as Hr1 by by rewrite Hi, Hc.
    rewrite (move_and_advance_eq _ s1 r Hr1).
    destruct (move_file (reject_dir s1) r s1) as [[[]|e] s2] eqn:Hmv;
      pose proof (move_file_frame _ _ _ _ _ Hmv) as (Hi2 & Hc2 & _ & Hr2 & Hd2 & _);
      pose proof (move_file_frame_ui _ _ _ _ _ Hmv) as (_ & _ & Hb2 & _).
    - unfold schedule_show. io_unfold. eexists. split; [done|]. cbn.
      rewrite Hi2, Hc2, Hr2, Hd2, Hb2, Hi, Hc, Hrd, Hd, Hb.
      split; [done|]. split; [done|]. split; [done|]. split; [lia|by left].
    - eexists. split; [done|]. cbn.
      rewrite Hi2, Hc2, Hr2, Hd2, Hb2, Hi, Hc, Hrd, Hd, Hb.
      split; [done|]. split; [done|]. split; [done|]. split; [lia|right; by exists e]. }
  destruct (files (fs s) !! full_path r) as [c|]; cbn.
  - destruct (decodes c); cbn.
    + eexists. split; [done|]. cbn. split; [done|]. split; [done|].
      split; [done|]. split; [lia|by left].
    + by apply Hrej.
  - by apply Hrej.
Qed.

(** What [scan] raises is an [OSError]. *)
Lemma scan_raises_OSError root_dir root recursive out e out' :
  scan root_dir root recursive out = (Raise e, out') → is_OSError e = true.
Proof.
  destruct recursive; [by rewrite scan_recursive_eq|].
  rewrite scan_flat_eq. unfold listing.
  destruct (String.eqb root_dir ""); [done|].
  destruct (root ≫= resolve) as [[ | | t|[] es]|] eqn:Hroot; cbn;
    intros ?; by simplify_eq.
Qed.

(** Step 1 of [load_images_start]. *)
Lemma setup_reject_folder_cases s :
  ∃ res s0, setup_reject_folder s = (res, s0)
    ∧ reject_dir s0 = path_join (src_dir s) "_REJECTS"
    ∧ src_dir s0 = src_dir s ∧ recursive_loading s0 = recursive_loading s
    ∧ ui s0 = ui s ∧ image_files s0 = image_files s
    ∧ current_index s0 = current_index s
    ∧ files (fs s0) = files (fs s)
    ∧ match res with
      | Ret _ => path_exists (fs s0) (path_join (src_dir s) "_REJECTS") = true
      | Raise e => is_OSError e = true
      end.
Proof.
  unfold setup_reject_folder. io_unfold.
  destruct (path_exists (fs s) (path_join (src_dir s) "_REJECTS")) eqn:Hex; cbn.
  - eexists _, _. split; [done|]. by cbn.
  - match goal with |- context [makedirs ?p false ?s1] =>
      destruct (makedirs p false s1) as [[[]|e] s0] eqn:Hmk end.
    + eexists _, _. split; [done|].
      apply makedirs_Ret in Hmk as (added & -> & Hin & _). cbn.
      do 7 (split; [done|]). rewrite path_exists_elem. cbn. set_solver.
    + eexists _, _. split; [done|].
      by apply makedirs_Raise in Hmk as [-> ?].
Qed.

(** X17. [load_images_start]: the reject folder is [src/_REJECTS]
    whatever happens next.  When the call returns, the records are sorted
    by [full_path]; if there are none, a warning says so and the session
    is not started (index, load button and display as before); if there
    are some, the load button is disabled and the index is at the first
    record, or one past it when that record was rejected at once.  When
    the call raises, it is with an [OSError] that is not a
    [FileNotFoundError] of the scan, and the session is not started.  In
    no case is the dialog of the [except FileNotFoundError] branch
    shown: every new dialog is the warning or reports a failed move. *)
Theorem load_images_start_outcome tree s res s' :
  load_images_start tree s = (res, s') →
  reject_dir s' = path_join (src_dir s) "_REJECTS"
  ∧ (∃ extra, dialogs (ui s') = dialogs (ui s) ++ extra
       ∧ ∀ d, d ∈ extra →
           d = ("showwarning", "No Images", "No image files found in source folder.")
           ∨ ∃ e, d = move_error_dialog e)
  ∧ match res with
    | Ret _ =>
        StronglySorted (key_le full_path) (image_files s')
        ∧ match image_files s' with
          | [] =>
              dialogs (ui s')
              = dialogs (ui s)
                ++ [("showwarning", "No Images", "No image files found in source folder.")]
              ∧ current_index s' = current_index s
              ∧ btn_load_disabled (ui s') = btn_load_disabled (ui s)
              ∧ shown (ui s') = shown (ui s)
          | _ :: _ =>
              btn_load_disabled (ui s') = true ∧ current_index s' ≤ 1
          end
    | Raise e =>
        is_OSError e = true
        ∧ current_index s' = current_index s
        ∧ btn_load_disabled (ui s') = btn_load_disabled (ui s)
        ∧ image_files s' = image_files s
    end.
Proof.
  unfold load_images_start.
  destruct (setup_reject_folder_cases s)
    as (res0 & s0 & Hsetup & Hrd & Hsrc & Hrec & Hui & Hif & Hci & _ & Hres0).
  cbv [mbind io_bind]. rewrite Hsetup.
  destruct res0 as [[]|e0]; cbn.
  2:{ intros ?; simplify_eq. split; [done|]. rewrite Hui. split.
      - exists []. rewrite app_nil_r. split; [done|]. by intros d ?%elem_of_nil.
      - done. }
  rewrite scan_and_sort_eq.
  destruct (scan _ tree _ _) as [[l|e] out] eqn:Hscan.
  - cbn. unfold gets, lift. cbn.
    pose proof (sort_by_sorted full_path l) as Hsorted.
    destruct (sort_by full_path l) as [|r0 rest] eqn:Hl.
    + unfold messagebox. io_unfold. intros ?; simplify_eq. cbn.
      rewrite ?Hl, Hui. split; [done|]. split.
      * eexists. split; [done|]. intros d ->%list_elem_of_singleton. by left.
      * split; [constructor|]. done.
    + cbv [modify]. cbn.
      match goal with |- context [show_current_image ?s1] =>
        destruct (show_current_image_at s1 r0) as (s2 & Hshow & Hi2 & Hr2 & Hb2 & Hc2 & Hd2);
          [done|] end.
      rewrite Hshow. unfold disable_btn_load. io_unfold.
      intros ?; simplify_eq. cbn in *.
      rewrite Hi2, Hr2, ?Hl. split; [done|]. split.
      * destruct Hd2 as [->|[e ->]]; rewrite Hui.
        -- exists []. rewrite app_nil_r. split; [done|]. by intros d ?%elem_of_nil.
        -- eexists. split; [done|]. intros d ->%list_elem_of_singleton. right. by exists e.
      * split; [done|]. split; [done|lia].
  - pose proof (scan_raises_OSError _ _ _ _ _ _ Hscan) as Hos.
    apply scan_raises in Hscan as (_ & -> & Hnf & n & _ & Hn). rewrite Hnf. cbn.
    intros ?; simplify_eq. cbn. rewrite Hui. split; [done|]. split.
    + exists []. rewrite app_nil_r. split; [done|]. by intros d ?%elem_of_nil.
    + done.
Qed.

End LoadStart.

(** ** ActionMapper *)

Section MapperFacts.
Import Config Session Mapper.

#[local] Arguments action_keep : simpl never.
#[local] Arguments action_reject : simpl never.
#[local] Arguments action_next : simpl never.
#[local] Arguments action_previous : simpl never.
#[local] Arguments action_skip : simpl never.
#[local] Arguments validate : simpl never.

(** When every binding is recorded, [unbind_all] leaves none. *)
Lemma unbind_all_recorded m :
  recorded m → unbind_all m = (Ret tt, Mk ∅ ∅ (printed m)).
Proof.
  intros Hrec. unfold unbind_all. f_equal. f_equal.
  apply map_eq. intros k. rewrite lookup_empty.
  destruct (decide (k ∈ map fst (map_to_list (current_bindings m)))) as [Hin|Hnin].
  - by apply lookup_foldr_delete.
  - rewrite lookup_foldr_delete_not_elem_of by done.
    apply not_elem_of_dom. intros Hk. apply Hrec in Hk.
    apply elem_of_dom in Hk as [v Hv]. apply Hnin.
    apply (list_elem_of_fmap_2' _ _ (k, v)); [|done].
    by apply elem_of_map_to_list.
Qed.

(** [_create_handler] binds nothing; it gives the method of a known
    action that is not ["disabled"], and raises on a value that cannot be
    hashed. *)
Lemma create_handler_cases action m :
  ∃ res m', _create_handler action m = (res, m')
    ∧ bindings m' = bindings m ∧ current_bindings m' = current_bindings m
    ∧ match res with
      | Ret (Some h) =>
          ∃ s, action = JStr s ∧ s ∈ VALID_ACTIONS ∧ s ≠ "disabled"
               ∧ h = (λ _, run_action s) ∧ m' = m
      | Ret None =>
          hashable action = true
          ∧ (action = JStr "disabled" ∧ m' = m
             ∨ valid_action action = false
               ∧ printed m' = printed m
                   ++ ["Warning: Unknown action '" +:+ py_str action +:+ "'"])
      | Raise e => hashable action = false ∧ m' = m
      end.
Proof.
  unfold _create_handler, print. io_unfold.
  destruct action as [ |b|z|f|s|l|d]; cbn;
    try (eexists _, _; split; [done|]; cbn; split; [done|]; split; [done|];
         split; [done|]; right; by split).
  - destruct (ACTIONS !! s) as [[name|]|] eqn:Hs; cbn.
    + assert (s ∈ VALID_ACTIONS ∧ s ≠ "disabled"
              ∧ getattr_app name = Some (λ _, run_action s)) as (Hin & Hne & ->).
      { unfold ACTIONS in Hs.
        repeat (apply lookup_insert_Some in Hs as [[<- Hs]|[? Hs]];
                [simplify_eq; split; [set_solver|split; [done|reflexivity]]|]).
        apply lookup_insert_Some in Hs as [[_ ?]|[_ Hs]]; [done|].
        by rewrite lookup_empty in Hs. }
      eexists _, _. split; [done|]. cbn. split; [done|]. split; [done|].
      exists s. by destruct m.
    + assert (s = "disabled") as ->.
      { unfold ACTIONS in Hs.
        repeat (apply lookup_insert_Some in Hs as [[<- Hs]|[? Hs]];
                [by simplify_eq|]); by rewrite lookup_empty in Hs. }
      eexists _, _. split; [done|]. cbn. split; [done|]. split; [done|].
      split; [done|]. left. by destruct m.
    + eexists _, _. split; [done|]. cbn. split; [done|]. split; [done|].
      split; [done|]. right. split; [|done].
      apply bool_decide_eq_false_2. intros Hin.
      unfold VALID_ACTIONS in Hin. unfold ACTIONS in Hs.
      repeat (apply elem_of_cons in Hin as [->|Hin]; [by vm_compute in Hs|]).
      by apply elem_of_nil in Hin.
  - eexists _, _. split; [done|]. by cbn.
  - eexists _, _. split; [done|]. by cbn.
Qed.

(** One mouse button: only its own sequence is touched, and what is
    bound is recorded. *)
Lemma bind_button_cases button_config key default_action sequence m :
  ∃ res m', bind_button button_config key default_action sequence m = (res, m')
    ∧ (∀ q, q ≠ sequence → bindings m' !! q = bindings m !! q)
    ∧ (recorded m → recorded m').
Proof.
  unfold bind_button. cbv [mbind io_bind lift].
  destruct (dict_get button_config key (JStr default_action)) as [action|e];
    [|eexists _, _; by split].
  destruct (is_disabled action); cbn; [eexists _, _; by split|].
  destruct (create_handler_cases action m) as (res & m1 & -> & Hb & Hc & Hres).
  destruct res as [[h|]|e]; cbn.
  - unfold bind, record_binding. io_unfold. eexists _, _. split; [done|]. cbn.
    split.
    + intros q Hq. by rewrite lookup_insert_ne, Hb.
    + unfold recorded. cbn. rewrite !dom_insert_L, Hb, Hc. set_solver.
  - eexists _, _. split; [done|]. unfold recorded. rewrite Hb, Hc. by split.
  - eexists _, _. split; [done|]. unfold recorded. rewrite Hb, Hc. by split.
Qed.

Lemma bind_buttons_cases button_config m :
  ∃ res m', _bind_buttons button_config m = (res, m')
    ∧ (∀ q, q ≠ "<Button-1>" → q ≠ "<Button-3>" →
         bindings m' !! q = bindings m !! q)
    ∧ (recorded m → recorded m').
Proof.
  unfold _bind_buttons. cbv [mbind io_bind].
  destruct (bind_button_cases button_config "left_click" "keep" "<Button-1>" m)
    as (res1 & m1 & -> & Hf1 & Hr1).
  destruct res1 as [[]|e]; [|eexists _, _; split; [done|]; split; [|done];
                             intros q ? _; by apply Hf1].
  destruct (bind_button_cases button_config "right_click" "reject" "<Button-3>" m1)
    as (res2 & m2 & -> & Hf2 & Hr2).
  eexists _, _. split; [done|]. split; [|by intros ?%Hr1%Hr2].
  intros q ? ?. by rewrite Hf2, Hf1.
Qed.

(** The wheel: on a widget without wheel bindings, what [<MouseWheel>]
    does on a positive delta is what [<Button-4>] does, and on a negative
    delta what [<Button-5>] does. *)
Lemma bind_wheel_cases wheel_config m :
  bindings m !! "<MouseWheel>" = None → bindings m !! "<Button-4>" = None →
  bindings m !! "<Button-5>" = None →
  ∃ res m', _bind_wheel wheel_config m = (res, m')
    ∧ (recorded m → recorded m')
    ∧ ∀ ev s,
        dispatch m' "<MouseWheel>" ev s
        = if (0 <? delta ev)%Z then dispatch m' "<Button-4>" ev s
          else if (delta ev <? 0)%Z then dispatch m' "<Button-5>" ev s
          else (Ret tt, s).
Proof.
  intros Hmw H4 H5.
  assert (∀ m1, bindings m1 = bindings m →
            ∀ ev s,
              dispatch m1 "<MouseWheel>" ev s
              = if (0 <? delta ev)%Z then dispatch m1 "<Button-4>" ev s
                else if (delta ev <? 0)%Z then dispatch m1 "<Button-5>" ev s
                else (Ret tt, s)) as Hnone.
  { intros m1 Hb ev s. unfold dispatch. rewrite Hb, Hmw, H4, H5.
    by repeat case_match. }
  unfold _bind_wheel. cbv [mbind io_bind lift].
  destruct (dict_get wheel_config "wheel_up" _) as [up|e];
    [|eexists _, _; split; [done|]; split; [done|by apply Hnone]].
  destruct (dict_get wheel_config "wheel_down" _) as [down|e];
    [|eexists _, _; split; [done|]; split; [done|by apply Hnone]].
  assert (∃ res1 m1, (if is_disabled up then mret None else _create_handler up) m
                     = (res1, m1)
            ∧ bindings m1 = bindings m ∧ current_bindings m1 = current_bindings m)
    as (res1 & m1 & -> & Hb1 & Hc1).
  { destruct (is_disabled up); [by eexists _, _|].
    destruct (create_handler_cases up m) as (res & m1 & -> & ? & ? & _).
    by eexists _, _. }
  destruct res1 as [hup|e];
    [|eexists _, _; split; [done|]; split;
      [unfold recorded; by rewrite Hb1, Hc1|by apply Hnone]].
  assert (∃ res2 m2, (if is_disabled down then mret None else _create_handler down) m1
                     = (res2, m2)
            ∧ bindings m2 = bindings m ∧ current_bindings m2 = current_bindings m)
    as (res2 & m2 & -> & Hb2 & Hc2).
  { destruct (is_disabled down); [by eexists _, _|].
    destruct (create_handler_cases down m1) as (res & m2 & -> & ? & ? & _).
    eexists _, _. split; [done|]. split; congruence. }
  destruct res2 as [hdown|e];
    [|eexists _, _; split; [done|]; split;
      [unfold recorded; by rewrite Hb2, Hc2|by apply Hnone]].
  unfold bind, record_binding. io_unfold.
  destruct hup as [hup|], hdown as [hdown|]; cbn;
    (eexists _, _; split; [done|]; split;
     [unfold recorded; cbn; rewrite ?dom_insert_L, Hb2, Hc2; set_solver|]);
    intros ev s; unfold dispatch, _create_combined_wheel_handler; cbn;
    repeat (rewrite lookup_insert_eq || rewrite lookup_insert_ne by done);
    rewrite ?Hb2, ?Hmw, ?H4, ?H5;
    destruct (Z.ltb_spec 0 (delta ev)), (Z.ltb_spec (delta ev) 0);
    (done || lia).
Qed.

(** X19. Rebinding starts afresh: when every binding on the image label
    is recorded in [current_bindings], as [bind_all] leaves it, the
    bindings after [bind_all] are those of the new configuration alone;
    no handler of the old one stays. *)
Theorem bind_all_starts_afresh config m :
  recorded m →
  bind_all config m = bind_all config (Mk ∅ ∅ (printed m))
  ∧ recorded (bind_all config m).2.
Proof.
  intros Hrec. unfold bind_all. cbv [mbind io_bind lift].
  rewrite (unbind_all_recorded m Hrec).
  rewrite (unbind_all_recorded (Mk ∅ ∅ (printed m))) by done. cbn [printed].
  split; [done|].
  assert (recorded (Mk ∅ ∅ (printed m))) as H0 by done.
  destruct (dict_get config "button_mappings" _) as [bm|e]; [|done].
  destruct (bind_buttons_cases bm (Mk ∅ ∅ (printed m))) as (res1 & m1 & -> & Hf & Hr1).
  destruct res1 as [[]|e]; [|by apply Hr1].
  destruct (dict_get config "wheel_mappings" _) as [wm|e]; [|by apply Hr1].
  destruct (bind_wheel_cases wm m1) as (res2 & m2 & -> & Hr2 & _);
    [by rewrite Hf..|].
  destruct res2 as [[]|e]; by apply Hr2, Hr1.
Qed.

(** X20. The wheel gestures agree across platforms: after [bind_all],
    whatever the configuration and however the call ended, a
    [<MouseWheel>] event with a positive delta does what [<Button-4>]
    does, one with a negative delta what [<Button-5>] does, and one with
    delta 0 does nothing. *)
Theorem wheel_events_agree config m ev s :
  recorded m →
  dispatch (bind_all config m).2 "<MouseWheel>" ev s
  = if (0 <? delta ev)%Z then dispatch (bind_all config m).2 "<Button-4>" ev s
    else if (delta ev <? 0)%Z then dispatch (bind_all config m).2 "<Button-5>" ev s
    else (Ret tt, s).
Proof.
  intros Hrec. unfold bind_all. cbv [mbind io_bind lift].
  rewrite (unbind_all_recorded m Hrec).
  assert (∀ m1 : mapper,
            (∀ q, q ≠ "<Button-1>" → q ≠ "<Button-3>" → bindings m1 !! q = None) →
            dispatch m1 "<MouseWheel>" ev s
            = if (0 <? delta ev)%Z then dispatch m1 "<Button-4>" ev s
              else if (delta ev <? 0)%Z then dispatch m1 "<Button-5>" ev s
              else (Ret tt, s)) as Hnone.
  { intros m1 Hb. unfold dispatch. rewrite !Hb by done. by repeat case_match. }
  destruct (dict_get config "button_mappings" _) as [bm|e]; [|by apply Hnone].
  destruct (bind_buttons_cases bm (Mk ∅ ∅ (printed m))) as (res1 & m1 & -> & Hf & _).
  assert (∀ q, q ≠ "<Button-1>" → q ≠ "<Button-3>" → bindings m1 !! q = None) as Hf'.
  { intros q ? ?. by rewrite Hf. }
  destruct res1 as [[]|e]; [|by apply Hnone].
  destruct (dict_get config "wheel_mappings" _) as [wm|e]; [|by apply Hnone].
  destruct (bind_wheel_cases wm m1) as (res2 & m2 & -> & _ & Hw);
    [by apply Hf'..|].
  destruct res2 as [[]|e]; apply Hw.
Qed.

(** What [validate] has checked of a document in v2 shape: the four
    mapping values are action names. *)
Lemma check_mappings_two_inv what k1 k2 d :
  check_mappings what [k1; k2] d = Ret None →
  ∃ a1 a2, d !! k1 = Some (JStr a1) ∧ a1 ∈ VALID_ACTIONS
           ∧ d !! k2 = Some (JStr a2) ∧ a2 ∈ VALID_ACTIONS.
Proof.
  cbn. unfold contains, getitem. io_unfold. unfold result_bind.
  destruct (d !! k1) as [a1|]; [|done]. cbn.
  destruct a1 as [ |?|?|?|a1|?|?]; cbn; try done.
  case_bool_decide as H1; [|done]. cbn.
  destruct (d !! k2) as [a2|]; [|done]. cbn.
  destruct a2 as [ |?|?|?|a2|?|?]; cbn; try done.
  case_bool_decide as H2; [|done]. intros _. by exists a1, a2.
Qed.

Lemma validate_v2_inv c reason :
  validate (JDict c) = Ret (true, reason) →
  contains c "button_mappings" = true →
  ∃ bm wm a1 a2 a3 a4,
    c !! "button_mappings" = Some (JDict bm)
    ∧ c !! "wheel_mappings" = Some (JDict wm)
    ∧ bm !! "left_click" = Some (JStr a1) ∧ a1 ∈ VALID_ACTIONS
    ∧ bm !! "right_click" = Some (JStr a2) ∧ a2 ∈ VALID_ACTIONS
    ∧ wm !! "wheel_up" = Some (JStr a3) ∧ a3 ∈ VALID_ACTIONS
    ∧ wm !! "wheel_down" = Some (JStr a4) ∧ a4 ∈ VALID_ACTIONS.
Proof.
  unfold validate. intros Hv Hbm. rewrite Hbm, andb_false_r in Hv.
  destruct (first_missing required_keys c); [done|].
  unfold getitem in Hv. cbv [mbind result_bind] in Hv. revert Hv.
  destruct (c !! "button_mappings") as [[ |?|?|?|?|?|bm]|];
    cbn -[check_mappings]; try done.
  destruct (check_mappings "button" button_keys bm) as [[r|]|e] eqn:Hb;
    cbn -[check_mappings]; try done.
  destruct (c !! "wheel_mappings") as [[ |?|?|?|?|?|wm]|];
    cbn -[check_mappings]; try done.
  destruct (check_mappings "wheel" wheel_keys wm) as [[r|]|e] eqn:Hw;
    cbn -[check_mappings]; try done.
  intros _.
  apply check_mappings_two_inv in Hb as (a1 & a2 & ? & ? & ? & ?).
  apply check_mappings_two_inv in Hw as (a3 & a4 & ? & ? & ? & ?).
  by exists bm, wm, a1, a2, a3, a4.
Qed.

(** [_create_handler] on an action name. *)
Lemma create_handler_valid a m :
  a ∈ VALID_ACTIONS →
  _create_handler (JStr a) m
  = (Ret (if String.eqb a "disabled" then None else Some (λ _, run_action a)), m).
Proof.
  intros Hin. unfold VALID_ACTIONS in Hin.
  repeat (apply elem_of_cons in Hin as [->|Hin]; [by destruct m|]).
  by apply elem_of_nil in Hin.
Qed.

(** A button whose configured action is the action name [a]. *)
Lemma bind_button_valid d key default_action sequence a m :
  d !! key = Some (JStr a) → a ∈ VALID_ACTIONS →
  bind_button (JDict d) key default_action sequence m
  = (Ret tt,
     if String.eqb a "disabled" then m
     else Mk (<[sequence := λ _, run_action a]> (bindings m))
             (<[sequence := JStr a]> (current_bindings m)) (printed m)).
Proof.
  intros Hk Hin. unfold bind_button, dict_get. rewrite Hk.
  cbv [mbind io_bind lift]. cbn [default from_option id is_disabled].
  destruct (String.eqb a "disabled") eqn:E; cbn [negb]; [reflexivity|].
  rewrite (create_handler_valid a m Hin), E.
  unfold bind, record_binding. by io_unfold.
Qed.

(** X21. With a configuration in v2 shape that [validate] accepts,
    [bind_all] returns without a warning, and afterwards each gesture runs
    exactly the action configured for it, a disabled gesture none: the
    left and right buttons those of [button_mappings], and the wheel, on
    every platform, those of [wheel_mappings]. *)
Theorem validated_config_binds c m :
  validate (JDict c) = Ret (true, "") →
  contains c "button_mappings" = true →
  recorded m →
  ∃ m', bind_all (JDict c) m = (Ret tt, m')
    ∧ printed m' = printed m
    ∧ ∀ ev,
        dispatch m' "<Button-1>" ev
        = run_action (configured c "button_mappings" "left_click")
        ∧ dispatch m' "<Button-3>" ev
          = run_action (configured c "button_mappings" "right_click")
        ∧ dispatch m' "<Button-4>" ev
          = run_action (configured c "wheel_mappings" "wheel_up")
        ∧ dispatch m' "<Button-5>" ev
          = run_action (configured c "wheel_mappings" "wheel_down").
Proof.
  intros Hv Hc Hrec.
  destruct (validate_v2_inv _ _ Hv Hc)
    as (bm & wm & a1 & a2 & a3 & a4 & Hbm & Hwm & H1 & V1 & H2 & V2
        & H3 & V3 & H4 & V4).
  unfold configured. rewrite Hbm, Hwm, H1, H2, H3, H4.
  unfold bind_all. cbv [mbind io_bind lift].
  rewrite (unbind_all_recorded m Hrec). unfold dict_get at 1. rewrite Hbm. cbn [default from_option id].
  unfold _bind_buttons. cbv [mbind io_bind].
  rewrite (bind_button_valid bm "left_click" "keep" "<Button-1>" a1 _ H1 V1).
  rewrite (bind_button_valid bm "right_click" "reject" "<Button-3>" a2 _ H2 V2).
  unfold dict_get at 1. rewrite Hwm. cbn [default from_option id].
  unfold _bind_wheel, dict_get. rewrite H3, H4. cbv [mbind io_bind lift].
  cbn [default from_option id is_disabled].
  assert (∀ a m0, a ∈ VALID_ACTIONS →
            (if String.eqb a "disabled" then mret None
             else _create_handler (JStr a)) m0
            = (Ret (if String.eqb a "disabled" then None
                    else Some (λ _, run_action a)), m0)) as Hcreate.
  { intros a m0 Hin. rewrite <- (create_handler_valid a m0 Hin).
    destruct (String.eqb_spec a "disabled") as [->|]; [by destruct m0|done]. }
  rewrite (Hcreate a3 _ V3), (Hcreate a4 _ V4).
  unfold bind, record_binding. io_unfold.
  destruct (String.eqb_spec a1 "disabled") as [->|_],
           (String.eqb_spec a2 "disabled") as [->|_],
           (String.eqb_spec a3 "disabled") as [->|_],
           (String.eqb_spec a4 "disabled") as [->|_];
    cbn; (eexists; split; [done|]; cbn; split; [done|]); intros ev;
    unfold dispatch; cbn;
    repeat (rewrite lookup_insert_eq || rewrite lookup_insert_ne by done);
    rewrite ?lookup_empty; done.
Qed.

End MapperFacts.

(** ** SettingsDialog *)

Section SettingsFacts.
Import Config Settings.

#[local] Arguments validate : simpl never.
#[local] Arguments save : simpl never.
#[local] Arguments _check_warnings : simpl never.

(** An assignment into a deep copy that has the section. *)
Lemma assign_Copy section key value d c ch :
  temp_config d = Copy (JDict c) → c !! section = Some (JDict ch) →
  assign section key value d
  = (Ret tt, Dialog (manager d)
                    (Copy (JDict (<[section := JDict (<[key := value]> ch)]> c)))
                    (vars d) (is_open d)).
Proof.
  intros Ht Hs. unfold assign, read_temp, write_temp. cbv [mbind io_bind lift].
  rewrite Ht. cbn. unfold getitem. rewrite Hs. cbn. by rewrite Ht.
Qed.

(** An assignment reaches nothing but the copy, and succeeds only where
    the section is a dict. *)
Lemma assign_Copy_cases section key value d t :
  temp_config d = Copy t →
  (∃ e, assign section key value d = (Raise e, d))
  ∨ ∃ c ch, t = JDict c ∧ c !! section = Some (JDict ch).
Proof.
  intros Ht. unfold assign, read_temp, write_temp. cbv [mbind io_bind lift].
  rewrite Ht. destruct t as [ |?|?|?|?|?|c]; cbn; try (left; by eexists).
  unfold getitem. destruct (c !! section) as [[ |?|?|?|?|?|ch]|] eqn:Hs; cbn;
    try (left; by eexists).
  right. by exists c, ch.
Qed.

(** The five assignments on a deep copy: they reach nothing but the
    copy, and when all succeed the copy is a document with the three
    sections, now holding the values of the widgets. *)
Lemma read_widgets_Copy d t :
  temp_config d = Copy t →
  ∃ res t', read_widgets d
            = (res, Dialog (manager d) (Copy t') (vars d) (is_open d))
    ∧ (res = Ret tt →
       ∃ c bm wm opts,
         t = JDict c
         ∧ c !! "button_mappings" = Some (JDict bm)
         ∧ c !! "wheel_mappings" = Some (JDict wm)
         ∧ c !! "options" = Some (JDict opts)
         ∧ t' = JDict (with_widgets (vars d) c bm wm opts)).
Proof.
  intros Ht. unfold read_widgets. cbv [mbind io_bind gets].
  assert (d = Dialog (manager d) (Copy t) (vars d) (is_open d)) as Hd
    by (destruct d; cbn in *; by subst).
  set (v := vars d) in *.
  (* left_click *)
  destruct (assign_Copy_cases "button_mappings" "left_click"
              (JStr (lower (left_click v))) d t Ht) as [[e ->]|(c & bm & -> & Hbm)].
  { exists (Raise e), t. by rewrite <- Hd. }
  rewrite (assign_Copy _ _ _ d c bm Ht Hbm).
  (* right_click *)
  erewrite assign_Copy; [|done|by rewrite lookup_insert_eq]. cbn [manager vars is_open].
  rewrite insert_insert_eq.
  (* wheel_up *)
  match goal with |- context [assign "wheel_mappings" "wheel_up" ?x ?d1] =>
    destruct (assign_Copy_cases "wheel_mappings" "wheel_up" x d1 _ eq_refl)
      as [[e ->]|(c1 & wm & Hc1 & Hwm)] end.
  { eexists (Raise e), _. by split. }
  injection Hc1 as <-. rewrite lookup_insert_ne in Hwm by done.
  erewrite assign_Copy; [|done|by rewrite lookup_insert_ne]. cbn [manager vars is_open].
  erewrite assign_Copy; [|done|by rewrite lookup_insert_eq]. cbn [manager vars is_open].
  rewrite insert_insert_eq.
  (* recursive_loading *)
  match goal with |- context [assign "options" "recursive_loading" ?x ?d1] =>
    destruct (assign_Copy_cases "options" "recursive_loading" x d1 _ eq_refl)
      as [[e ->]|(c1 & opts & Hc1 & Hopts)] end.
  { eexists (Raise e), _. by split. }
  injection Hc1 as <-. rewrite !lookup_insert_ne in Hopts by done.
  erewrite assign_Copy; [|done|by rewrite !lookup_insert_ne]. cbn [manager vars is_open].
  eexists (Ret tt), _. split; [done|]. intros _.
  by exists c, bm, wm, opts.
Qed.

(** On a deep copy that has the three sections, the five assignments
    succeed. *)
Lemma read_widgets_ok d c bm wm opts :
  temp_config d = Copy (JDict c) →
  c !! "button_mappings" = Some (JDict bm) →
  c !! "wheel_mappings" = Some (JDict wm) →
  c !! "options" = Some (JDict opts) →
  read_widgets d
  = (Ret tt, Dialog (manager d)
                    (Copy (JDict (with_widgets (vars d) c bm wm opts)))
                    (vars d) (is_open d)).
Proof.
  intros Ht Hbm Hwm Hopts.
  destruct (read_widgets_Copy d (JDict c) Ht) as (res & t' & Hrun & Hres).
  assert (res = Ret tt) as ->.
  { revert Hrun. unfold read_widgets. cbv [mbind io_bind gets].
    rewrite (assign_Copy _ _ _ d c bm Ht Hbm).
    erewrite assign_Copy; [|done|by rewrite lookup_insert_eq].
    cbn [manager vars is_open]. rewrite insert_insert_eq.
    erewrite assign_Copy; [|done|by rewrite lookup_insert_ne]. cbn [manager vars is_open].
    erewrite assign_Copy; [|done|by rewrite lookup_insert_eq]. cbn [manager vars is_open].
    rewrite insert_insert_eq.
    erewrite assign_Copy; [|done|by rewrite !lookup_insert_ne]. cbn [manager vars is_open].
    by intros [= <- _]. }
  destruct (Hres eq_refl) as (c0 & bm0 & wm0 & opts0 & ? & ? & ? & ? & ->).
  by simplify_eq.
Qed.

(** [name] is among the values of a dict when some key holds it. *)
Lemma among_values name (d : gmap string json) :
  among name (map snd (map_to_list d)) = true
  ↔ ∃ k, d !! k = Some (JStr name).
Proof.
  unfold among. rewrite existsb_exists. split.
  - intros (v & Hin & Hv). destruct v as [ |?|?|?|a|?|?]; try done.
    apply String.eqb_eq in Hv as ->.
    apply list_elem_of_In, list_elem_of_fmap in Hin as ([k v] & Hv & Hkv).
    cbn in Hv. subst v. exists k. by apply elem_of_map_to_list.
  - intros [k Hk]. exists (JStr name). split; [|by apply String.eqb_refl].
    apply list_elem_of_In, list_elem_of_fmap. exists (k, JStr name).
    split; [done|]. by apply elem_of_map_to_list.
Qed.

Lemma among_app name l1 l2 :
  among name (l1 ++ l2) = among name l1 || among name l2.
Proof. apply existsb_app. Qed.

(** X24. On a document whose two mapping sections are dicts,
    [_check_warnings] never raises, and it returns no warning exactly
    when some key of [button_mappings] or of [wheel_mappings] holds
    ["keep"] or ["reject"]; otherwise it returns the one warning. *)
Theorem check_warnings_spec c bm wm :
  c !! "button_mappings" = Some (JDict bm) →
  c !! "wheel_mappings" = Some (JDict wm) →
  (_check_warnings (JDict c) = Ret None
   ∨ _check_warnings (JDict c) = Ret (Some no_sorting_warning))
  ∧ (_check_warnings (JDict c) = Ret None
     ↔ ∃ k a, (bm !! k = Some (JStr a) ∨ wm !! k = Some (JStr a))
              ∧ (a = "keep" ∨ a = "reject")).
Proof.
  intros Hbm Hwm. unfold _check_warnings, values. cbn. unfold getitem.
  rewrite Hbm, Hwm. cbn. rewrite !among_app.
  destruct (among "keep" (map snd (map_to_list bm))) eqn:E1;
    [apply among_values in E1 as [k Hk]; cbn; split; [by left|];
     split; [intros _; exists k, "keep"; auto|done]|].
  destruct (among "keep" (map snd (map_to_list wm))) eqn:E2;
    [apply among_values in E2 as [k Hk]; cbn; split; [by left|];
     split; [intros _; exists k, "keep"; auto|done]|].
  destruct (among "reject" (map snd (map_to_list bm))) eqn:E3;
    [apply among_values in E3 as [k Hk]; cbn; split; [by left|];
     split; [intros _; exists k, "reject"; auto|done]|].
  destruct (among "reject" (map snd (map_to_list wm))) eqn:E4;
    [apply among_values in E4 as [k Hk]; cbn; split; [by left|];
     split; [intros _; exists k, "reject"; auto|done]|].
  cbn. split; [by right|]. split; [done|].
  intros (k & a & [Hk|Hk] & [-> | ->]).
  - assert (among "keep" (map snd (map_to_list bm)) = true)
      by (apply among_values; eauto). congruence.
  - assert (among "reject" (map snd (map_to_list bm)) = true)
      by (apply among_values; eauto). congruence.
  - assert (among "keep" (map snd (map_to_list wm)) = true)
      by (apply among_values; eauto). congruence.
  - assert (among "reject" (map snd (map_to_list wm)) = true)
      by (apply among_values; eauto). congruence.
Qed.



(** The menus show an action name capitalised; in lower case it is the
    name again. *)
Lemma lower_capitalize a : a ∈ VALID_ACTIONS → lower (capitalize a) = a.
Proof.
  unfold VALID_ACTIONS. intros Hin.
  repeat (apply elem_of_cons in Hin as [->|Hin]; [reflexivity|]).
  by apply elem_of_nil in Hin.
Qed.

(** What [validate] has checked of a document in v2 shape. *)
Lemma validate_v2_shape c reason :
  validate (JDict c) = Ret (true, reason) →
  contains c "button_mappings" = true →
  ∃ bm wm opts a1 a2 a3 a4 b,
    c !! "button_mappings" = Some (JDict bm)
    ∧ c !! "wheel_mappings" = Some (JDict wm)
    ∧ c !! "options" = Some (JDict opts)
    ∧ bm !! "left_click" = Some (JStr a1) ∧ a1 ∈ VALID_ACTIONS
    ∧ bm !! "right_click" = Some (JStr a2) ∧ a2 ∈ VALID_ACTIONS
    ∧ wm !! "wheel_up" = Some (JStr a3) ∧ a3 ∈ VALID_ACTIONS
    ∧ wm !! "wheel_down" = Some (JStr a4) ∧ a4 ∈ VALID_ACTIONS
    ∧ opts !! "recursive_loading" = Some (JBool b).
Proof.
  intros Hv Hc.
  destruct (validate_v2_inv c reason Hv Hc)
    as (bm & wm & a1 & a2 & a3 & a4 & Hbm & Hwm & H1 & V1 & H2 & V2
        & H3 & V3 & H4 & V4).
  assert (check_mappings "button" button_keys bm = Ret None) as Hcb.
  { unfold button_keys.
    rewrite (check_mappings_two _ _ _ _ _ _ H1 H2) by done. cbn.
    by rewrite !bool_decide_eq_true_2. }
  assert (check_mappings "wheel" wheel_keys wm = Ret None) as Hcw.
  { unfold wheel_keys.
    rewrite (check_mappings_two _ _ _ _ _ _ H3 H4) by done. cbn.
    by rewrite !bool_decide_eq_true_2. }
  unfold validate in Hv. rewrite Hc, andb_false_r in Hv.
  destruct (first_missing required_keys c); [done|].
  unfold getitem in Hv. cbv [mbind result_bind] in Hv.
  rewrite Hbm, Hcb, Hwm, Hcw in Hv.
  destruct (c !! "options") as [[ |?|?|?|?|?|opts]|] eqn:Hopts; try done.
  unfold contains in Hv.
  destruct (opts !! "recursive_loading") as [[ |b|?|?|?|?|?]|] eqn:Hb; try done.
  by exists bm, wm, opts, a1, a2, a3, a4, b.
Qed.

(** X23. Save without a change: in a dialog on a deep copy of a
    configuration in v2 shape that [validate] accepts, whose menus and
    check box show what the configuration holds, a press on Save (the
    warning, if any, answered with yes) writes that very configuration to
    a settings file that can be written. *)
Theorem unchanged_save_keeps_document d c res d' :
  temp_config d = Copy (JDict c) →
  validate (JDict c) = Ret (true, "") →
  contains c "button_mappings" = true →
  current_choice (JDict c) "button_mappings" "left_click" "keep"
  = Ret (left_click (vars d)) →
  current_choice (JDict c) "button_mappings" "right_click" "reject"
  = Ret (right_click (vars d)) →
  current_choice (JDict c) "wheel_mappings" "wheel_up" "previous"
  = Ret (wheel_up (vars d)) →
  current_choice (JDict c) "wheel_mappings" "wheel_down" "next"
  = Ret (wheel_down (vars d)) →
  get_in ["options"; "recursive_loading"] (JDict c)
  = Ret (JBool (recursive_loading (vars d))) →
  write_error (manager d) = None →
  _validate_and_save true d = (res, d') →
  disk (manager d') = Some (Document (JDict c))
  ∧ self_config (manager d') = Some (JDict c).
Proof.
  intros Ht Hv Hc C1 C2 C3 C4 Hrl Hwe.
  destruct (validate_v2_shape c "" Hv Hc)
    as (bm & wm & opts & a1 & a2 & a3 & a4 & b & Hbm & Hwm & Hopts
        & H1 & V1 & H2 & V2 & H3 & V3 & H4 & V4 & Hb).
  unfold current_choice, Mapper.dict_get in C1, C2, C3, C4.
  cbn in C1, C2, C3, C4, Hrl. unfold getitem in Hrl.
  rewrite Hbm in C1, C2. rewrite Hwm in C3, C4. rewrite Hopts in Hrl.
  cbn in C1, C2, C3, C4, Hrl. unfold getitem in Hrl.
  rewrite H1 in C1. rewrite H2 in C2. rewrite H3 in C3. rewrite H4 in C4.
  rewrite Hb in Hrl. cbn in C1, C2, C3, C4, Hrl.
  injection C1 as C1. injection C2 as C2. injection C3 as C3.
  injection C4 as C4. injection Hrl as Hrl.
  assert (with_widgets (vars d) c bm wm opts = c) as Hsame.
  { unfold with_widgets.
    rewrite <- C1, <- C2, <- C3, <- C4, <- Hrl.
    rewrite !lower_capitalize by done.
    rewrite (insert_id bm "left_click") by done.
    rewrite (insert_id bm "right_click") by done.
    rewrite (insert_id wm "wheel_up") by done.
    rewrite (insert_id wm "wheel_down") by done.
    rewrite (insert_id opts "recursive_loading") by done.
    rewrite (insert_id c "button_mappings") by done.
    rewrite (insert_id c "wheel_mappings") by done.
    by rewrite (insert_id c "options"). }
  unfold _validate_and_save. cbv [mbind io_bind].
  rewrite (read_widgets_ok d c bm wm opts Ht Hbm Hwm Hopts), Hsame.
  unfold read_temp at 1. cbn [temp_config]. unfold lift at 1. rewrite Hv.
  cbn [negb]. unfold lift at 1.
  assert (∀ w, write_error w = None →
            save (JDict c) w
            = (Ret true, World (Some (Document (JDict c))) None (stdout w)
                               (dialogs w) (Some (JDict c)))) as Hsave.
  { intros w Hw. by rewrite (save_valid _ w Hv), Hw. }
  destruct (check_warnings_spec c bm wm Hbm Hwm) as [[Hw|Hw] _]; rewrite Hw.
  - unfold on_manager. cbn.
    rewrite (Hsave _ Hwe). unfold modify, raise. cbn.
    by intros [= <- <-].
  - unfold askyesno, on_manager, showwarning, modify.
    cbv [mbind io_bind mret io_ret]. cbn [manager temp_config vars is_open negb].
    rewrite Hsave by done. cbn. by intros [= <- <-].
Qed.

(** X25. Reset Defaults followed by Save stores the defaults whole, the
    empty [src] and [keep] included: whatever configuration the manager
    held, the folders it had stored are gone from a settings file that can
    be written.  No warning is asked about, and the call ends in the
    [AttributeError] of [self.parent.apply_config]. *)
Theorem reset_then_save_writes_defaults proceed d :
  write_error (manager d) = None →
  ∃ d', (_reset_to_defaults;; _validate_and_save proceed) d
        = (Raise parent_apply_config, d')
    ∧ disk (manager d') = Some (Document (JDict DEFAULT_CONFIG))
    ∧ self_config (manager d') = Some (JDict DEFAULT_CONFIG)
    ∧ dialogs (manager d') = dialogs (manager d)
    ∧ get "src" JNull (manager d') = (Ret (JStr ""), manager d')
    ∧ get "keep" JNull (manager d') = (Ret (JStr ""), manager d').
Proof.
  intros Hwe.
  assert (validate (JDict DEFAULT_CONFIG) = Ret (true, "")) as Hv
    by (by vm_compute).
  assert (with_widgets (Widgets (capitalize "keep") (capitalize "reject")
                                (capitalize "previous") (capitalize "next") false)
            DEFAULT_CONFIG
            (<["left_click" := JStr "keep"]> (<["right_click" := JStr "reject"]> ∅))
            (<["wheel_up" := JStr "previous"]> (<["wheel_down" := JStr "next"]> ∅))
            (<["recursive_loading" := JBool false]> ∅)
          = DEFAULT_CONFIG) as Hsame by (by vm_compute).
  unfold _reset_to_defaults, _validate_and_save, modify. cbv [mbind io_bind].
  erewrite read_widgets_ok; [|done|reflexivity..]. cbn [manager vars is_open].
  rewrite Hsame. unfold read_temp at 1. cbn [temp_config]. unfold lift at 1.
  rewrite Hv. unfold lift at 1.
  assert (_check_warnings (JDict DEFAULT_CONFIG) = Ret None) as -> by (by vm_compute).
  unfold on_manager. cbn. rewrite (save_valid _ _ Hv), Hwe. cbn.
  eexists. split; [done|]. cbn. do 3 (split; [done|]).
  split; by vm_compute.
Qed.

End SettingsFacts.

(** ** Choosing the folders *)

Section FoldersFacts.
Import Config Session Folders.

#[local] Arguments validate : simpl never.
#[local] Arguments save : simpl never.
#[local] Arguments load : simpl never.

(** A document in v2 shape that [validate] accepts stays accepted when
    [src] or [keep] is given another value. *)
Lemma validate_insert_path c key value :
  validate (JDict c) = Ret (true, "") →
  contains c "button_mappings" = true →
  key = "src" ∨ key = "keep" →
  validate (JDict (<[key := value]> c)) = Ret (true, "").
Proof.
  intros Hv Hc Hkey.
  destruct (validate_v2_shape c "" Hv Hc)
    as (bm & wm & opts & a1 & a2 & a3 & a4 & b & Hbm & Hwm & Hopts
        & H1 & V1 & H2 & V2 & H3 & V3 & H4 & V4 & Hb).
  assert (is_Some (c !! "src") ∧ is_Some (c !! "keep")) as [[S HS] [K HK]].
  { unfold validate in Hv. rewrite Hc, andb_false_r in Hv.
    unfold required_keys in Hv. cbn in Hv. unfold contains in Hv.
    destruct (c !! "src"); [|done]. destruct (c !! "keep"); [|done]. by split. }
  assert (first_reason bm wm opts = None) as Hfr.
  { unfold first_reason. rewrite H1, H2, H3, H4, Hb. cbn.
    by rewrite !bool_decide_eq_true_2. }
  destruct Hkey as [-> | ->].
  - rewrite (validate_v2_hashable _ value K bm wm opts (JStr a1) (JStr a2)
               (JStr a3) (JStr a4) (JBool b));
      rewrite ?lookup_insert_eq, ?lookup_insert_ne by done; try done.
    by rewrite Hfr.
  - rewrite (validate_v2_hashable _ S value bm wm opts (JStr a1) (JStr a2)
               (JStr a3) (JStr a4) (JBool b));
      rewrite ?lookup_insert_eq, ?lookup_insert_ne by done; try done.
    by rewrite Hfr.
Qed.

(** [save_settings] with a valid configuration and a file that can be
    written. *)
Lemma save_settings_valid w c :
  self_config (manager w) = Some (JDict c) →
  validate (JDict c) = Ret (true, "") →
  contains c "button_mappings" = true →
  write_error (manager w) = None →
  save_settings w
  = (Ret tt,
     Window (World (Some (Document
                      (JDict (<["keep" := JStr (keep_dir (session w))]>
                              (<["src" := JStr (src_dir (session w))]> c)))))
                   None (Config.stdout (manager w)) (Config.dialogs (manager w))
                   (Some (JDict (<["keep" := JStr (keep_dir (session w))]>
                                 (<["src" := JStr (src_dir (session w))]> c)))))
            (session w) (lbl_src w) (lbl_keep w)).
Proof.
  intros Hsc Hv Hc Hwe.
  pose proof (validate_insert_path c "src" (JStr (src_dir (session w))) Hv Hc
                (or_introl eq_refl)) as Hv1.
  assert (contains (<["src" := JStr (src_dir (session w))]> c) "button_mappings"
          = true) as Hc1.
  { unfold contains in *. by rewrite lookup_insert_ne. }
  pose proof (validate_insert_path _ "keep" (JStr (keep_dir (session w))) Hv1 Hc1
                (or_intror eq_refl)) as Hv2.
  unfold save_settings, on_manager, config_of_manager, set, set_self_config.
  io_unfold. rewrite Hsc. cbn. rewrite (save_valid _ _ Hv2). cbn.
  by rewrite Hwe.
Qed.

(** [load] on a stored document in v2 shape that [validate] accepts. *)
Lemma load_valid_v2 w c :
  disk w = Some (Document (JDict c)) →
  validate (JDict c) = Ret (true, "") →
  contains c "button_mappings" = true →
  load w = (Ret (JDict c), w).
Proof.
  intros Hd Hv Hc. unfold load. rewrite Hd.
  unfold read_file, migrate. io_unfold. rewrite Hv. cbn. by rewrite Hc.
Qed.

(** X26. A folder chosen in the dialog is stored at once: with a loaded
    configuration in v2 shape and a settings file that can be written,
    [select_src] and [select_keep] with a path that is not empty return
    normally, set the folder, and leave in the settings file a document
    that the next [load] returns as it is, which holds the two folders of
    the application and, under every other key, what the configuration
    held. *)
Theorem selected_folder_is_stored (source : bool) path w c :
  path ≠ "" →
  self_config (manager w) = Some (JDict c) →
  validate (JDict c) = Ret (true, "") →
  contains c "button_mappings" = true →
  write_error (manager w) = None →
  ∃ w' new,
    (if source then select_src else select_keep) path w = (Ret tt, w')
    ∧ (if source then src_dir else keep_dir) (session w') = path
    ∧ (if source then keep_dir else src_dir) (session w')
      = (if source then keep_dir else src_dir) (session w)
    ∧ disk (manager w') = Some (Document (JDict new))
    ∧ load (manager w') = (Ret (JDict new), manager w')
    ∧ new !! "src" = Some (JStr (src_dir (session w')))
    ∧ new !! "keep" = Some (JStr (keep_dir (session w')))
    ∧ ∀ k, k ≠ "src" → k ≠ "keep" → new !! k = c !! k.
Proof.
  intros Hp%String.eqb_neq Hsc Hv Hc Hwe.
  assert (∀ S K,
            validate (JDict (<["keep" := JStr K]> (<["src" := JStr S]> c)))
            = Ret (true, "")
            ∧ contains (<["keep" := JStr K]> (<["src" := JStr S]> c))
                       "button_mappings" = true) as Hnew.
  { intros S K.
    pose proof (validate_insert_path c "src" (JStr S) Hv Hc (or_introl eq_refl)) as Hv1.
    assert (contains (<["src" := JStr S]> c) "button_mappings" = true) as Hc1.
    { unfold contains in *. by rewrite lookup_insert_ne. }
    split; [by apply validate_insert_path; [..|right]|].
    unfold contains in *. by rewrite lookup_insert_ne. }
  destruct source; unfold select_src, select_keep; rewrite Hp; cbn [negb];
    unfold on_session, modify; cbv [mbind io_bind];
    (erewrite save_settings_valid; [|done..]); cbn;
    unfold check_ready, on_session, modify, gets; cbv [mbind io_bind]; cbn;
    rewrite Hp; cbn [negb andb].
  - destruct (negb (keep_dir (session w) =? "")%string); cbn;
      eexists _, _; (split; [done|]); cbn; (split; [done|]); (split; [done|]);
      (split; [done|]); (split; [by apply load_valid_v2; [|apply Hnew..]|]);
      (split; [by rewrite lookup_insert_ne, lookup_insert_eq|]);
      (split; [by rewrite lookup_insert_eq|]);
      intros k ? ?; by rewrite !lookup_insert_ne.
  - destruct (negb (src_dir (session w) =? "")%string); cbn;
      eexists _, _; (split; [done|]); cbn; (split; [done|]); (split; [done|]);
      (split; [done|]); (split; [by apply load_valid_v2; [|apply Hnew..]|]);
      (split; [by rewrite lookup_insert_ne, lookup_insert_eq|]);
      (split; [by rewrite lookup_insert_eq|]);
      intros k ? ?; by rewrite !lookup_insert_ne.
Qed.

(** [save_settings] reaches the manager only. *)
Lemma on_manager_session {A} (m : io world A) w r w' :
  on_manager m w = (r, w') → session w' = session w.
Proof.
  unfold on_manager. destruct (m (manager w)) as [r0 m']. by intros [= _ <-].
Qed.

Lemma save_settings_session w res w' :
  save_settings w = (res, w') → session w' = session w.
Proof.
  unfold save_settings, gets. cbv [mbind io_bind mret io_ret].
  repeat match goal with
         | |- context [on_manager ?m ?w0] =>
             let H := fresh "H" in
             destruct (on_manager m w0) as [[?|?] ?] eqn:H;
             apply on_manager_session in H
         end;
    intros [= _ <-]; congruence.
Qed.

Lemma check_ready_eq w :
  check_ready w
  = (Ret tt,
     if negb (String.eqb (src_dir (session w)) "")
        && negb (String.eqb (keep_dir (session w)) "")
     then Window (manager w)
                 (set_ui (λ u, Ui (stdout u) (dialogs u) (status u) (shown u)
                                  (pending_show u) false (finished u))
                         (session w))
                 (lbl_src w) (lbl_keep w)
     else w).
Proof.
  unfold check_ready, on_session, modify, gets. cbv [mbind io_bind].
  by destruct (_ && _).
Qed.

(** X27. The load button can be pressed only when both folders are
    chosen: [select_src], [select_keep], [save_settings] and [check_ready]
    keep this so, however they end, and [check_ready] enables the button
    exactly when both folders are set. *)
Theorem load_button_needs_both_folders path :
  Forall (λ act : io window unit,
            ∀ w res w', ready_ok w → act w = (res, w') → ready_ok w')
         [select_src path; select_keep path; save_settings; check_ready]
  ∧ ∀ w, btn_load_disabled (ui (session (check_ready w).2)) = false
         ↔ btn_load_disabled (ui (session w)) = false
           ∨ src_dir (session w) ≠ "" ∧ keep_dir (session w) ≠ "".
Proof.
  assert (∀ w res w', ready_ok w → check_ready w = (res, w') → ready_ok w')
    as Hcheck.
  { intros w res w' Hok. rewrite check_ready_eq. intros [= _ <-].
    destruct (_ && _) eqn:E; [|done]. intros _. cbn.
    apply andb_true_iff in E as [E1 E2].
    split; apply String.eqb_neq; by apply negb_true_iff. }
  assert (∀ w res w', ready_ok w → save_settings w = (res, w') → ready_ok w')
    as Hsave.
  { intros w res w' Hok Hrun%save_settings_session. unfold ready_ok.
    by rewrite Hrun. }
  split.
  - constructor; [|constructor; [|constructor; [exact Hsave|
                                     constructor; [exact Hcheck|constructor]]]].
    + intros w res w' Hok. unfold select_src.
      destruct (String.eqb_spec path "") as [->|Hne]; cbn [negb];
        [by intros [= _ <-]|].
      unfold on_session, modify. cbv [mbind io_bind].
      match goal with |- context [save_settings ?w1] =>
        set (w1' := w1);
        assert (ready_ok w1') as Hok1
          by (intros Hb; destruct (Hok Hb); by split);
        destruct (save_settings w1') as [[[]|e] w2] eqn:Hs end.
      * apply (Hcheck w2). by apply (Hsave w1' (Ret tt)).
      * intros [= _ <-]. by apply (Hsave w1' (Raise e)).
    + intros w res w' Hok. unfold select_keep.
      destruct (String.eqb_spec path "") as [->|Hne]; cbn [negb];
        [by intros [= _ <-]|].
      unfold on_session, modify. cbv [mbind io_bind].
      match goal with |- context [save_settings ?w1] =>
        set (w1' := w1);
        assert (ready_ok w1') as Hok1
          by (intros Hb; destruct (Hok Hb); by split);
        destruct (save_settings w1') as [[[]|e] w2] eqn:Hs end.
      * apply (Hcheck w2). by apply (Hsave w1' (Ret tt)).
      * intros [= _ <-]. by apply (Hsave w1' (Raise e)).
  - intros w. rewrite check_ready_eq. cbn.
    destruct (String.eqb_spec (src_dir (session w)) ""),
             (String.eqb_spec (keep_dir (session w)) ""); cbn; naive_solver.
Qed.

End FoldersFacts.

(** ** The further properties on the samples *)

Section MoreSamples.
Import Config Scanner Session Mapper.
Local Open Scope nat_scope.


(** X2 on the defaults. *)
Lemma save_then_load_witness :
  load (save (JDict DEFAULT_CONFIG) v1_world).2
  = (Ret (JDict DEFAULT_CONFIG), (save (JDict DEFAULT_CONFIG) v1_world).2).
Proof.
  apply (save_then_load DEFAULT_CONFIG v1_world).
  - reflexivity.
  - vm_compute. reflexivity.
Defined.

(** X18 on a v1 settings file. *)
Lemma load_returns_valid_witness :
  validate (JDict (migrated (JStr "/photos/in") (JStr "/photos/good")))
  = Ret (true, "").
Proof.
  apply (load_returns_valid v1_world _ (load v1_world).2).
  vm_compute. reflexivity.
Defined.

(** X5 and X6 on the option of the defaults. *)
Lemma set_then_get_witness :
  get "options.recursive_loading" JNull
      (set "options.recursive_loading" (JBool true) loaded_world).2
  = (Ret (JBool true),
     (set "options.recursive_loading" (JBool true) loaded_world).2).
Proof.
  apply (set_then_get "options.recursive_loading" (JBool true) JNull loaded_world).
  vm_compute. reflexivity.
Defined.

Lemma set_keeps_other_keys_witness :
  (get "button_mappings.left_click" JNull
       (set "options.recursive_loading" (JBool true) loaded_world).2).1
  = (get "button_mappings.left_click" JNull loaded_world).1.
Proof.
  apply (set_keeps_other_keys "options.recursive_loading"
           "button_mappings.left_click" (JBool true) JNull loaded_world).
  - vm_compute. discriminate.
  - vm_compute. reflexivity.
Defined.

(** X7 on a path that leads nowhere. *)
Lemma get_never_raises_witness :
  ∃ v, get "options.missing.deeper" (JStr "fallback") loaded_world
       = (Ret v, loaded_world)
       ∧ v = JStr "fallback".
Proof.
  destruct (get_never_raises "options.missing.deeper" (JStr "fallback")
              (JDict DEFAULT_CONFIG) loaded_world eq_refl)
    as (v & Hget & [Hin|[-> _]]).
  - vm_compute in Hin. discriminate.
  - exists (JStr "fallback"). split; [exact Hget|reflexivity].
Defined.

(** X8 on [sub/b.jpg] of the sample tree. *)
Lemma scan_recursive_exact_witness :
  ∃ l, scan "/photos/in" (Some sample_tree) true [] = (Ret l, [])
       ∧ Image "b.jpg" "sub" "/photos/in/sub/b.jpg" ∈ l.
Proof.
  destruct (scan_recursive_exact "/photos/in" (Some sample_tree) sample_tree []
              (Image "b.jpg" "sub" "/photos/in/sub/b.jpg"))
    as (l & Hscan & Hiff).
  - discriminate.
  - reflexivity.
  - exists l. split; [exact Hscan|]. apply Hiff.
    exists ["sub"], [("b.jpg", File); ("ignore.txt", File)], "b.jpg", File.
    split.
    { unfold sample_tree.
      apply (walked_sub _ "sub" true [("b.jpg", File); ("ignore.txt", File)] [] _).
      - apply list_elem_of_In. vm_compute. auto.
      - apply walked_top. }
    split; [apply list_elem_of_In; vm_compute; auto|].
    split; [reflexivity|]. split; reflexivity.
Defined.

(** X9 on the link [lnk] of the sample tree, which leads to a
    directory: the flat scan has no record of that name. *)
Lemma scan_flat_exact_witness :
  ∃ l, scan "/photos/in" (Some sample_tree) false [] = (Ret l, [])
       ∧ Image "a.png" "" "/photos/in/a.png" ∈ l.
Proof.
  destruct (scan_flat_exact "/photos/in" (Some sample_tree)
              [("b.PNG", File);
               ("sub", Dir true [("b.jpg", File); ("ignore.txt", File)]);
               ("a.png", File);
               ("lnk", Symlink (Some (Dir true [("q.png", File)])));
               ("locked", Dir false [("h.png", File)])] []
              (Image "a.png" "" "/photos/in/a.png"))
    as (l & Hscan & Hiff).
  - discriminate.
  - reflexivity.
  - exists l. split; [exact Hscan|]. apply Hiff. exists "a.png", File.
    split; [apply list_elem_of_In; vm_compute; auto|].
    split; [reflexivity|]. split; reflexivity.
Defined.

(** X10 on [a.png] of the sample tree. *)
Lemma scan_flat_in_recursive_witness :
  ∃ l', scan "/photos/in" (Some sample_tree) true [] = (Ret l', [])
        ∧ Image "a.png" "" "/photos/in/a.png" ∈ l'.
Proof.
  apply (scan_flat_in_recursive "/photos/in" (Some sample_tree) []
           [Image "b.PNG" "" "/photos/in/b.PNG";
            Image "a.png" "" "/photos/in/a.png"] []).
  - vm_compute. reflexivity.
  - apply list_elem_of_In. vm_compute. auto.
Defined.


(** X13 on [a.png] of the sample session, whose name and first
    candidate are taken in the keep folder. *)
Lemma moved_file_keeps_extension_witness :
  ∃ base ext infix c,
    "a.png" = base +:+ ext
    ∧ (ext = "" ∨ ∃ e, ext = String "." e)
    ∧ (infix = "" ∨ ∃ k, 1 ≤ k ∧ infix = "_" +:+ pretty k)
    ∧ files sample_fs !! "/photos/in/a.png" = Some c
    ∧ files (fs (move_file "/photos/good" (Image "a.png" "" "/photos/in/a.png")
                   sample_app).2)
        !! path_join "/photos/good" (base +:+ infix +:+ ext)
      = Some c.
Proof.
  apply (moved_file_keeps_extension "/photos/good"
           (Image "a.png" "" "/photos/in/a.png") sample_app).
  vm_compute. reflexivity.
Defined.


(** X17 on the sample session and the sample tree. *)
Lemma load_images_start_outcome_witness :
  reject_dir (load_images_start (Some sample_tree) sample_app).2
  = "/photos/in/_REJECTS"
  ∧ StronglySorted (key_le full_path)
      (image_files (load_images_start (Some sample_tree) sample_app).2).
Proof.
  destruct (load_images_start_outcome (Some sample_tree) sample_app (Ret tt)
              (load_images_start (Some sample_tree) sample_app).2)
    as (Hrd & _ & Hsorted & _).
  - vm_compute. reflexivity.
  - split; [exact Hrd|exact Hsorted].
Defined.

(** X19, X20 and X21 on a mapper that holds a binding of the left
    button. *)
Lemma sample_mapper_recorded : recorded sample_mapper.
Proof. unfold recorded, sample_mapper. cbn. by rewrite !dom_insert_L. Qed.

Lemma bind_all_starts_afresh_witness :
  bind_all left_disabled sample_mapper = bind_all left_disabled (Mk ∅ ∅ [])
  ∧ recorded (bind_all left_disabled sample_mapper).2.
Proof.
  apply (bind_all_starts_afresh left_disabled sample_mapper).
  exact sample_mapper_recorded.
Defined.

Lemma wheel_events_agree_witness :
  dispatch (bind_all (JDict DEFAULT_CONFIG) sample_mapper).2 "<MouseWheel>"
           (Event (-120)) sample_app
  = dispatch (bind_all (JDict DEFAULT_CONFIG) sample_mapper).2 "<Button-5>"
             (Event (-120)) sample_app.
Proof.
  apply (wheel_events_agree (JDict DEFAULT_CONFIG) sample_mapper (Event (-120))
           sample_app).
  exact sample_mapper_recorded.
Defined.

Lemma validated_config_binds_witness :
  ∃ m', bind_all (JDict DEFAULT_CONFIG) sample_mapper = (Ret tt, m')
    ∧ dispatch m' "<Button-1>" (Event 0) = action_keep
    ∧ dispatch m' "<Button-3>" (Event 0) = action_reject
    ∧ dispatch m' "<Button-4>" (Event 0) = action_previous
    ∧ dispatch m' "<Button-5>" (Event 0) = action_next.
Proof.
  destruct (validated_config_binds DEFAULT_CONFIG sample_mapper)
    as (m' & Hbind & _ & H).
  - vm_compute. reflexivity.
  - reflexivity.
  - exact sample_mapper_recorded.
  - exists m'. split; [exact Hbind|].
    destruct (H (Event 0)) as (H1 & H3 & H4 & H5).
    split; [exact H1|]. split; [exact H3|]. split; [exact H4|exact H5].
Defined.

End MoreSamples.

Section SettingsSamples.
Import Config Settings.


(** X23 on a dialog that shows the defaults. *)
Lemma unchanged_save_keeps_document_witness :
  disk (manager (_validate_and_save true
                   (Dialog loaded_world (Copy (JDict DEFAULT_CONFIG))
                           (Widgets "Keep" "Reject" "Previous" "Next" false)
                           true)).2)
  = Some (Document (JDict DEFAULT_CONFIG)).
Proof.
  apply (unchanged_save_keeps_document
           (Dialog loaded_world (Copy (JDict DEFAULT_CONFIG))
                   (Widgets "Keep" "Reject" "Previous" "Next" false) true)
           DEFAULT_CONFIG (Raise parent_apply_config)).
  - reflexivity.
  - vm_compute. reflexivity.
  - reflexivity.
  - reflexivity.
  - reflexivity.
  - reflexivity.
  - reflexivity.
  - reflexivity.
  - reflexivity.
  - vm_compute. reflexivity.
Defined.

(** X24 on the defaults, whose buttons keep and reject. *)
Lemma check_warnings_spec_witness :
  _check_warnings (JDict DEFAULT_CONFIG) = Ret None.
Proof.
  apply (check_warnings_spec DEFAULT_CONFIG
           (<["left_click" := JStr "keep"]> (<["right_click" := JStr "reject"]> ∅))
           (<["wheel_up" := JStr "previous"]> (<["wheel_down" := JStr "next"]> ∅))).
  - reflexivity.
  - reflexivity.
  - exists "left_click", "keep". split; [left; reflexivity|left; reflexivity].
Defined.

(** X25 on the sample dialog. *)
Lemma reset_then_save_writes_defaults_witness :
  ∃ d', (_reset_to_defaults;; _validate_and_save false) sample_dialog
        = (Raise parent_apply_config, d')
    ∧ disk (manager d') = Some (Document (JDict DEFAULT_CONFIG)).
Proof.
  destruct (reset_then_save_writes_defaults false sample_dialog)
    as (d' & Hrun & Hdisk & _).
  - reflexivity.
  - exists d'. split; [exact Hrun|exact Hdisk].
Defined.

End SettingsSamples.

Section FoldersSamples.
Import Config Session Folders.

(** X26 on the window at start: the source folder is chosen. *)
Lemma selected_folder_is_stored_witness :
  ∃ w' new,
    select_src "/photos/in" sample_window = (Ret tt, w')
    ∧ src_dir (session w') = "/photos/in"
    ∧ load (manager w') = (Ret (JDict new), manager w')
    ∧ new !! "src" = Some (JStr "/photos/in").
Proof.
  destruct (selected_folder_is_stored true "/photos/in" sample_window DEFAULT_CONFIG)
    as (w' & new & Hrun & Hsrc & _ & _ & Hload & Hnew & _).
  - discriminate.
  - reflexivity.
  - vm_compute. reflexivity.
  - reflexivity.
  - reflexivity.
  - exists w', new. split; [exact Hrun|]. split; [exact Hsrc|].
    split; [exact Hload|]. rewrite Hnew. cbn in Hsrc. by rewrite Hsrc.
Defined.

End FoldersSamples.
